(** * coolgpus: the fan curve and the life cycle of the X servers

    A shallow embedding of [fans.py] and the properties of its control law
    and of its process handling.

    The definitions come first:

    - Python numbers: unbounded integers ([Z]) and IEEE-754 binary64 floats
      (the executable specification [SpecFloat] of the standard library),
      with the mixed int/float arithmetic the fan curve relies on;
    - the fan curve [min_speed], [max_speed], [target_speed];
    - the effectful code ([xservers], [set_speed], [manage_fans], [run]) as
      state passing over a chronological trace of the calls that leave the
      interpreter, whose outcomes are chosen by an arbitrary environment;
    - the curve over exact numbers, and the vocabulary used to read traces;
    - [decimalize], over the builtins [int] and [str];
    - the classes of calls a computation may make.

    The facts follow: rounding of doubles, the fan curve, the control loop
    of [manage_fans], and the context manager [xservers]; then [decimalize]
    and the program as a whole: what it may call and in which order, where
    its exceptions come from, its steady state and how it is left. *)

From Stdlib Require Import ZArith Lia List Ascii String.
From Stdlib Require Import QArith Qround Qminmax.
From Stdlib Require Import DecimalString DecimalNat DecimalPos DecimalZ.
From Stdlib Require Import Floats.SpecFloat.
Import ListNotations.

Local Open Scope Z_scope.

(** ** Exceptions and results *)

Inductive exn : Type :=
| OverflowError
| ValueError
| KeyError
| CalledProcessError
| OSError
| KeyboardInterrupt.

Inductive result (A : Type) : Type :=
| Ok (a : A)
| Raise (e : exn).

Arguments Ok {A} a.
Arguments Raise {A} e.

Definition rbind {A B : Type} (r : result A) (k : A -> result B) : result B :=
  match r with
  | Ok a => k a
  | Raise e => Raise e
  end.

Declare Scope result_scope.
Delimit Scope result_scope with result.
Notation "x <- e ;; k" := (rbind e (fun x => k))
  (at level 61, e at next level, right associativity) : result_scope.

(** ** Python numbers *)

Module PyFloat.

(** Python floats are binary64. *)
Definition prec : Z := 53.
Definition emax : Z := 1024.

(** The double nearest to an integer (ties to even); an integer beyond the
    largest double rounds to an infinity. *)
Definition nearest (n : Z) : spec_float := binary_normalize prec emax n 0 false.

(** [float(n)] and the implicit conversion of an [int] operand: CPython
    raises OverflowError when the integer is too large for a double. *)
Definition of_int (n : Z) : result spec_float :=
  match nearest n with
  | S754_infinity _ => Raise OverflowError
  | x => Ok x
  end.

Definition mul : spec_float -> spec_float -> spec_float := SFmul prec emax.
Definition add : spec_float -> spec_float -> spec_float := SFadd prec emax.
Definition sub : spec_float -> spec_float -> spec_float := SFsub prec emax.
Definition div : spec_float -> spec_float -> spec_float := SFdiv prec emax.

(** The signed integer mantissa of a finite float. *)
Definition signed (s : bool) (m : positive) : Z := cond_Zopp s (Zpos m).

(** Exact comparison of an integer with a float, as CPython compares an
    [int] with a [float]; [None] when the float is a NaN. *)
Definition Zcompare (z : Z) (x : spec_float) : option comparison :=
  match x with
  | S754_nan => None
  | S754_infinity s => Some (if s then Gt else Lt)
  | S754_zero _ => Some (z ?= 0)
  | S754_finite s m e =>
      Some (if 0 <=? e then z ?= signed s m * 2 ^ e
            else z * 2 ^ (- e) ?= signed s m)
  end.

(** The smallest integer that rounds to [2 ^ 1024], half an ulp above the
    largest double. *)
Definition huge : Z := 2 ^ 1024 - 2 ^ 970.

(** [int(x)]: truncation toward zero. *)
Definition to_int (x : spec_float) : result Z :=
  match x with
  | S754_nan => Raise ValueError
  | S754_infinity _ => Raise OverflowError
  | S754_zero _ => Ok 0
  | S754_finite s m e =>
      Ok (cond_Zopp s (if 0 <=? e then Zpos m * 2 ^ e else Zpos m / 2 ^ (- e)))
  end.

End PyFloat.

Inductive pynum : Type :=
| PyInt (z : Z)
| PyFloat (x : spec_float).

(** [a < b] *)
Definition py_lt (a b : pynum) : bool :=
  match a, b with
  | PyInt x, PyInt y => x <? y
  | PyFloat x, PyFloat y => SFltb x y
  | PyInt x, PyFloat y =>
      match PyFloat.Zcompare x y with Some Lt => true | _ => false end
  | PyFloat x, PyInt y =>
      match PyFloat.Zcompare y x with Some Gt => true | _ => false end
  end.

(** The builtins [min(a, b)] and [max(a, b)]: the first argument is kept
    unless the second is strictly smaller (resp. larger). *)
Definition py_min (a b : pynum) : pynum := if py_lt b a then b else a.
Definition py_max (a b : pynum) : pynum := if py_lt a b then b else a.

(** Binary arithmetic: [int] with [int] stays exact, a [float] operand
    converts the other one. *)
Definition py_float (a : pynum) : result spec_float :=
  match a with
  | PyInt z => PyFloat.of_int z
  | PyFloat x => Ok x
  end.

Definition py_arith (fz : Z -> Z -> Z) (ff : spec_float -> spec_float -> spec_float)
  (a b : pynum) : result pynum :=
  match a, b with
  | PyInt x, PyInt y => Ok (PyInt (fz x y))
  | _, _ =>
      (x <- py_float a ;;
       y <- py_float b ;;
       Ok (PyFloat (ff x y)))%result
  end.

Definition py_add : pynum -> pynum -> result pynum := py_arith Z.add PyFloat.add.
Definition py_sub : pynum -> pynum -> result pynum := py_arith Z.sub PyFloat.sub.
Definition py_mul : pynum -> pynum -> result pynum := py_arith Z.mul PyFloat.mul.

(** [int(a)] *)
Definition py_int (a : pynum) : result Z :=
  match a with
  | PyInt z => Ok z
  | PyFloat x => PyFloat.to_int x
  end.

(** ** The fan curve *)

Definition T_MIN : Z := 50.
Definition T_MAX : Z := 80.
Definition S_MIN : Z := 30.
Definition S_MAX : Z := 99.

(** [SCALE = (S_MAX - S_MIN)/float(T_MAX - T_MIN)**2]: the square of the
    double 30.0 is the double 900.0, the quotient is rounded once. *)
Definition SCALE : spec_float :=
  let d := PyFloat.nearest (T_MAX - T_MIN) in
  PyFloat.div (PyFloat.nearest (S_MAX - S_MIN)) (PyFloat.mul d d).

Definition min_speed (t : Z) : result Z :=
  if t <? T_MIN then Ok S_MIN
  else
    (a <- py_mul (PyFloat SCALE) (PyInt ((t - T_MIN) ^ 2)) ;;
     b <- py_add a (PyInt S_MIN) ;;
     py_int (py_min b (PyInt S_MAX)))%result.

Definition max_speed (t : Z) : result Z :=
  if t >? T_MAX then Ok S_MAX
  else
    (a <- py_mul (PyFloat SCALE) (PyInt ((t - T_MAX) ^ 2)) ;;
     b <- py_sub (PyInt S_MAX) a ;;
     py_int (py_max b (PyInt S_MIN)))%result.

Definition target_speed (s t : Z) : result (Z * Z * Z) :=
  (l <- min_speed t ;;
   u <- max_speed t ;;
   Ok (Z.min (Z.max s l) u, l, u))%result.

(** ** Dictionaries

    A Python [dict] keeps its keys in insertion order; assigning to a key
    that is present replaces the value in place. *)

Definition dict (V : Type) : Type := list (string * V).

Fixpoint dict_get {V : Type} (d : dict V) (k : string) : option V :=
  match d with
  | [] => None
  | (k', v) :: d' => if String.eqb k k' then Some v else dict_get d' k
  end.

Fixpoint dict_set {V : Type} (d : dict V) (k : string) (v : V) : dict V :=
  match d with
  | [] => [(k, v)]
  | (k', v') :: d' =>
      if String.eqb k k' then (k', v) :: d' else (k', v') :: dict_set d' k v
  end.

Definition dict_items {V : Type} (d : dict V) : list (string * V) := d.
Definition dict_keys {V : Type} (d : dict V) : list string := map fst d.

(** [{k: v for k in keys}] *)
Definition dict_from_keys {V : Type} (keys : list string) (v : V) : dict V :=
  fold_left (fun d k => dict_set d k v) keys [].

Definition enumerate {A : Type} (l : list A) : list (nat * A) :=
  combine (seq 0 (List.length l)) l.

(** [str(n)] *)
Definition str_nat (n : nat) : string := NilZero.string_of_uint (Nat.to_uint n).
Definition str_int (z : Z) : string := NilZero.string_of_int (Z.to_int z).

(** ** The outside world

    Every call that leaves the interpreter is recorded, with its outcome, in
    a chronological trace.  The outcome is chosen by the environment, an
    arbitrary function of the history so far. *)

Inductive event : Type :=
| EvGpuBuses (r : result (list string))
| EvConfig (bus : string) (r : result string)
| EvPopen (argv : list string) (r : result nat)
| EvTerminate (server : nat) (r : result unit)
| EvTemperature (bus : string) (r : result Z)
| EvAssign (display command : string) (r : result unit)
| EvSleep (seconds : Z) (r : result unit)
| EvPrint (line : string) (r : result unit).

Definition trace : Type := list event.

Record environment : Type := {
  (** [nvidia-smi --query-gpu=pci.bus_id], split into lines *)
  env_gpu_buses : trace -> result (list string);
  (** [config(bus)]: the temporary directory and the two files written into
      it; the result is the path of [xorg.conf] *)
  env_config : trace -> string -> result string;
  (** does [Popen(argv)] start the child? *)
  env_popen : trace -> list string -> result unit;
  (** [nvidia-smi --query-gpu=temperature.gpu -i bus], parsed by [int] *)
  env_temperature : trace -> string -> result Z;
  (** [nvidia-settings -a command] under [DISPLAY=display] *)
  env_assign : trace -> string -> string -> result unit;
  (** [time.sleep], which a signal may interrupt *)
  env_sleep : trace -> Z -> result unit;
  (** [server.terminate()], which sends a signal to the child *)
  env_terminate : trace -> nat -> result unit;
  (** [print], which writes a line to the standard output *)
  env_print : trace -> string -> result unit
}.

(** ** Computations

    [io L A] is a computation inside a function frame with local variables
    [L]: it may return, raise, or still be running when the fuel of a
    [while True] loop is spent ([None]).  The locals and the trace survive
    an exception, so that a [finally] block sees them.  [proc A] is a whole
    function call. *)

Definition proc (A : Type) : Type := trace -> option (result A) * trace.
Definition io (L A : Type) : Type := L -> trace -> option (result A) * L * trace.

Definition ret {L A : Type} (a : A) : io L A := fun l tr => (Some (Ok a), l, tr).

Definition lift_result {L A : Type} (r : result A) : io L A :=
  fun l tr => (Some r, l, tr).

Definition bind {L A B : Type} (c : io L A) (k : A -> io L B) : io L B :=
  fun l tr =>
    match c l tr with
    | (Some (Ok a), l1, tr1) => k a l1 tr1
    | (Some (Raise e), l1, tr1) => (Some (Raise e), l1, tr1)
    | (None, l1, tr1) => (None, l1, tr1)
    end.

Declare Scope io_scope.
Delimit Scope io_scope with io.
Notation "x <- c ;; k" := (bind c (fun x => k))
  (at level 61, c at next level, right associativity) : io_scope.
Notation "' pat <- c ;; k" := (bind c (fun pat => k))
  (at level 61, pat pattern, c at next level, right associativity) : io_scope.
Notation "c ;; k" := (bind c (fun _ => k))
  (at level 61, right associativity) : io_scope.

(** [try: c finally: f].  The [finally] block runs once [c] has returned or
    raised; an exception of the block replaces the pending outcome. *)
Definition try_finally {L A : Type} (c : io L A) (f : io L unit) : io L A :=
  fun l tr =>
    match c l tr with
    | (None, l1, tr1) => (None, l1, tr1)
    | (Some r, l1, tr1) =>
        match f l1 tr1 with
        | (Some (Ok _), l2, tr2) => (Some r, l2, tr2)
        | (Some (Raise e), l2, tr2) => (Some (Raise e), l2, tr2)
        | (None, l2, tr2) => (None, l2, tr2)
        end
    end.

(** [for x in xs: body] *)
Fixpoint for_each {L X : Type} (xs : list X) (body : X -> io L unit) : io L unit :=
  match xs with
  | [] => ret tt
  | x :: xs' => (body x ;; for_each xs' body)%io
  end.

(** [while True: body], observed for [fuel] iterations. *)
Fixpoint while_true {L : Type} (fuel : nat) (body : io L unit) : io L unit :=
  match fuel with
  | O => fun l tr => (None, l, tr)
  | S fuel' => (body ;; while_true fuel' body)%io
  end.

Definition gets {L A : Type} (f : L -> A) : io L A := fun l tr => (Some (Ok (f l)), l, tr).
Definition modify {L : Type} (f : L -> L) : io L unit := fun l tr => (Some (Ok tt), f l, tr).

(** A function call: a fresh frame, dropped when the call ends. *)
Definition call {L A : Type} (locals : L) (c : io L A) : proc A :=
  fun tr => let '(r, _, tr1) := c locals tr in (r, tr1).

Definition lift {L A : Type} (p : proc A) : io L A :=
  fun l tr => let '(r, tr1) := p tr in (r, l, tr1).

(** An external call: the environment picks the outcome, the trace records it. *)
Definition external {L A : Type} (ask : trace -> result A) (ev : result A -> event)
  : io L A :=
  fun l tr => let r := ask tr in (Some r, l, tr ++ [ev r]).

(** [d[k]] *)
Definition subscript {L V : Type} (d : dict V) (k : string) : io L V :=
  match dict_get d k with
  | Some v => ret v
  | None => lift_result (Raise KeyError)
  end.

Section Program.

Variable E : environment.

Definition gpu_buses {L : Type} : io L (list string) :=
  external (env_gpu_buses E) EvGpuBuses.

Definition temperature {L : Type} (bus : string) : io L Z :=
  external (fun tr => env_temperature E tr bus) (EvTemperature bus).

Definition config {L : Type} (bus : string) : io L string :=
  external (fun tr => env_config E tr bus) (EvConfig bus).

(** A started child is identified by the point of the history at which it
    was started. *)
Definition Popen {L : Type} (argv : list string) : io L nat :=
  external (fun tr => rbind (env_popen E tr argv) (fun _ => Ok (List.length tr)))
           (EvPopen argv).

Definition terminate {L : Type} (server : nat) : io L unit :=
  external (fun tr => env_terminate E tr server) (EvTerminate server).

Definition print {L : Type} (line : string) : io L unit :=
  external (fun tr => env_print E tr line) (EvPrint line).

Definition sleep {L : Type} (seconds : Z) : io L unit :=
  external (fun tr => env_sleep E tr seconds) (EvSleep seconds).

Definition xserver {L : Type} (display bus : string) : io L nat :=
  (conf <- config bus ;;
   proc <- Popen ["Xorg"; display; "-once"; "-config"; conf]%string ;;
   ret proc)%io.

(** The locals of the [xservers] generator. *)
Record xservers_locals : Type := {
  displays : dict string;
  servers : dict nat
}.

Definition set_display (bus display : string) (l : xservers_locals) : xservers_locals :=
  {| displays := dict_set (displays l) bus display; servers := servers l |}.

Definition set_server (bus : string) (server : nat) (l : xservers_locals)
  : xservers_locals :=
  {| displays := displays l; servers := dict_set (servers l) bus server |}.

(** The body of the [for] loop that starts the servers. *)
Definition start_server (d : nat) (bus : string) : io xservers_locals unit :=
  (modify (set_display bus (":" ++ str_nat d)%string) ;;
   ds <- gets displays ;;
   display <- subscript ds bus ;;
   print ("Starting xserver for display " ++ display)%string ;;
   ds <- gets displays ;;
   display <- subscript ds bus ;;
   server <- xserver display bus ;;
   modify (set_server bus server))%io.

Definition xservers_start (buses : list string) : io xservers_locals unit :=
  for_each (enumerate buses) (fun '(d, bus) => start_server d bus).

(** The body of the [for] loop of the [finally] block. *)
Definition stop_server (bus : string) (server : nat) : io xservers_locals unit :=
  (ds <- gets displays ;;
   display <- subscript ds bus ;;
   print ("Terminating xserver for display " ++ display)%string ;;
   terminate server)%io.

Definition xservers_stop : io xservers_locals unit :=
  (ss <- gets servers ;;
   for_each (dict_items ss) (fun '(bus, server) => stop_server bus server))%io.

(** Leaving the [try] block with the pending outcome [r]: the [finally]
    block runs on the locals [l]. *)
Definition leave {A : Type} (l : xservers_locals) (r : result A) : proc A :=
  call l (try_finally (lift_result r) xservers_stop).

(** [with xservers(buses) as displays: body(displays)].  The generator is
    suspended at its [yield] inside the [try]; the body's exception is
    thrown there, so the [finally] block runs however the body ends. *)
Definition xservers {A : Type} (buses : list string) (body : dict string -> proc A)
  : proc A :=
  call {| displays := []; servers := [] |}
    (try_finally
       (xservers_start buses ;;
        ds <- gets displays ;;
        lift (body ds))%io
       xservers_stop).

Definition assign {L : Type} (display command : string) : io L unit :=
  external (fun tr => env_assign E tr display command) (EvAssign display command).

Definition set_speed {L : Type} (display : string) (target : Z) : io L unit :=
  (assign display "[gpu:0]/GPUFanControlState=1" ;;
   assign display ("[fan:0]/GPUTargetFanSpeed=" ++ str_int target)%string)%io.

(** ['GPU {}, {}C -> [{}%-{}%]. <action> {}%'.format(display, temp, l, u, s)] *)
Definition report (display : string) (temp l u : Z) (action : string) (s : Z) : string :=
  ("GPU " ++ display ++ ", " ++ str_int temp ++ "C -> [" ++ str_int l ++ "%-"
   ++ str_int u ++ "%]. " ++ action ++ str_int s ++ "%")%string.

(** The body of the [for] loop of [manage_fans]; the local is [speeds]. *)
Definition manage_gpu (bus display : string) : io (dict Z) unit :=
  (temp <- temperature bus ;;
   speeds <- gets id ;;
   cur <- subscript speeds bus ;;
   '(s, l, u) <- lift_result (target_speed cur temp) ;;
   speeds <- gets id ;;
   cur <- subscript speeds bus ;;
   if negb (s =? cur) then
     set_speed display s ;;
     modify (fun speeds => dict_set speeds bus s) ;;
     print (report display temp l u "Setting speed to " s)
   else
     print (report display temp l u "Leaving speed at " s))%io.

Definition poll_round (displays : dict string) : io (dict Z) unit :=
  (for_each (dict_items displays) (fun '(bus, display) => manage_gpu bus display) ;;
   sleep 5)%io.

Definition release_command : string := "[gpu:0]/GPUFanControlState=0".

Definition release_fans (displays : dict string) : io (dict Z) unit :=
  for_each (dict_items displays) (fun '(bus, display) =>
    (assign display release_command ;;
     print ("Released fan speed control for GPU at " ++ display)%string)%io).

Definition manage_fans (fuel : nat) (displays : dict string) : proc unit :=
  call []
    (try_finally
       (modify (fun _ => dict_from_keys (dict_keys displays) 0) ;;
        while_true fuel (poll_round displays))%io
       (release_fans displays)).

Definition run (fuel : nat) : proc unit :=
  call tt
    (buses <- gpu_buses ;;
     lift (xservers buses (manage_fans fuel)))%io.

End Program.

(** ** Shapes of doubles used in the proofs *)

Module FloatShape.
Import PyFloat.

(** The result of rounding a positive integer mantissa [M] of at least 53
    bits: the 53 leading bits [M / 2 ^ k], rounded to nearest even, with the
    carry of [2 ^ 53 - 1 + 1] renormalised, and overflow to infinity. *)
Definition rounded (sx : bool) (m2 e1 : Z) : spec_float :=
  if m2 <? 2 ^ 53
  then if e1 <=? 971 then S754_finite sx (Z.to_pos m2) e1 else S754_infinity sx
  else if e1 + 1 <=? 971 then S754_finite sx (Z.to_pos (2 ^ 52)) (e1 + 1)
       else S754_infinity sx.

(** Rounding keeps the sign of its input. *)
Definition has_sign (sx : bool) (x : spec_float) : Prop :=
  match x with
  | S754_nan => False
  | S754_zero s | S754_infinity s | S754_finite s _ _ => s = sx
  end.

(** [above k x]: [x] is a normalised positive double (or [+inf]) and
    [2 ^ (k - 1) <= x]. *)
Definition above (k : Z) (x : spec_float) : Prop :=
  match x with
  | S754_infinity false => True
  | S754_finite false m e => Zdigits2 (Zpos m) = 53 /\ k <= 53 + e
  | _ => False
  end.

Definition negative (x : spec_float) : Prop :=
  match x with
  | S754_infinity true | S754_zero true | S754_finite true _ _ => True
  | _ => False
  end.

End FloatShape.

(** ** The curve as arithmetic on exact numbers *)

(** The temperatures at which the squares handed to the float arithmetic
    convert to a double. *)
Definition no_overflow (t : Z) : Prop :=
  (T_MIN <= t -> (t - T_MIN) ^ 2 < PyFloat.huge) /\
  (t <= T_MAX -> (t - T_MAX) ^ 2 < PyFloat.huge).

(** The two bounds in integer arithmetic (floor division). *)
Definition min_curve (t : Z) : Z :=
  if t <? T_MIN then S_MIN
  else Z.min ((S_MAX - S_MIN) * (t - T_MIN) ^ 2 / (T_MAX - T_MIN) ^ 2 + S_MIN) S_MAX.

Definition max_curve (t : Z) : Z :=
  if t >? T_MAX then S_MAX
  else Z.max (S_MAX + (- ((S_MAX - S_MIN) * (t - T_MAX) ^ 2)) / (T_MAX - T_MIN) ^ 2) S_MIN.

(** The clamped quadratic over the rationals, [SCALE] being the exact
    quotient and [int] the truncation toward zero. *)
Definition SCALE_spec : Q := inject_Z (S_MAX - S_MIN) / inject_Z (T_MAX - T_MIN) ^ 2.

Definition int_spec (q : Q) : Z := if Qle_bool 0 q then Qfloor q else Qceiling q.

Definition min_speed_spec (t : Z) : Z :=
  int_spec (Qmin (SCALE_spec * inject_Z (t - T_MIN) ^ 2 + inject_Z S_MIN) (inject_Z S_MAX)).

Definition max_speed_spec (t : Z) : Z :=
  int_spec (Qmax (inject_Z S_MAX - SCALE_spec * inject_Z (t - T_MAX) ^ 2) (inject_Z S_MIN)).

(** ** Checking a window of temperatures by evaluation *)

Definition Zrange (lo : Z) (n : nat) : list Z := map (fun i => lo + Z.of_nat i) (seq 0 n).

Definition returns (r : result Z) (z : Z) : bool :=
  match r with
  | Ok a => a =? z
  | Raise _ => false
  end.

(** ** Reading a trace *)

(** The exception an external call ended with, if any. *)
Definition failure (ev : event) : option exn :=
  match ev with
  | EvGpuBuses (Raise e) | EvConfig _ (Raise e) | EvPopen _ (Raise e)
  | EvTerminate _ (Raise e) | EvTemperature _ (Raise e) | EvAssign _ _ (Raise e)
  | EvSleep _ (Raise e) | EvPrint _ (Raise e) => Some e
  | _ => None
  end.

(** No call failed. *)
Definition clean (evs : list event) : Prop := Forall (fun ev => failure ev = None) evs.

(** The events of a computation that raised [e]: either no call failed (the
    exception came from the interpreter), or the last call failed with [e]. *)
Definition raised (e : exn) (evs : list event) : Prop :=
  clean evs \/
  exists evs' ev, evs = evs' ++ [ev] /\ clean evs' /\ failure ev = Some e.

(** An exception [e] is accounted for by the calls [evs] when one of them
    failed with [e], or when [e] is the OverflowError of a temperature that
    was read and whose square does not convert to a double. *)
Definition accounted (e : exn) (evs : list event) : Prop :=
  (exists ev, In ev evs /\ failure ev = Some e) \/
  (e = OverflowError /\
   exists bus t, In (EvTemperature bus (Ok t)) evs /\ ~ no_overflow t).

(** The calls the claims about a failing GPU speak of: reading a
    temperature, and the two commands of [set_speed]. *)
Definition control_call (ev : event) : Prop :=
  match ev with
  | EvTemperature _ _ => True
  | EvAssign _ command _ =>
      command = "[gpu:0]/GPUFanControlState=1"%string \/
      exists s, command = ("[fan:0]/GPUTargetFanSpeed=" ++ str_int s)%string
  | _ => False
  end.

(** The GPUs whose temperature was read. *)
Definition polled (evs : list event) : list string :=
  flat_map (fun ev => match ev with EvTemperature bus (Ok _) => [bus] | _ => [] end) evs.

(** The arguments of the calls to [time.sleep]. *)
Definition sleep_requests (evs : list event) : list Z :=
  flat_map (fun ev => match ev with EvSleep s _ => [s] | _ => [] end) evs.

(** The arguments of the calls to [time.sleep] that ran to their end. *)
Definition slept (evs : list event) : list Z :=
  flat_map (fun ev => match ev with EvSleep s (Ok _) => [s] | _ => [] end) evs.

(** What one GPU contributes to an iteration: its temperature is read and
    no call fails, or an exception cuts the iteration short. *)
Definition gpu_step (bus : string) (out : result unit) (evs : list event) : Prop :=
  sleep_requests evs = [] /\
  match out with
  | Ok _ => polled evs = [bus] /\ clean evs
  | Raise e => raised e evs
  end.

(** The started children, the display each was started on, the GPUs a
    configuration was written for, and the children a termination signal
    was sent to. *)
Definition spawned (evs : list event) : list nat :=
  flat_map (fun ev => match ev with EvPopen _ (Ok p) => [p] | _ => [] end) evs.

Definition spawn_displays (evs : list event) : list string :=
  flat_map (fun ev => match ev with
                      | EvPopen argv (Ok _) => [nth 1 argv EmptyString]
                      | _ => []
                      end) evs.

Definition configured (evs : list event) : list string :=
  flat_map (fun ev => match ev with EvConfig bus (Ok _) => [bus] | _ => [] end) evs.

Definition terminated (evs : list event) : list nat :=
  flat_map (fun ev => match ev with EvTerminate p (Ok _) => [p] | _ => [] end) evs.

(** The display of the [d]-th GPU. *)
Definition display_id (d : nat) : string := (":" ++ str_nat d)%string.

(** The lines printed around the life of a server and of a fan. *)
Definition starting_line (display : string) : string :=
  ("Starting xserver for display " ++ display)%string.
Definition terminating_line (display : string) : string :=
  ("Terminating xserver for display " ++ display)%string.
Definition released_line (display : string) : string :=
  ("Released fan speed control for GPU at " ++ display)%string.

(** The calls that hand every fan back to the driver. *)
Definition release_events (displays : dict string) : list event :=
  flat_map (fun '(_, display) =>
              [EvAssign display release_command (Ok tt);
               EvPrint (released_line display) (Ok tt)])
           (dict_items displays).

(** The calls of a hand-back that stops at a display: the command fails,
    or the command succeeds and the line that reports it cannot be printed. *)
Definition release_failure (display : string) (e : exn) (evs : list event) : Prop :=
  evs = [EvAssign display release_command (Raise e)] \/
  evs = [EvAssign display release_command (Ok tt);
         EvPrint (released_line display) (Raise e)].

(** The calls of a start-up that serves the whole list: for the GPU at each
    position, the line announcing its display, its configuration, and its
    server started on that display with that configuration. *)
Fixpoint startup_shape (items : list (nat * string)) (evs : list event) : Prop :=
  match items with
  | [] => evs = []
  | (d, bus) :: items' =>
      exists conf p rest,
        evs = EvPrint (starting_line (display_id d)) (Ok tt)
              :: EvConfig bus (Ok conf)
              :: EvPopen ["Xorg"; display_id d; "-once"; "-config"; conf]%string (Ok p)
              :: rest /\
        startup_shape items' rest
  end.

(** One completed iteration of the control loop, and a sequence of them. *)
Definition round_events (body : list event) : list event := body ++ [EvSleep 5 (Ok tt)].

(** The body of a completed iteration reads the temperature of every GPU of
    the mapping, in order, makes no failing call and does not sleep. *)
Definition full_round (displays : dict string) (body : list event) : Prop :=
  polled body = dict_keys displays /\ sleep_requests body = [] /\ clean body.

Definition rounds_events (rounds : list (list event)) : list event :=
  flat_map round_events rounds.

(** The environments in which announcing, configuring and starting an X
    server works. *)
Definition spawns_succeed (E : environment) : Prop :=
  (forall tr display, env_print E tr (starting_line display) = Ok tt) /\
  (forall tr bus, exists conf, env_config E tr bus = Ok conf) /\
  (forall tr argv, env_popen E tr argv = Ok tt).

(** The environments in which handing a fan back to the driver, and
    printing that it was done, works. *)
Definition release_succeeds (E : environment) : Prop :=
  (forall tr display, env_assign E tr display release_command = Ok tt) /\
  (forall tr display, env_print E tr (released_line display) = Ok tt).

(** The environments in which announcing the end of an X server and sending
    it the termination signal works. *)
Definition stops_succeed (E : environment) : Prop :=
  (forall tr display, env_print E tr (terminating_line display) = Ok tt) /\
  (forall tr server, env_terminate E tr server = Ok tt).

(** Every GPU with a server has a display. *)
Definition covered (l : xservers_locals) : Prop :=
  forall bus, dict_get (servers l) bus <> None -> dict_get (displays l) bus <> None.

(** The locals of [xservers] when it starts. *)
Definition no_servers : xservers_locals := {| displays := []; servers := [] |}.

(** ** Example machines *)

Definition two_gpus : dict string :=
  [("00000000:01:00.0", ":0"); ("00000000:02:00.0", ":1")]%string.

(** Two GPUs at 65 degrees; every command works. *)
Definition steady : environment := {|
  env_gpu_buses := fun _ => Ok (dict_keys two_gpus);
  env_config := fun _ bus => Ok ("/tmp/cool-gpu-" ++ bus ++ "/xorg.conf")%string;
  env_popen := fun _ _ => Ok tt;
  env_temperature := fun _ _ => Ok 65;
  env_assign := fun _ _ _ => Ok tt;
  env_sleep := fun _ _ => Ok tt;
  env_terminate := fun _ _ => Ok tt;
  env_print := fun _ _ => Ok tt
|}.

(** The temperature of the second GPU cannot be read. *)
Definition second_gpu_lost : environment := {|
  env_gpu_buses := env_gpu_buses steady;
  env_config := env_config steady;
  env_popen := env_popen steady;
  env_temperature := fun _ bus =>
    if String.eqb bus "00000000:02:00.0" then Raise CalledProcessError else Ok 65;
  env_assign := env_assign steady;
  env_sleep := env_sleep steady;
  env_terminate := env_terminate steady;
  env_print := env_print steady
|}.

(** Neither [nvidia-smi] nor [nvidia-settings] works any more. *)
Definition driver_down : environment := {|
  env_gpu_buses := env_gpu_buses steady;
  env_config := env_config steady;
  env_popen := env_popen steady;
  env_temperature := fun _ _ => Raise CalledProcessError;
  env_assign := fun _ _ _ => Raise CalledProcessError;
  env_sleep := env_sleep steady;
  env_terminate := env_terminate steady;
  env_print := env_print steady
|}.

(** The X server of the second GPU does not start. *)
Definition second_server_fails : environment := {|
  env_gpu_buses := env_gpu_buses steady;
  env_config := env_config steady;
  env_popen := fun _ argv =>
    if String.eqb (nth 1 argv EmptyString) ":1" then Raise OSError else Ok tt;
  env_temperature := env_temperature steady;
  env_assign := env_assign steady;
  env_sleep := env_sleep steady;
  env_terminate := env_terminate steady;
  env_print := env_print steady
|}.

(** A body of the [with] block that returns at once. *)
Definition idle_body (ds : dict string) : proc (dict string) := call tt (ret ds).

(** The standard output is closed once the two X servers are running: every
    later [print] raises. *)
Definition stdout_closed : environment := {|
  env_gpu_buses := env_gpu_buses steady;
  env_config := env_config steady;
  env_popen := env_popen steady;
  env_temperature := env_temperature steady;
  env_assign := env_assign steady;
  env_sleep := env_sleep steady;
  env_terminate := env_terminate steady;
  env_print := fun tr _ => if (List.length tr <? 6)%nat then Ok tt else Raise OSError
|}.

(** The temperature of the first GPU cannot be parsed, and [nvidia-settings]
    is down. *)
Definition garbled_reading : environment := {|
  env_gpu_buses := env_gpu_buses steady;
  env_config := env_config steady;
  env_popen := env_popen steady;
  env_temperature := fun _ _ => Raise ValueError;
  env_assign := fun _ _ _ => Raise CalledProcessError;
  env_sleep := env_sleep steady;
  env_terminate := env_terminate steady;
  env_print := env_print steady
|}.

(** ** [decimalize]

    The bus ID of a GPU, as [nvidia-smi] prints it, is turned into the
    [BusID] of the X configuration.  The builtin [int(_, 16)] is a parameter
    [int16]; what the properties need of it is stated by [reads_hex] and
    [rejects_bare_prefix].  Strings are strings of bytes, which is what a bus
    ID in ASCII is. *)

(** [str(v)].  Since Python 3.11 the conversion of an [int] to decimal raises
    ValueError when the result has more than [max_str_digits] digits (4300
    unless configured otherwise); 0 lifts the limit, which earlier versions
    do not have. *)
Definition py_str (max_str_digits v : Z) : result string :=
  if ((0 <? max_str_digits) && (10 ^ max_str_digits <=? Z.abs v))%bool
  then Raise ValueError
  else Ok (str_int v).

(** The integers [str] converts. *)
Definition printable (max_str_digits v : Z) : Prop :=
  max_str_digits <= 0 \/ Z.abs v < 10 ^ max_str_digits.

(** [s[n:]] *)
Fixpoint drop (n : nat) (s : string) : string :=
  match n, s with
  | S n', String _ s' => drop n' s'
  | _, _ => s
  end.

Definition is_sep (c : ascii) : bool := (Ascii.eqb c ":" || Ascii.eqb c ".")%bool.

(** [re.split('[:.]', s)]: the pieces between the separators, empty ones
    included. *)
Fixpoint re_split (s : string) : list string :=
  match s with
  | EmptyString => [EmptyString]
  | String c s' =>
      if is_sep c then EmptyString :: re_split s'
      else
        match re_split s' with
        | p :: ps => String c p :: ps
        | [] => [String c EmptyString]
        end
  end.

(** [[f(x) for x in xs]]: the first exception ends the comprehension. *)
Fixpoint comprehension {A B : Type} (f : A -> result B) (xs : list A) : result (list B) :=
  match xs with
  | [] => Ok []
  | x :: xs' =>
      (y <- f x ;;
       ys <- comprehension f xs' ;;
       Ok (y :: ys))%result
  end.

(** [str(int('0x' + p, 16))] *)
Definition component (int16 : string -> result Z) (max_str_digits : Z) (p : string)
  : result string :=
  (v <- int16 ("0x" ++ p)%string ;;
   py_str max_str_digits v)%result.

Definition decimalize (int16 : string -> result Z) (max_str_digits : Z) (bus : string)
  : result string :=
  (parts <- comprehension (component int16 max_str_digits) (re_split (drop 9 bus)) ;;
   Ok (String.concat ":" parts))%result.

(** The value of a hexadecimal digit, in either case. *)
Definition hex_digit (c : ascii) : option Z :=
  let n := Z.of_nat (nat_of_ascii c) in
  if ((48 <=? n) && (n <=? 57))%bool then Some (n - 48)
  else if ((65 <=? n) && (n <=? 70))%bool then Some (n - 55)
  else if ((97 <=? n) && (n <=? 102))%bool then Some (n - 87)
  else None.

Fixpoint hex_from (acc : Z) (s : string) : option Z :=
  match s with
  | EmptyString => Some acc
  | String c s' =>
      match hex_digit c with
      | Some d => hex_from (16 * acc + d) s'
      | None => None
      end
  end.

(** The value of a non-empty string of hexadecimal digits. *)
Definition hexadecimal (s : string) : option Z :=
  match s with
  | EmptyString => None
  | _ => hex_from 0 s
  end.

(** [int('0x' + p, 16)] is the value of [p] when [p] is a non-empty string of
    hexadecimal digits ... *)
Definition reads_hex (int16 : string -> result Z) : Prop :=
  forall p v, hexadecimal p = Some v -> int16 ("0x" ++ p)%string = Ok v.

(** ... and [int('0x', 16)] raises ValueError. *)
Definition rejects_bare_prefix (int16 : string -> result Z) : Prop :=
  int16 "0x"%string = Raise ValueError.

(** A reader of the literals [0x] followed by hexadecimal digits that refuses
    everything else; it stands for the builtin in the examples. *)
Definition int16_literal (s : string) : result Z :=
  match s with
  | String "0" (String "x" p) =>
      match hexadecimal p with
      | Some v => Ok v
      | None => Raise ValueError
      end
  | _ => Raise ValueError
  end.

(** Pieces joined by separators: [p c1 q1 c2 q2 ...]. *)
Fixpoint weave (p : string) (rest : list (ascii * string)) : string :=
  match rest with
  | [] => p
  | (c, q) :: rest' => (p ++ String c (weave q rest'))%string
  end.

Fixpoint sep_free (s : string) : bool :=
  match s with
  | EmptyString => true
  | String c s' => (negb (is_sep c) && sep_free s')%bool
  end.

(** The bus IDs that carry, after the nine characters of the domain, the
    hexadecimal numerals of the values [vs], separated by [:] or [.]. *)
Definition bus_values (bus : string) (vs : list Z) : Prop :=
  exists prefix p rest,
    bus = (prefix ++ weave p rest)%string /\
    String.length prefix = 9%nat /\
    Forall (fun cq => is_sep (fst cq) = true) rest /\
    Forall2 (fun q v => hexadecimal q = Some v) (p :: map snd rest) vs.

(** ** What a computation may do *)

(** Every call the computation makes is one of [P]. *)
Definition emits {L A : Type} (P : event -> Prop) (c : io L A) : Prop :=
  forall l tr, exists evs, snd (c l tr) = tr ++ evs /\ Forall P evs.

Definition proc_emits {A : Type} (P : event -> Prop) (p : proc A) : Prop :=
  forall tr, exists evs, snd (p tr) = tr ++ evs /\ Forall P evs.

(** The commands of [set_speed]. *)
Definition enable_command : string := "[gpu:0]/GPUFanControlState=1".
Definition speed_command (s : Z) : string :=
  ("[fan:0]/GPUTargetFanSpeed=" ++ str_int s)%string.

(** The commands [manage_fans] may hand to [nvidia-settings]. *)
Definition fan_command (command : string) : Prop :=
  command = enable_command \/
  command = release_command \/
  exists s, S_MIN <= s <= S_MAX /\ command = speed_command s.

(** The calls [manage_fans] may make for a mapping [displays]. *)
Definition fan_event (displays : dict string) (ev : event) : Prop :=
  match ev with
  | EvTemperature bus _ => In bus (dict_keys displays)
  | EvAssign display command _ =>
      In display (map snd (dict_items displays)) /\ fan_command command
  | EvSleep seconds _ => seconds = 5
  | EvPrint _ _ => True
  | _ => False
  end.

(** The calls of the three phases of [run]. *)
Definition startup_event (ev : event) : Prop :=
  match ev with
  | EvConfig _ _ | EvPopen _ _ | EvPrint _ _ => True
  | _ => False
  end.

Definition control_event (ev : event) : Prop :=
  match ev with
  | EvTemperature _ _ | EvAssign _ _ _ | EvSleep _ _ | EvPrint _ _ => True
  | _ => False
  end.

Definition shutdown_event (ev : event) : Prop :=
  match ev with
  | EvTerminate _ _ | EvPrint _ _ => True
  | _ => False
  end.

(** The calls made for one GPU at temperature [t] with band [[lo, hi]]:
    when its fan is set to [lo], and when it is left there. *)
Definition setting (t lo hi : string -> Z) (item : string * string) : list event :=
  let '(bus, display) := item in
  [EvTemperature bus (Ok (t bus));
   EvAssign display enable_command (Ok tt);
   EvAssign display (speed_command (lo bus)) (Ok tt);
   EvPrint (report display (t bus) (lo bus) (hi bus) "Setting speed to " (lo bus)) (Ok tt)].

Definition leaving (t lo hi : string -> Z) (item : string * string) : list event :=
  let '(bus, display) := item in
  [EvTemperature bus (Ok (t bus));
   EvPrint (report display (t bus) (lo bus) (hi bus) "Leaving speed at " (lo bus)) (Ok tt)].

(** The environments in which every GPU keeps its temperature and every
    command, every sleep and every [print] succeeds. *)
Definition constant_temperatures (E : environment) (t : string -> Z) : Prop :=
  (forall tr bus, env_temperature E tr bus = Ok (t bus)) /\
  (forall tr display command, env_assign E tr display command = Ok tt) /\
  (forall tr seconds, env_sleep E tr seconds = Ok tt) /\
  (forall tr line, env_print E tr line = Ok tt).

(** A machine without GPUs, on which the third sleep is interrupted. *)
Definition no_gpus : environment := {|
  env_gpu_buses := fun _ => Ok [];
  env_config := env_config steady;
  env_popen := env_popen steady;
  env_temperature := env_temperature steady;
  env_assign := env_assign steady;
  env_sleep := fun tr _ =>
    if (List.length tr <? 3)%nat then Ok tt else Raise KeyboardInterrupt;
  env_terminate := env_terminate steady;
  env_print := env_print steady
|}.

(** * Facts about binary64 rounding *)

Module FloatFacts.
Import PyFloat.
Import FloatShape.

Lemma digits2_pos_bounds (p : positive) :
  2 ^ (Zpos (digits2_pos p) - 1) <= Zpos p < 2 ^ Zpos (digits2_pos p).
Proof.
  induction p as [p IH | p IH | ]; cbn [digits2_pos];
    [ change (Zpos p~1) with (2 * Zpos p + 1) | change (Zpos p~0) with (2 * Zpos p)
    | cbv; split; [ discriminate | reflexivity ] ];
    rewrite Pos2Z.inj_succ;
    generalize dependent (digits2_pos p); intros d IH;
    replace (Z.succ (Zpos d) - 1) with (Z.succ (Zpos d - 1)) by lia;
    rewrite !Z.pow_succ_r by lia; lia.
Qed.

Lemma Zdigits2_bounds (m : Z) :
  0 < m -> 2 ^ (Zdigits2 m - 1) <= m < 2 ^ Zdigits2 m.
Proof.
  destruct m as [ | p | p ]; try lia. intros _. apply digits2_pos_bounds.
Qed.

Lemma Zdigits2_pos (m : Z) : 0 < m -> 0 < Zdigits2 m.
Proof. destruct m; simpl; lia. Qed.

(** A number with its top bit at position [k - 1] has [k] digits. *)
Lemma Zdigits2_unique (m k : Z) :
  2 ^ (k - 1) <= m < 2 ^ k -> 0 < m -> Zdigits2 m = k.
Proof.
  intros [Hlo Hhi] Hm.
  pose proof (Zdigits2_bounds m Hm) as [Dlo Dhi].
  pose proof (Zdigits2_pos m Hm) as Dpos.
  assert (0 < k).
  { destruct (Z.ltb_spec 0 k) as [ | Hk ]; [ assumption | ].
    assert (2 ^ k <= 2 ^ 0) by (apply Z.pow_le_mono_r; lia).
    change (2 ^ 0) with 1 in *. lia. }
  assert (Zdigits2 m - 1 < k)
    by (apply (Z.pow_lt_mono_r_iff 2); lia).
  assert (k - 1 < Zdigits2 m)
    by (apply (Z.pow_lt_mono_r_iff 2); lia).
  lia.
Qed.

Lemma Zdigits2_lower (m k : Z) : 0 < m -> 2 ^ (k - 1) <= m -> k <= Zdigits2 m.
Proof.
  intros Hm Hk.
  pose proof (Zdigits2_bounds m Hm) as [_ Dhi].
  pose proof (Zdigits2_pos m Hm) as Dpos.
  destruct (Z.ltb_spec (k - 1) 0) as [ | Hk0 ]; [ lia | ].
  assert (k - 1 < Zdigits2 m); [ | lia ].
  apply (Z.pow_lt_mono_r_iff 2); lia.
Qed.

Lemma Zdigits2_le (a b : Z) : 0 < a <= b -> Zdigits2 a <= Zdigits2 b.
Proof.
  intros [Ha Hab]. apply Zdigits2_lower; [ lia | ].
  pose proof (Zdigits2_bounds a Ha). lia.
Qed.

Lemma Zdigits2_shiftl (m k : Z) :
  0 < m -> 0 <= k -> Zdigits2 (m * 2 ^ k) = Zdigits2 m + k.
Proof.
  intros Hm Hk.
  pose proof (Zdigits2_bounds m Hm) as [Dlo Dhi].
  pose proof (Zdigits2_pos m Hm) as Dpos.
  assert (0 < 2 ^ k) by (apply Z.pow_pos_nonneg; lia).
  apply Zdigits2_unique; [ | nia ].
  replace (Zdigits2 m + k - 1) with (Zdigits2 m - 1 + k) by lia.
  rewrite !Z.pow_add_r by lia. nia.
Qed.

Lemma Zdigits2_shiftr (m k : Z) :
  0 < m -> 0 <= k < Zdigits2 m ->
  0 < m / 2 ^ k /\ Zdigits2 (m / 2 ^ k) = Zdigits2 m - k.
Proof.
  intros Hm Hk.
  pose proof (Zdigits2_bounds m Hm) as [Dlo Dhi].
  assert (P : 0 < 2 ^ k) by (apply Z.pow_pos_nonneg; lia).
  assert (Q : 0 < 2 ^ (Zdigits2 m - 1 - k)) by (apply Z.pow_pos_nonneg; lia).
  assert (Lo : 2 ^ (Zdigits2 m - 1 - k) <= m / 2 ^ k).
  { apply Z.div_le_lower_bound; [ assumption | ].
    rewrite <- Z.pow_add_r by lia.
    replace (k + (Zdigits2 m - 1 - k)) with (Zdigits2 m - 1) by lia.
    assumption. }
  assert (Hi : m / 2 ^ k < 2 ^ (Zdigits2 m - k)).
  { apply Z.div_lt_upper_bound; [ assumption | ].
    rewrite <- Z.pow_add_r by lia.
    replace (k + (Zdigits2 m - k)) with (Zdigits2 m) by lia.
    assumption. }
  split; [ lia | ].
  apply Zdigits2_unique; [ | lia ].
  replace (Zdigits2 m - k - 1) with (Zdigits2 m - 1 - k) by lia. lia.
Qed.

Lemma Zdigits2_mul (a b : Z) :
  0 < a -> 0 < b -> Zdigits2 a + Zdigits2 b - 1 <= Zdigits2 (a * b).
Proof.
  intros Ha Hb.
  pose proof (Zdigits2_bounds a Ha) as [Alo _].
  pose proof (Zdigits2_bounds b Hb) as [Blo _].
  pose proof (Zdigits2_pos a Ha). pose proof (Zdigits2_pos b Hb).
  apply Zdigits2_lower; [ nia | ].
  replace (Zdigits2 a + Zdigits2 b - 1 - 1)
    with ((Zdigits2 a - 1) + (Zdigits2 b - 1)) by lia.
  rewrite Z.pow_add_r by lia.
  assert (0 < 2 ^ (Zdigits2 a - 1)) by (apply Z.pow_pos_nonneg; lia).
  assert (0 < 2 ^ (Zdigits2 b - 1)) by (apply Z.pow_pos_nonneg; lia).
  nia.
Qed.

(** *** Right shifts *)

Lemma shr_1_m (mrs : shr_record) :
  0 <= shr_m mrs -> shr_m (shr_1 mrs) = shr_m mrs / 2.
Proof.
  destruct mrs as [m r s]; cbn [shr_m]; intros Hm.
  destruct m as [ | [ p | p | ] | p ]; try lia; cbn [shr_1 shr_m].
  - reflexivity.
  - apply Z.div_unique with 1; lia.
  - apply Z.div_unique with 0; lia.
  - reflexivity.
Qed.

Lemma shr_1_r (mrs : shr_record) :
  0 <= shr_m mrs -> shr_r (shr_1 mrs) = Z.odd (shr_m mrs).
Proof.
  destruct mrs as [m r s]; cbn [shr_m]; intros Hm.
  destruct m as [ | [ p | p | ] | p ]; try lia; reflexivity.
Qed.

Lemma iter_pos_nat {A : Type} (f : A -> A) (p : positive) (x : A) :
  iter_pos f p x = Nat.iter (Pos.to_nat p) f x.
Proof.
  revert x. induction p as [p IH | p IH | ]; intros x; cbn [iter_pos].
  - rewrite Pos2Nat.inj_xI, !IH.
    replace (S (2 * Pos.to_nat p))%nat with (Pos.to_nat p + (Pos.to_nat p + 1))%nat by lia.
    rewrite !Nat.iter_add. reflexivity.
  - rewrite Pos2Nat.inj_xO, !IH.
    replace (2 * Pos.to_nat p)%nat with (Pos.to_nat p + Pos.to_nat p)%nat by lia.
    rewrite Nat.iter_add. reflexivity.
  - reflexivity.
Qed.

Lemma iter_shr_m (n : nat) (mrs : shr_record) :
  0 <= shr_m mrs ->
  shr_m (Nat.iter n shr_1 mrs) = shr_m mrs / 2 ^ Z.of_nat n.
Proof.
  intros Hm. induction n as [ | n IH ].
  - cbn. symmetry. apply Z.div_1_r.
  - rewrite Nat.iter_succ, shr_1_m.
    + rewrite IH, Nat2Z.inj_succ, Z.pow_succ_r by lia.
      rewrite Z.div_div by (try apply Z.pow_pos_nonneg; lia).
      f_equal. lia.
    + rewrite IH. apply Z.div_pos; [ lia | apply Z.pow_pos_nonneg; lia ].
Qed.

Lemma iter_shr_r (n : nat) (mrs : shr_record) :
  0 <= shr_m mrs ->
  shr_r (Nat.iter (S n) shr_1 mrs) = Z.odd (shr_m mrs / 2 ^ Z.of_nat n).
Proof.
  intros Hm. rewrite Nat.iter_succ, shr_1_r; rewrite iter_shr_m by lia.
  - reflexivity.
  - apply Z.div_pos; [ lia | apply Z.pow_pos_nonneg; lia ].
Qed.

Lemma shr_m_of_loc (m : Z) (l : location) : shr_m (shr_record_of_loc m l) = m.
Proof. destruct l as [ | [ | | ] ]; reflexivity. Qed.

(** [shr] divides the mantissa by [2 ^ n] and adds [n] to the exponent. *)
Lemma shr_spec (mrs : shr_record) (e n : Z) :
  0 <= shr_m mrs ->
  shr_m (fst (shr mrs e n)) = shr_m mrs / 2 ^ Z.max 0 n /\
  snd (shr mrs e n) = e + Z.max 0 n.
Proof.
  intros Hm. destruct n as [ | p | p ]; cbn [shr fst snd].
  - rewrite Z.div_1_r. lia.
  - rewrite iter_pos_nat, iter_shr_m, positive_nat_Z by assumption.
    replace (Z.max 0 (Zpos p)) with (Zpos p) by lia. lia.
  - replace (Z.max 0 (Zneg p)) with 0 by lia. rewrite Z.div_1_r. lia.
Qed.

Lemma round_nearest_even_bounds (m : Z) (l : location) :
  m <= round_nearest_even m l <= m + 1.
Proof.
  destruct l as [ | [ | | ] ]; cbn [round_nearest_even];
    try destruct (Z.even m); lia.
Qed.

Lemma round_r_false (mrs : shr_record) (m : Z) :
  shr_r mrs = false -> round_nearest_even m (loc_of_shr_record mrs) = m.
Proof. destruct mrs as [m0 [ | ] [ | ]]; cbn; congruence. Qed.

Lemma round_r_true_odd (mrs : shr_record) (m : Z) :
  shr_r mrs = true -> Z.odd m = true ->
  round_nearest_even m (loc_of_shr_record mrs) = m + 1.
Proof.
  destruct mrs as [m0 [ | ] [ | ]]; cbn; try congruence.
  intros _ Ho. rewrite <- Z.negb_odd, Ho. reflexivity.
Qed.

(** *** Rounding in the normal range

    Doubles of magnitude at least [2 ^ -1022] keep 53 significant bits. *)

Lemma fexp_normal (x : Z) : -1021 <= x -> fexp prec emax x = x - 53.
Proof. unfold fexp, emin, prec, emax. lia. Qed.

Lemma shr_fexp_normal (M e : Z) (l : location) :
  0 < M -> -1021 <= Zdigits2 M + e ->
  shr_m (fst (shr_fexp prec emax M e l)) = M / 2 ^ Z.max 0 (Zdigits2 M - 53) /\
  snd (shr_fexp prec emax M e l) = e + Z.max 0 (Zdigits2 M - 53).
Proof.
  intros HM Hn. unfold shr_fexp. rewrite fexp_normal by assumption.
  replace (Zdigits2 M + e - 53 - e) with (Zdigits2 M - 53) by lia.
  pose proof (shr_spec (shr_record_of_loc M l) e (Zdigits2 M - 53)) as H.
  rewrite shr_m_of_loc in H. apply H. lia.
Qed.

Lemma shr_fexp_round_bit (M e : Z) :
  0 < M -> -1021 <= Zdigits2 M + e -> 53 < Zdigits2 M ->
  shr_r (fst (shr_fexp prec emax M e loc_Exact)) =
    Z.odd (M / 2 ^ (Zdigits2 M - 54)).
Proof.
  intros HM Hn Hd. unfold shr_fexp. rewrite fexp_normal by assumption.
  replace (Zdigits2 M + e - 53 - e) with (Zdigits2 M - 53) by lia.
  destruct (Zdigits2 M - 53) as [ | p | p ] eqn:E; try lia.
  cbn [shr fst shr_record_of_loc]. rewrite iter_pos_nat.
  destruct (Pos.to_nat p) as [ | n ] eqn:En; [ lia | ].
  rewrite iter_shr_r by (cbn; lia). cbn [shr_m].
  do 3 f_equal. lia.
Qed.

Lemma binary_round_aux_normal (sx : bool) (M e : Z) (l : location) :
  0 < M -> 53 <= Zdigits2 M -> -1021 <= Zdigits2 M + e ->
  let k := Zdigits2 M - 53 in
  let m2 := round_nearest_even (M / 2 ^ k)
              (loc_of_shr_record (fst (shr_fexp prec emax M e l))) in
  binary_round_aux prec emax sx M e l = rounded sx m2 (e + k) /\
  2 ^ 52 <= m2 <= 2 ^ 53.
Proof.
  intros HM Hd Hn k m2.
  destruct (shr_fexp_normal M e l HM Hn) as [E1m E1e].
  replace (Z.max 0 (Zdigits2 M - 53)) with k in E1m, E1e by (unfold k; lia).
  destruct (Zdigits2_shiftr M k HM) as [Hm1 Hd1]; [ unfold k; lia | ].
  replace (Zdigits2 M - k) with 53 in Hd1 by (unfold k; lia).
  pose proof (Zdigits2_bounds _ Hm1) as B1. rewrite Hd1 in B1.
  pose proof (round_nearest_even_bounds (M / 2 ^ k)
                (loc_of_shr_record (fst (shr_fexp prec emax M e l)))) as B2.
  fold m2 in B2.
  assert (Hm2 : 2 ^ 52 <= m2 <= 2 ^ 53) by (change (53 - 1) with 52 in B1; lia).
  split; [ | exact Hm2 ].
  unfold binary_round_aux.
  destruct (shr_fexp prec emax M e l) as [mrs1 e1] eqn:S1.
  cbn [fst snd] in E1m, E1e, m2. rewrite E1m. subst e1.
  subst m2. set (m2 := round_nearest_even _ _) in *. clearbody m2.
  assert (P52 : 0 < 2 ^ 52) by (apply Z.pow_pos_nonneg; lia).
  unfold rounded.
  destruct (Z.ltb_spec m2 (2 ^ 53)) as [Hlt | Hge].
  - assert (D2 : Zdigits2 m2 = 53).
    { apply Zdigits2_unique; [ change (53 - 1) with 52 | ]; lia. }
    destruct (shr_fexp_normal m2 (e + k) loc_Exact) as [E2m E2e];
      [ lia | unfold k; lia | ].
    rewrite D2 in E2m, E2e. change (Z.max 0 (53 - 53)) with 0 in E2m, E2e.
    rewrite Z.div_1_r in E2m. rewrite Z.add_0_r in E2e.
    destruct (shr_fexp prec emax m2 (e + k) loc_Exact) as [mrs2 e2].
    cbn [fst snd] in E2m, E2e. rewrite E2m, E2e.
    destruct m2 as [ | p | p ]; try lia.
    change (emax - prec) with 971. rewrite Pos2Z.id. reflexivity.
  - assert (m2 = 2 ^ 53) by lia.
    assert (D2 : Zdigits2 m2 = 54) by (rewrite H; reflexivity).
    destruct (shr_fexp_normal m2 (e + k) loc_Exact) as [E2m E2e];
      [ lia | unfold k; lia | ].
    rewrite D2 in E2m, E2e. change (Z.max 0 (54 - 53)) with 1 in E2m, E2e.
    destruct (shr_fexp prec emax m2 (e + k) loc_Exact) as [mrs2 e2].
    cbn [fst snd] in E2m, E2e. rewrite E2m, E2e, H.
    change (2 ^ 53 / 2 ^ 1) with (2 ^ 52).
    change (emax - prec) with 971.
    destruct (2 ^ 52) as [ | p | p ] eqn:E52; try lia.
    rewrite Pos2Z.id. reflexivity.
Qed.

(** Without any assumption on the range, rounding keeps the sign and never
    produces a NaN. *)
Lemma shr_fexp_nonneg (M e : Z) (l : location) :
  0 <= M -> 0 <= shr_m (fst (shr_fexp prec emax M e l)).
Proof.
  intros HM. unfold shr_fexp.
  destruct (shr_spec (shr_record_of_loc M l) e
              (fexp prec emax (Zdigits2 M + e) - e)) as [E _];
    [ rewrite shr_m_of_loc; assumption | ].
  rewrite E, shr_m_of_loc.
  apply Z.div_pos; [ assumption | apply Z.pow_pos_nonneg; lia ].
Qed.

Lemma binary_round_aux_sign (sx : bool) (M e : Z) (l : location) :
  0 <= M -> has_sign sx (binary_round_aux prec emax sx M e l).
Proof.
  intros HM. unfold binary_round_aux.
  pose proof (shr_fexp_nonneg M e l HM) as H1.
  destruct (shr_fexp prec emax M e l) as [mrs1 e1]. cbn [fst] in H1.
  pose proof (round_nearest_even_bounds (shr_m mrs1) (loc_of_shr_record mrs1)) as B.
  set (m2 := round_nearest_even _ _) in *.
  pose proof (shr_fexp_nonneg m2 e1 loc_Exact) as H2.
  destruct (shr_fexp prec emax m2 e1 loc_Exact) as [mrs2 e2]. cbn [fst] in H2.
  destruct (shr_m mrs2) as [ | p | p ]; cbn [has_sign]; try reflexivity.
  - destruct (e2 <=? emax - prec); reflexivity.
  - lia.
Qed.

(** *** Left alignment *)

Lemma iter_xO (m d : positive) : Zpos (Pos.iter xO m d) = Zpos m * 2 ^ Zpos d.
Proof.
  rewrite (Pos.iter_swap_gen _ _ Zpos xO (Z.mul 2)) by reflexivity.
  change (Pos.iter (Z.mul 2) (Zpos m) d) with (Z.shiftl (Zpos m) (Zpos d)).
  apply Z.shiftl_mul_pow2. lia.
Qed.

Lemma shl_align_spec (m : positive) (e e' : Z) :
  Zpos (fst (shl_align m e e')) = Zpos m * 2 ^ (e - snd (shl_align m e e')) /\
  snd (shl_align m e e') = Z.min e e'.
Proof.
  unfold shl_align. destruct (e' - e) as [ | d | d ] eqn:E; cbn [fst snd].
  - rewrite Z.sub_diag. lia.
  - rewrite Z.sub_diag. lia.
  - rewrite iter_xO. replace (e - e') with (Zpos d) by lia. lia.
Qed.

(** [binary_round] first pads the mantissa to at least 53 bits. *)
Lemma binary_round_normal (sx : bool) (m : positive) (e : Z) :
  -1021 <= Zdigits2 (Zpos m) + e ->
  exists M ez,
    0 < M /\ 53 <= Zdigits2 M /\ ez = Z.min e (Zdigits2 (Zpos m) + e - 53) /\
    M = Zpos m * 2 ^ (e - ez) /\
    Zdigits2 M + ez = Zdigits2 (Zpos m) + e /\
    binary_round prec emax sx m e = binary_round_aux prec emax sx M ez loc_Exact.
Proof.
  intros Hn. unfold binary_round.
  change (Zpos (digits2_pos m)) with (Zdigits2 (Zpos m)).
  rewrite fexp_normal by assumption.
  destruct (shl_align_spec m e (Zdigits2 (Zpos m) + e - 53)) as [Em Ee].
  destruct (shl_align m e (Zdigits2 (Zpos m) + e - 53)) as [mz ez].
  cbn [fst snd] in Em, Ee.
  exists (Zpos mz), ez.
  assert (D : Zdigits2 (Zpos mz) = Zdigits2 (Zpos m) + (e - ez)).
  { rewrite Em. apply Zdigits2_shiftl; lia. }
  repeat split; lia.
Qed.

(** *** Positive doubles of a given magnitude *)

Lemma above_weaken (k k' : Z) (x : spec_float) :
  k' <= k -> above k x -> above k' x.
Proof.
  destruct x as [ s | [ | ] | | [ | ] m e ]; cbn [above]; intuition lia.
Qed.

Lemma rounded_above (m2 e1 k : Z) :
  2 ^ 52 <= m2 <= 2 ^ 53 -> k <= 53 + e1 -> above k (rounded false m2 e1).
Proof.
  intros Hm Hk. unfold rounded.
  destruct (Z.ltb_spec m2 (2 ^ 53)).
  - destruct (e1 <=? 971); cbn [above]; [ | exact I ].
    split; [ | assumption ].
    assert (P52 : 0 < 2 ^ 52) by (apply Z.pow_pos_nonneg; lia).
    rewrite Z2Pos.id by lia.
    apply Zdigits2_unique; [ change (53 - 1) with 52 | ]; lia.
  - destruct (e1 + 1 <=? 971); cbn [above]; [ | exact I ].
    split; [ reflexivity | lia ].
Qed.

Lemma binary_round_above (m : positive) (e : Z) :
  -1021 <= Zdigits2 (Zpos m) + e ->
  above (Zdigits2 (Zpos m) + e) (binary_round prec emax false m e).
Proof.
  intros Hn.
  destruct (binary_round_normal false m e Hn)
    as (M & ez & HM & Hd & _ & _ & Hmag & ->).
  destruct (binary_round_aux_normal false M ez loc_Exact HM Hd) as [-> Hm2];
    [ lia | ].
  apply rounded_above; [ assumption | lia ].
Qed.

Lemma nearest_above (n : Z) : 0 < n -> above (Zdigits2 n) (nearest n).
Proof.
  destruct n as [ | p | p ]; try lia. intros _.
  unfold nearest. cbn [binary_normalize].
  pose proof (binary_round_above p 0) as H.
  rewrite Z.add_0_r in H. apply H.
  pose proof (Zdigits2_pos (Zpos p)). lia.
Qed.

Lemma mul_above (mx : positive) (ex : Z) (y : spec_float) (b : Z) :
  Zdigits2 (Zpos mx) = 53 -> above b y -> -1021 <= 52 + ex + b ->
  above (52 + ex + b) (mul (S754_finite false mx ex) y).
Proof.
  intros Dx Hy Hn.
  destruct y as [ s | [ | ] | | [ | ] my ey ]; cbn [above] in Hy; try contradiction;
    [ exact I | ].
  destruct Hy as [Dy Hb].
  unfold mul. cbn [SFmul xorb].
  pose proof (Zdigits2_mul (Zpos mx) (Zpos my) eq_refl eq_refl) as Dm.
  rewrite Dx, Dy in Dm. change (Zpos mx * Zpos my) with (Zpos (mx * my)) in Dm.
  destruct (binary_round_aux_normal false (Zpos (mx * my)) (ex + ey) loc_Exact)
    as [-> Hm2]; try lia.
  apply rounded_above; [ assumption | lia ].
Qed.

Lemma add_above (x : spec_float) (my : positive) (ey k : Z) :
  above k x -> -1021 <= k -> above k (add x (S754_finite false my ey)).
Proof.
  intros Hx Hn.
  destruct x as [ s | [ | ] | | [ | ] mx ex ]; cbn [above] in Hx; try contradiction;
    [ exact I | ].
  destruct Hx as [Dx Hk].
  unfold add. cbn [SFadd cond_Zopp].
  destruct (shl_align_spec mx ex (Z.min ex ey)) as [Ex Ee].
  set (px := fst (shl_align mx ex (Z.min ex ey))) in *.
  set (py := fst (shl_align my ey (Z.min ex ey))) in *.
  change (Zpos px + Zpos py) with (Zpos (px + py)).
  cbn [binary_normalize].
  assert (Dxy : 53 + ex <= Zdigits2 (Zpos (px + py)) + Z.min ex ey).
  { assert (Zdigits2 (Zpos px) <= Zdigits2 (Zpos (px + py)))
      by (apply Zdigits2_le; lia).
    rewrite Ex, Zdigits2_shiftl in H by lia. lia. }
  apply above_weaken with (k := Zdigits2 (Zpos (px + py)) + Z.min ex ey);
    [ lia | apply binary_round_above; lia ].
Qed.

Lemma has_sign_negative (x : spec_float) : has_sign true x -> negative x.
Proof. destruct x as [ s | s | | s m e ]; cbn; intros H; subst; tauto. Qed.

Lemma sub_negative (mx : positive) (ex : Z) (y : spec_float) :
  above (Zdigits2 (Zpos mx) + ex + 1) y ->
  negative (sub (S754_finite false mx ex) y).
Proof.
  intros Hy.
  destruct y as [ s | [ | ] | | [ | ] my ey ]; cbn [above] in Hy; try contradiction;
    [ exact I | ].
  destruct Hy as [Dy Hk].
  unfold sub. cbn [SFsub cond_Zopp].
  destruct (shl_align_spec mx ex (Z.min ex ey)) as [Ex Ee].
  destruct (shl_align_spec my ey (Z.min ex ey)) as [Ey Ee'].
  set (px := fst (shl_align mx ex (Z.min ex ey))) in *.
  set (py := fst (shl_align my ey (Z.min ex ey))) in *.
  rewrite Ee in Ex. rewrite Ee' in Ey.
  replace (Z.min ey (Z.min ex ey)) with (Z.min ex ey) in Ey by lia.
  replace (Z.min ex (Z.min ex ey)) with (Z.min ex ey) in Ex by lia.
  assert (Hlt : Zpos px < Zpos py).
  { pose proof (Zdigits2_bounds (Zpos px) eq_refl) as [_ Bx].
    pose proof (Zdigits2_bounds (Zpos py) eq_refl) as [By _].
    rewrite Ex, Zdigits2_shiftl in Bx by lia.
    rewrite Ey, Zdigits2_shiftl in By by lia.
    rewrite Dy in By. rewrite <- Ex in Bx. rewrite <- Ey in By.
    assert (2 ^ (Zdigits2 (Zpos mx) + (ex - Z.min ex ey))
            <= 2 ^ (53 + (ey - Z.min ex ey) - 1))
      by (apply Z.pow_le_mono_r; lia).
    lia. }
  destruct (Zpos px - Zpos py) as [ | p | p ] eqn:E; try lia.
  cbn [binary_normalize]. apply has_sign_negative.
  unfold binary_round.
  destruct (shl_align p (Z.min ex ey) _) as [mz ez].
  apply binary_round_aux_sign. lia.
Qed.

(** *** Comparing an integer with a double *)

Lemma Zcompare_above (z k : Z) (x : spec_float) :
  above k x -> 1 <= k -> z < 2 ^ (k - 1) -> Zcompare z x = Some Lt.
Proof.
  intros Hx Hk Hz.
  destruct x as [ s | [ | ] | | [ | ] m e ]; cbn [above] in Hx; try contradiction;
    [ reflexivity | ].
  destruct Hx as [Dm He]. cbn [Zcompare signed cond_Zopp]. f_equal.
  pose proof (Zdigits2_bounds (Zpos m) eq_refl) as [Bm _].
  rewrite Dm in Bm. change (53 - 1) with 52 in Bm.
  destruct (Z.leb_spec 0 e) as [He0 | He0]; apply Z.compare_lt_iff.
  - assert (2 ^ (k - 1) <= 2 ^ (52 + e)) by (apply Z.pow_le_mono_r; lia).
    rewrite Z.pow_add_r in H by lia.
    assert (0 < 2 ^ e) by (apply Z.pow_pos_nonneg; lia). nia.
  - assert (P : 0 < 2 ^ (- e)) by (apply Z.pow_pos_nonneg; lia).
    assert (2 ^ (k - 1 + - e) <= 2 ^ 52) by (apply Z.pow_le_mono_r; lia).
    rewrite Z.pow_add_r in H by lia. nia.
Qed.

Lemma Zcompare_negative (z : Z) (x : spec_float) :
  negative x -> 0 < z -> Zcompare z x = Some Gt.
Proof.
  intros Hx Hz.
  destruct x as [ [ | ] | [ | ] | | [ | ] m e ]; cbn [negative] in Hx;
    try contradiction; cbn [Zcompare signed cond_Zopp]; f_equal.
  - apply Z.compare_gt_iff. assumption.
  - destruct (Z.leb_spec 0 e) as [He0 | He0]; apply Z.compare_gt_iff.
    + assert (0 < 2 ^ e) by (apply Z.pow_pos_nonneg; lia). nia.
    + assert (0 < 2 ^ (- e)) by (apply Z.pow_pos_nonneg; lia). nia.
Qed.

(** *** The integers that convert to a double *)

Lemma binary_round_int_finite (sx : bool) (p : positive) :
  Zpos p < huge <->
  (forall s, binary_round prec emax sx p 0 <> S754_infinity s).
Proof.
  pose proof (Zdigits2_pos (Zpos p) eq_refl) as Dpos.
  pose proof (Zdigits2_bounds (Zpos p) eq_refl) as [Blo Bhi].
  destruct (binary_round_normal sx p 0) as (M & ez & HM & Hd & Hez & HMp & Hmag & ->);
    [ lia | ].
  rewrite Z.add_0_r in Hmag.
  destruct (binary_round_aux_normal sx M ez loc_Exact HM Hd) as [E Hm2]; [ lia | ].
  rewrite E. clear E.
  replace (ez + (Zdigits2 M - 53)) with (Zdigits2 (Zpos p) - 53) by lia.
  set (m2 := round_nearest_even _ _) in *.
  assert (P1023 : 2 ^ 1023 < huge) by (vm_compute; reflexivity).
  assert (P1024 : huge < 2 ^ 1024) by (vm_compute; reflexivity).
  destruct (Z_lt_le_dec (Zdigits2 (Zpos p)) 1024) as [Dlt | Dge].
  { (* at most 1023 bits: never an overflow *)
    assert (2 ^ Zdigits2 (Zpos p) <= 2 ^ 1023) by (apply Z.pow_le_mono_r; lia).
    split; [ intros _ s | lia ].
    unfold rounded.
    destruct (m2 <? 2 ^ 53);
      [ destruct (Z.leb_spec (Zdigits2 (Zpos p) - 53) 971)
      | destruct (Z.leb_spec (Zdigits2 (Zpos p) - 53 + 1) 971) ];
      try discriminate; lia. }
  destruct (Z_lt_le_dec 1024 (Zdigits2 (Zpos p))) as [Dgt | Deq].
  { (* more than 1024 bits: always an overflow *)
    assert (2 ^ 1024 <= 2 ^ (Zdigits2 (Zpos p) - 1)) by (apply Z.pow_le_mono_r; lia).
    split; [ lia | intros Hfin; exfalso ].
    apply (Hfin sx). unfold rounded.
    destruct (m2 <? 2 ^ 53);
      [ destruct (Z.leb_spec (Zdigits2 (Zpos p) - 53) 971)
      | destruct (Z.leb_spec (Zdigits2 (Zpos p) - 53 + 1) 971) ];
      try reflexivity; lia. }
  (* exactly 1024 bits: the rounding carry decides *)
  assert (D : Zdigits2 (Zpos p) = 1024) by lia. clear Dge Deq.
  assert (Hez0 : ez = 0) by lia. clear Hez. subst ez.
  assert (HM0 : M = Zpos p) by (rewrite HMp; change (0 - 0) with 0; lia).
  clear HMp. subst M.
  assert (Em2 : m2 = round_nearest_even (Zpos p / 2 ^ 971)
            (loc_of_shr_record (fst (shr_fexp prec emax (Zpos p) 0 loc_Exact))))
    by (unfold m2; rewrite D; reflexivity).
  clearbody m2. rewrite D in Blo, Bhi |- *.
  change (1024 - 53) with 971. change (1024 - 1) with 1023 in Blo.
  pose proof (shr_fexp_round_bit (Zpos p) 0 eq_refl) as Hr.
  rewrite D in Hr. change (1024 - 54) with 970 in Hr.
  specialize (Hr ltac:(lia) ltac:(lia)).
  set (q := Zpos p / 2 ^ 970) in *.
  assert (P970 : 0 < 2 ^ 970) by (apply Z.pow_pos_nonneg; lia).
  assert (Hm1 : Zpos p / 2 ^ 971 = q / 2).
  { unfold q. rewrite Z.div_div by lia. reflexivity. }
  assert (Hq : q < 2 ^ 54).
  { apply Z.div_lt_upper_bound; [ assumption | ].
    rewrite <- Z.pow_add_r by lia. exact Bhi. }
  assert (Hq0 : 0 <= q) by (apply Z.div_pos; lia).
  assert (Hodd : q = 2 * (q / 2) + (if Z.odd q then 1 else 0))
    by (rewrite <- Z.div2_div; apply Z.div2_odd).
  unfold rounded.
  change (971 <=? 971) with true. change (971 + 1 <=? 971) with false.
  destruct (Z_lt_le_dec (Zpos p) huge) as [Hp | Hp].
  - (* below the threshold the mantissa stays below 2 ^ 53 *)
    split; [ intros _ s | intros _; assumption ].
    assert (q < 2 ^ 54 - 1).
    { apply Z.div_lt_upper_bound; [ assumption | ].
      replace (2 ^ 970 * (2 ^ 54 - 1)) with huge by (vm_compute; reflexivity).
      assumption. }
    assert (m2 < 2 ^ 53).
    { destruct (shr_r (fst (shr_fexp prec emax (Zpos p) 0 loc_Exact))) eqn:R.
      - rewrite <- Hr in Hodd.
        pose proof (round_nearest_even_bounds (Zpos p / 2 ^ 971)
          (loc_of_shr_record (fst (shr_fexp prec emax (Zpos p) 0 loc_Exact)))) as B.
        rewrite <- Em2, Hm1 in B. lia.
      - rewrite Em2, round_r_false, Hm1 by assumption.
        rewrite <- Hr in Hodd. lia. }
    destruct (Z.ltb_spec m2 (2 ^ 53)); [ discriminate | lia ].
  - (* at the threshold the mantissa is 2 ^ 53 - 1 and rounds up *)
    split; [ lia | intros Hfin; exfalso ].
    assert (2 ^ 54 - 1 <= q).
    { apply Z.div_le_lower_bound; [ assumption | ].
      replace (2 ^ 970 * (2 ^ 54 - 1)) with huge by (vm_compute; reflexivity).
      assumption. }
    assert (Eq : q = 2 ^ 54 - 1) by lia.
    assert (Oq : Z.odd q = true) by (rewrite Eq; reflexivity).
    assert (Em1 : Zpos p / 2 ^ 971 = 2 ^ 53 - 1)
      by (rewrite Hm1, Eq; reflexivity).
    assert (m2 = 2 ^ 53).
    { rewrite Em2, round_r_true_odd.
      - rewrite Em1. reflexivity.
      - rewrite Hr. exact Oq.
      - rewrite Em1. reflexivity. }
    apply (Hfin sx).
    destruct (Z.ltb_spec m2 (2 ^ 53)); [ lia | reflexivity ].
Qed.

(** [float(n)] succeeds exactly on the integers below [huge] in magnitude. *)
Lemma of_int_ok_iff (n : Z) :
  Z.abs n < huge <-> of_int n = Ok (nearest n).
Proof.
  unfold of_int, nearest.
  destruct n as [ | p | p ]; cbn [binary_normalize Z.abs].
  - split; [ reflexivity | intros _; vm_compute; reflexivity ].
  - rewrite (binary_round_int_finite false p). split.
    + intros H. destruct (binary_round prec emax false p 0) eqn:E; try reflexivity.
      exfalso. exact (H s eq_refl).
    + intros H s E. rewrite E in H. discriminate.
  - rewrite (binary_round_int_finite true p). split.
    + intros H. destruct (binary_round prec emax true p 0) eqn:E; try reflexivity.
      exfalso. exact (H s eq_refl).
    + intros H s E. rewrite E in H. discriminate.
Qed.

Lemma of_int_overflow (n : Z) :
  huge <= Z.abs n -> of_int n = Raise OverflowError.
Proof.
  intros H. pose proof (of_int_ok_iff n) as [_ I].
  unfold of_int in *. destruct (nearest n); try reflexivity;
    specialize (I eq_refl); lia.
Qed.

End FloatFacts.

(** * The fan curve *)

Lemma Zrange_forallb (P : Z -> bool) (lo : Z) (n : nat) :
  forallb P (Zrange lo n) = true ->
  forall t, lo <= t < lo + Z.of_nat n -> P t = true.
Proof.
  intros H t Ht. rewrite forallb_forall in H. apply H.
  unfold Zrange. apply in_map_iff. exists (Z.to_nat (t - lo)). split.
  - lia.
  - apply in_seq. lia.
Qed.

Lemma returns_true (r : result Z) (z : Z) : returns r z = true -> r = Ok z.
Proof.
  destruct r as [a | e]; cbn [returns]; [ | discriminate ].
  intros H. apply Z.eqb_eq in H. congruence.
Qed.

Lemma SCALE_eq : SCALE = S754_finite false 5524415542907808 (-56).
Proof. vm_compute. reflexivity. Qed.

Lemma of_int_S_MIN : PyFloat.of_int S_MIN = Ok (S754_finite false 8444249301319680 (-48)).
Proof. vm_compute. reflexivity. Qed.

Lemma of_int_S_MAX : PyFloat.of_int S_MAX = Ok (S754_finite false 6966505673588736 (-46)).
Proof. vm_compute. reflexivity. Qed.

Section Tails.
Import PyFloat FloatShape FloatFacts.

Variable n : Z.
Hypothesis n_large : 2 ^ 11 <= n.
Hypothesis n_converts : n < huge.

Lemma scaled_above :
  exists p, py_mul (PyFloat SCALE) (PyInt n) = Ok (PyFloat p) /\ above 8 p.
Proof.
  exists (mul SCALE (nearest n)). split.
  - unfold py_mul, py_arith. cbn [py_float rbind].
    assert (E : of_int n = Ok (nearest n)) by (apply of_int_ok_iff; lia).
    rewrite E. reflexivity.
  - rewrite SCALE_eq.
    apply (mul_above 5524415542907808 (-56) (nearest n) 12); [ reflexivity | | lia ].
    apply above_weaken with (k := Zdigits2 n).
    + apply Zdigits2_lower; [ lia | exact n_large ].
    + apply nearest_above. lia.
Qed.

(** Far above [T_MIN] the lower bound is [S_MAX]. *)
Lemma hot_tail :
  (a <- py_mul (PyFloat SCALE) (PyInt n) ;;
   b <- py_add a (PyInt S_MIN) ;;
   py_int (py_min b (PyInt S_MAX)))%result = Ok S_MAX.
Proof.
  destruct scaled_above as (p & -> & Hp). cbn [rbind].
  unfold py_add, py_arith. cbn [py_float rbind].
  rewrite of_int_S_MIN. cbn [rbind].
  pose proof (add_above p 8444249301319680 (-48) 8 Hp ltac:(lia)) as Hq.
  unfold py_min, py_lt.
  rewrite (Zcompare_above S_MAX 8 _ Hq) by (try reflexivity; lia).
  reflexivity.
Qed.

(** Far below [T_MAX] the upper bound is [S_MIN]. *)
Lemma cold_tail :
  (a <- py_mul (PyFloat SCALE) (PyInt n) ;;
   b <- py_sub (PyInt S_MAX) a ;;
   py_int (py_max b (PyInt S_MIN)))%result = Ok S_MIN.
Proof.
  destruct scaled_above as (p & -> & Hp). cbn [rbind].
  unfold py_sub, py_arith. cbn [py_float rbind].
  rewrite of_int_S_MAX. cbn [rbind].
  pose proof (sub_negative 6966505673588736 (-46) p Hp) as Hq.
  unfold py_max, py_lt.
  rewrite (Zcompare_negative S_MIN _ Hq) by reflexivity.
  reflexivity.
Qed.

End Tails.

Lemma min_speed_cold (t : Z) : t < T_MIN -> min_speed t = Ok S_MIN.
Proof.
  intros H. unfold min_speed.
  destruct (Z.ltb_spec t T_MIN); [ reflexivity | lia ].
Qed.

Lemma max_speed_hot (t : Z) : T_MAX < t -> max_speed t = Ok S_MAX.
Proof.
  intros H. unfold max_speed.
  destruct (Z.gtb_spec t T_MAX); [ reflexivity | lia ].
Qed.

Lemma min_speed_window (t : Z) : 50 <= t < 96 -> min_speed t = Ok (min_curve t).
Proof.
  intros H. apply returns_true.
  apply (Zrange_forallb (fun t => returns (min_speed t) (min_curve t)) 50 46);
    [ vm_compute; reflexivity | lia ].
Qed.

Lemma max_speed_window (t : Z) : 34 < t <= 80 -> max_speed t = Ok (max_curve t).
Proof.
  intros H. apply returns_true.
  apply (Zrange_forallb (fun t => returns (max_speed t) (max_curve t)) 35 46);
    [ vm_compute; reflexivity | lia ].
Qed.

Lemma min_curve_hot (t : Z) : 80 <= t -> min_curve t = S_MAX.
Proof.
  intros H. unfold min_curve, T_MIN, T_MAX, S_MIN, S_MAX in *.
  destruct (Z.ltb_spec t 50); [ lia | ].
  assert (69 <= (99 - 30) * (t - 50) ^ 2 / (80 - 50) ^ 2)
    by (apply Z.div_le_lower_bound; nia).
  lia.
Qed.

Lemma max_curve_cold (t : Z) : t <= 50 -> max_curve t = S_MIN.
Proof.
  intros H. unfold max_curve, T_MIN, T_MAX, S_MIN, S_MAX in *.
  destruct (Z.gtb_spec t 80); [ lia | ].
  assert (- ((99 - 30) * (t - 80) ^ 2) / (80 - 50) ^ 2 <= - 69); [ | lia ].
  assert (- ((99 - 30) * (t - 80) ^ 2) / (80 - 50) ^ 2 < - 69 + 1); [ | lia ].
  apply Z.div_lt_upper_bound; nia.
Qed.

(** The code computes the integer curves wherever it does not overflow. *)
Lemma min_speed_curve (t : Z) :
  (T_MIN <= t -> (t - T_MIN) ^ 2 < PyFloat.huge) -> min_speed t = Ok (min_curve t).
Proof.
  intros H.
  destruct (Z_lt_le_dec t 50) as [C | C].
  - rewrite min_speed_cold by exact C.
    unfold min_curve. destruct (Z.ltb_spec t T_MIN); [ reflexivity | unfold T_MIN in *; lia ].
  - destruct (Z_lt_le_dec t 96) as [W | W].
    + apply min_speed_window. lia.
    + rewrite min_curve_hot by (unfold T_MAX; lia).
      unfold min_speed. destruct (Z.ltb_spec t T_MIN); [ unfold T_MIN in *; lia | ].
      apply hot_tail; [ unfold T_MIN; nia | apply H; assumption ].
Qed.

Lemma max_speed_curve (t : Z) :
  (t <= T_MAX -> (t - T_MAX) ^ 2 < PyFloat.huge) -> max_speed t = Ok (max_curve t).
Proof.
  intros H.
  destruct (Z_lt_le_dec 80 t) as [C | C].
  - rewrite max_speed_hot by exact C.
    unfold max_curve. destruct (Z.gtb_spec t T_MAX); [ reflexivity | unfold T_MAX in *; lia ].
  - destruct (Z_lt_le_dec 34 t) as [W | W].
    + apply max_speed_window. lia.
    + rewrite max_curve_cold by (unfold T_MIN; lia).
      unfold max_speed. destruct (Z.gtb_spec t T_MAX); [ unfold T_MAX in *; lia | ].
      apply cold_tail; [ unfold T_MAX; nia | apply H; assumption ].
Qed.

(** Beyond that range the conversion raises. *)
Lemma min_speed_overflow (t : Z) :
  T_MIN <= t -> PyFloat.huge <= (t - T_MIN) ^ 2 -> min_speed t = Raise OverflowError.
Proof.
  intros Ht H. unfold min_speed.
  destruct (Z.ltb_spec t T_MIN); [ lia | ].
  unfold py_mul, py_arith. cbn [py_float rbind].
  rewrite FloatFacts.of_int_overflow by lia. reflexivity.
Qed.

Lemma max_speed_overflow (t : Z) :
  t <= T_MAX -> PyFloat.huge <= (t - T_MAX) ^ 2 -> max_speed t = Raise OverflowError.
Proof.
  intros Ht H. unfold max_speed.
  destruct (Z.gtb_spec t T_MAX); [ lia | ].
  unfold py_mul, py_arith. cbn [py_float rbind].
  rewrite FloatFacts.of_int_overflow by lia. reflexivity.
Qed.

(** ** The rational formula and the integer curves agree *)

Lemma SCALE_spec_eq : SCALE_spec = 69 # 900.
Proof. reflexivity. Qed.

Lemma scaled_square (d : Z) :
  (SCALE_spec * inject_Z d ^ 2 == (69 * d ^ 2) # 900)%Q.
Proof.
  rewrite SCALE_spec_eq.
  unfold Qeq, Qpower, Qpower_positive, pow_pos, Qmult, inject_Z. cbn [Qnum Qden].
  lia.
Qed.

Lemma lower_formula (d : Z) :
  (SCALE_spec * inject_Z d ^ 2 + inject_Z S_MIN == (69 * d ^ 2 + 27000) # 900)%Q.
Proof.
  rewrite scaled_square. unfold Qeq, Qplus, inject_Z, S_MIN. cbn [Qnum Qden]. lia.
Qed.

Lemma upper_formula (d : Z) :
  (inject_Z S_MAX - SCALE_spec * inject_Z d ^ 2 == (89100 - 69 * d ^ 2) # 900)%Q.
Proof.
  rewrite scaled_square. unfold Qeq, Qminus, Qplus, Qopp, inject_Z, S_MAX. cbn [Qnum Qden]. lia.
Qed.

Lemma int_spec_comp (p q : Q) : (p == q)%Q -> int_spec p = int_spec q.
Proof.
  intros H. unfold int_spec.
  rewrite (Qfloor_comp p q H), (Qceiling_comp p q H).
  destruct (Qle_bool 0 p) eqn:A, (Qle_bool 0 q) eqn:B; try reflexivity; exfalso.
  - apply Qle_bool_iff in A. rewrite H in A. apply Qle_bool_iff in A. congruence.
  - apply Qle_bool_iff in B. rewrite <- H in B. apply Qle_bool_iff in B. congruence.
Qed.

Lemma int_spec_nonneg (a : Z) (b : positive) : 0 <= a -> int_spec (a # b) = a / Zpos b.
Proof.
  intros H. unfold int_spec.
  assert (Qle_bool 0 (a # b) = true).
  { apply Qle_bool_iff. unfold Qle. cbn [Qnum Qden]. lia. }
  rewrite H0. reflexivity.
Qed.
Lemma min_speed_spec_eq (t : Z) :
  min_speed_spec t = Z.min (69 * (t - 50) ^ 2 / 900 + 30) 99.
Proof.
  unfold min_speed_spec, T_MIN. set (d := t - 50).
  assert (Hd : 0 <= d ^ 2) by nia.
  assert (E : 69 * d ^ 2 / 900 + 30 = (69 * d ^ 2 + 27000) / 900).
  { replace (69 * d ^ 2 + 27000) with (69 * d ^ 2 + 30 * 900) by lia.
    rewrite Z.div_add by lia. reflexivity. }
  destruct (Z_le_gt_dec (69 * d ^ 2 + 27000) (99 * 900)) as [C | C].
  - rewrite (int_spec_comp _ ((69 * d ^ 2 + 27000) # 900)).
    + rewrite int_spec_nonneg by lia. rewrite E.
      assert ((69 * d ^ 2 + 27000) / 900 <= 99) by (apply Z.div_le_upper_bound; lia).
      lia.
    + rewrite Q.min_l; [ apply lower_formula | ].
      rewrite lower_formula. unfold Qle, inject_Z, S_MAX. cbn [Qnum Qden]. lia.
  - rewrite (int_spec_comp _ (99 # 1)).
    + assert (99 <= (69 * d ^ 2 + 27000) / 900) by (apply Z.div_le_lower_bound; lia).
      rewrite E. rewrite Z.min_r by lia. reflexivity.
    + rewrite Q.min_r; [ reflexivity | ].
      rewrite lower_formula. unfold Qle, inject_Z, S_MAX. cbn [Qnum Qden]. lia.
Qed.

Lemma max_speed_spec_eq (t : Z) :
  max_speed_spec t = Z.max (99 + (- (69 * (t - 80) ^ 2)) / 900) 30.
Proof.
  unfold max_speed_spec, T_MAX. set (d := t - 80).
  assert (Hd : 0 <= d ^ 2) by nia.
  assert (E : 99 + (- (69 * d ^ 2)) / 900 = (89100 - 69 * d ^ 2) / 900).
  { replace (89100 - 69 * d ^ 2) with (- (69 * d ^ 2) + 99 * 900) by lia.
    rewrite Z.div_add by lia. lia. }
  destruct (Z_le_gt_dec (30 * 900) (89100 - 69 * d ^ 2)) as [C | C].
  - rewrite (int_spec_comp _ ((89100 - 69 * d ^ 2) # 900)).
    + rewrite int_spec_nonneg by lia. rewrite E.
      assert (30 <= (89100 - 69 * d ^ 2) / 900) by (apply Z.div_le_lower_bound; lia).
      lia.
    + rewrite Q.max_l; [ apply upper_formula | ].
      rewrite upper_formula. unfold Qle, inject_Z, S_MIN. cbn [Qnum Qden]. lia.
  - rewrite (int_spec_comp _ (30 # 1)).
    + assert ((89100 - 69 * d ^ 2) / 900 < 30) by (apply Z.div_lt_upper_bound; lia).
      rewrite E. rewrite Z.max_r by lia. reflexivity.
    + rewrite Q.max_r; [ reflexivity | ].
      rewrite upper_formula. unfold Qle, inject_Z, S_MIN. cbn [Qnum Qden]. lia.
Qed.
(** ** Shape of the integer curves *)

Lemma min_curve_bounds (t : Z) : S_MIN <= min_curve t <= S_MAX.
Proof.
  unfold min_curve, T_MIN, T_MAX, S_MIN, S_MAX.
  destruct (t <? 50); [ lia | ].
  assert (0 <= (99 - 30) * (t - 50) ^ 2 / (80 - 50) ^ 2)
    by (apply Z.div_pos; nia).
  lia.
Qed.

Lemma max_curve_bounds (t : Z) : S_MIN <= max_curve t <= S_MAX.
Proof.
  unfold max_curve, T_MIN, T_MAX, S_MIN, S_MAX.
  destruct (t >? 80); [ lia | ].
  assert (- ((99 - 30) * (t - 80) ^ 2) / (80 - 50) ^ 2 <= 0)
    by (apply Z.div_le_upper_bound; nia).
  lia.
Qed.

Lemma curve_band (t : Z) : min_curve t <= max_curve t.
Proof.
  destruct (Z_lt_le_dec t 50) as [C | C].
  - pose proof (max_curve_bounds t). unfold min_curve, T_MIN.
    destruct (Z.ltb_spec t 50); lia.
  - destruct (Z_lt_le_dec 80 t) as [H | H].
    + pose proof (min_curve_bounds t). unfold max_curve, T_MAX.
      destruct (Z.gtb_spec t 80); lia.
    + apply Z.leb_le.
      apply (Zrange_forallb (fun t => min_curve t <=? max_curve t) 50 31);
        [ vm_compute; reflexivity | lia ].
Qed.

Lemma min_curve_mono (t1 t2 : Z) : t1 <= t2 -> min_curve t1 <= min_curve t2.
Proof.
  intros H. unfold min_curve, T_MIN, T_MAX, S_MIN, S_MAX.
  destruct (Z.ltb_spec t1 50), (Z.ltb_spec t2 50); try lia.
  - assert (0 <= (99 - 30) * (t2 - 50) ^ 2 / (80 - 50) ^ 2)
      by (apply Z.div_pos; nia).
    lia.
  - apply Z.min_le_compat_r, Z.add_le_mono_r, Z.div_le_mono; nia.
Qed.

Lemma max_curve_mono (t1 t2 : Z) : t1 <= t2 -> max_curve t1 <= max_curve t2.
Proof.
  intros H. unfold max_curve, T_MIN, T_MAX, S_MIN, S_MAX.
  destruct (Z.gtb_spec t1 80), (Z.gtb_spec t2 80); try lia.
  - assert (- ((99 - 30) * (t1 - 80) ^ 2) / (80 - 50) ^ 2 <= 0)
      by (apply Z.div_le_upper_bound; nia).
    lia.
  - apply Z.max_le_compat_r, Z.add_le_mono_l, Z.div_le_mono; nia.
Qed.

Lemma curves_agree_at_ends :
  min_curve T_MIN = S_MIN /\ max_curve T_MIN = S_MIN /\
  min_curve T_MAX = S_MAX /\ max_curve T_MAX = S_MAX.
Proof. repeat split; reflexivity. Qed.

(** What [target_speed] returns wherever both bounds are computed. *)
Lemma target_speed_curve (s t : Z) :
  no_overflow t ->
  min_speed t = Ok (min_curve t) /\ max_speed t = Ok (max_curve t) /\
  target_speed s t =
    Ok (Z.min (Z.max s (min_curve t)) (max_curve t), min_curve t, max_curve t).
Proof.
  intros [Hlo Hhi].
  pose proof (min_speed_curve t Hlo) as El.
  pose proof (max_speed_curve t Hhi) as Eu.
  unfold target_speed. rewrite El, Eu. cbn [rbind]. auto.
Qed.

(** [target_speed] returns exactly at the temperatures of [no_overflow]. *)
Lemma target_speed_returns_iff (s t : Z) :
  (exists v, target_speed s t = Ok v) <-> no_overflow t.
Proof.
  split.
  - intros [v Hv]. unfold target_speed in Hv.
    split; intros Ht.
    + destruct (Z_lt_le_dec ((t - T_MIN) ^ 2) PyFloat.huge) as [ | H ]; [ assumption | ].
      rewrite (min_speed_overflow t Ht H) in Hv. discriminate.
    + destruct (Z_lt_le_dec ((t - T_MAX) ^ 2) PyFloat.huge) as [ | H ]; [ assumption | ].
      rewrite (max_speed_overflow t Ht H) in Hv.
      destruct (min_speed t); discriminate.
  - intros H. destruct (target_speed_curve s t H) as (_ & _ & E). eexists. exact E.
Qed.

(** These temperatures form an interval around the band of the curve, of
    half-width about 1.3e154. *)
Lemma no_overflow_interval (t : Z) :
  no_overflow t <->
  T_MAX - Z.sqrt (PyFloat.huge - 1) <= t <= T_MIN + Z.sqrt (PyFloat.huge - 1).
Proof.
  assert (Hh : 0 <= PyFloat.huge - 1) by (vm_compute; discriminate).
  pose proof (Z.sqrt_spec (PyFloat.huge - 1) Hh) as [Lo Hi].
  pose proof (Z.sqrt_nonneg (PyFloat.huge - 1)) as Hr.
  unfold no_overflow, T_MIN, T_MAX, Z.succ in *.
  set (h := PyFloat.huge) in *. set (r := Z.sqrt (h - 1)) in *.
  split.
  - intros [A B]. split.
    + destruct (Z_lt_le_dec t (80 - r)) as [C | C]; [ exfalso | lia ].
      assert (B' := B ltac:(lia)). nia.
    + destruct (Z_lt_le_dec (50 + r) t) as [C | C]; [ exfalso | lia ].
      assert (A' := A ltac:(lia)). nia.
  - intros [A B]. split; intros C; nia.
Qed.

Lemma no_overflow_window (t : Z) : - 2 ^ 511 <= t <= 2 ^ 511 -> no_overflow t.
Proof.
  intros H. unfold no_overflow, T_MIN, T_MAX, PyFloat.huge.
  assert (P : 2 ^ 1024 - 2 ^ 970 = 2 ^ 511 * 2 ^ 511 * 4 - 2 ^ 970)
    by (vm_compute; reflexivity).
  assert (Q : 2 ^ 970 + 200 * 2 ^ 511 + 6400 < 2 ^ 511 * 2 ^ 511)
    by (vm_compute; reflexivity).
  rewrite P. set (a := 2 ^ 511) in *. set (b := 2 ^ 970) in *.
  split; intros; nia.
Qed.

Lemma min_speed_cases (t : Z) :
  min_speed t = Raise OverflowError \/ min_speed t = Ok (min_curve t).
Proof.
  destruct (Z_lt_le_dec t T_MIN) as [C | C].
  - right. apply min_speed_curve. lia.
  - destruct (Z_lt_le_dec ((t - T_MIN) ^ 2) PyFloat.huge) as [D | D].
    + right. apply min_speed_curve. intros _. exact D.
    + left. apply min_speed_overflow; assumption.
Qed.

Lemma max_speed_cases (t : Z) :
  max_speed t = Raise OverflowError \/ max_speed t = Ok (max_curve t).
Proof.
  destruct (Z_lt_le_dec T_MAX t) as [C | C].
  - right. apply max_speed_curve. lia.
  - destruct (Z_lt_le_dec ((t - T_MAX) ^ 2) PyFloat.huge) as [D | D].
    + right. apply max_speed_curve. intros _. exact D.
    + left. apply max_speed_overflow; assumption.
Qed.

(** [target_speed] fails by overflow only, and only outside [no_overflow]. *)
Lemma target_speed_raise (s t : Z) (e : exn) :
  target_speed s t = Raise e -> e = OverflowError /\ ~ no_overflow t.
Proof.
  intros H. split.
  - unfold target_speed in H.
    destruct (min_speed_cases t) as [E | E]; rewrite E in H; cbn [rbind] in H;
      [ congruence | ].
    destruct (max_speed_cases t) as [E' | E']; rewrite E' in H; cbn [rbind] in H;
      congruence.
  - intros N. destruct (target_speed_curve s t N) as (_ & _ & E). congruence.
Qed.

(** The target of [target_speed] is a speed of the curve. *)
Lemma target_speed_in_range (cur t s l u : Z) :
  target_speed cur t = Ok (s, l, u) ->
  l = min_curve t /\ u = max_curve t /\ s = Z.min (Z.max cur l) u /\
  S_MIN <= l <= u /\ u <= S_MAX /\ no_overflow t.
Proof.
  intros H.
  assert (N : no_overflow t) by (apply (target_speed_returns_iff cur t); eauto).
  destruct (target_speed_curve cur t N) as (_ & _ & E).
  rewrite E in H. injection H as <- <- <-.
  pose proof (min_curve_bounds t). pose proof (max_curve_bounds t).
  pose proof (curve_band t). repeat split; try lia. all: apply N.
Qed.

(** ** Properties of the control law *)

(** C1, on the temperatures whose squares convert to a double.  For every
    current speed [s] and every such temperature [t], [target_speed s t] returns the speed
    [s] clamped into the band from [min_speed t] to [max_speed t], and the
    returned speed lies between [S_MIN = 30] and [S_MAX = 99]. *)
Theorem target_speed_clamped (s t : Z) :
  no_overflow t ->
  exists r l u,
    target_speed s t = Ok (r, l, u) /\
    min_speed t = Ok l /\ max_speed t = Ok u /\
    l <= r <= u /\
    (s < l -> r = l) /\ (l <= s <= u -> r = s) /\ (u < s -> r = u) /\
    S_MIN <= r <= S_MAX.
Proof.
  intros H.
  destruct (target_speed_curve s t H) as (El & Eu & Et).
  pose proof (curve_band t). pose proof (min_curve_bounds t).
  pose proof (max_curve_bounds t).
  exists (Z.min (Z.max s (min_curve t)) (max_curve t)), (min_curve t), (max_curve t).
  repeat split; try assumption; lia.
Qed.

Lemma target_speed_clamped_witness :
  no_overflow 65 /\
  exists r l u,
    target_speed 0 65 = Ok (r, l, u) /\
    min_speed 65 = Ok l /\ max_speed 65 = Ok u /\
    l <= r <= u /\
    (0 < l -> r = l) /\ (l <= 0 <= u -> r = 0) /\ (u < 0 -> r = u) /\
    S_MIN <= r <= S_MAX.
Proof.
  assert (H : no_overflow 65) by (split; intros _; vm_compute; reflexivity).
  split; [ exact H | exact (target_speed_clamped 0 65 H) ].
Defined.

(** C1 does not extend to every integer temperature: at [2 ^ 512] the
    square does not fit a double and [target_speed] raises. *)
Lemma target_speed_overflow : target_speed 0 (2 ^ 512) = Raise OverflowError.
Proof. vm_compute. reflexivity. Qed.

(** C2.  Hysteresis: a speed already inside the band from [min_speed t] to
    [max_speed t] is returned unchanged. *)
Theorem target_speed_hysteresis (s t l u : Z) :
  min_speed t = Ok l -> max_speed t = Ok u -> l <= s <= u ->
  target_speed s t = Ok (s, l, u).
Proof.
  intros El Eu Hs. unfold target_speed. rewrite El, Eu. cbn [rbind].
  rewrite Z.max_l, Z.min_l by lia. reflexivity.
Qed.

Lemma target_speed_hysteresis_witness :
  min_speed 65 = Ok 47 /\ max_speed 65 = Ok 81 /\ 47 <= 60 <= 81 /\
  target_speed 60 65 = Ok (60, 47, 81).
Proof.
  assert (El : min_speed 65 = Ok 47) by (vm_compute; reflexivity).
  assert (Eu : max_speed 65 = Ok 81) by (vm_compute; reflexivity).
  assert (Hs : 47 <= 60 <= 81) by lia.
  split; [ exact El | split; [ exact Eu | split; [ exact Hs | ] ] ].
  exact (target_speed_hysteresis 60 65 47 81 El Eu Hs).
Defined.

(** C3, on the temperatures whose squares convert to a double.  The curve
    is the clamped quadratic over the exact numbers: below [T_MIN] the lower
    bound is [S_MIN]; from [T_MIN] on it is the truncation of
    [min (SCALE * (t - T_MIN)^2 + S_MIN) S_MAX] with the exact
    [SCALE = 69/900], as long as the square converts to a double; above
    [T_MAX] the upper bound is [S_MAX]; up to [T_MAX] it is the truncation of
    [max (S_MAX - SCALE * (t - T_MAX)^2) S_MIN], again as long as the square
    converts. *)
Theorem curve_clamped_quadratic (t : Z) :
  (t < T_MIN -> min_speed t = Ok S_MIN) /\
  (T_MIN <= t -> (t - T_MIN) ^ 2 < PyFloat.huge ->
   min_speed t = Ok (min_speed_spec t)) /\
  (T_MAX < t -> max_speed t = Ok S_MAX) /\
  (t <= T_MAX -> (t - T_MAX) ^ 2 < PyFloat.huge ->
   max_speed t = Ok (max_speed_spec t)).
Proof.
  repeat split.
  - apply min_speed_cold.
  - intros Ht H. rewrite min_speed_curve by (intros _; exact H).
    rewrite min_speed_spec_eq. unfold min_curve.
    destruct (Z.ltb_spec t T_MIN); [ lia | reflexivity ].
  - apply max_speed_hot.
  - intros Ht H. rewrite max_speed_curve by (intros _; exact H).
    rewrite max_speed_spec_eq. unfold max_curve.
    destruct (Z.gtb_spec t T_MAX); [ lia | reflexivity ].
Qed.

Lemma curve_clamped_quadratic_witness :
  min_speed 40 = Ok S_MIN /\
  min_speed 65 = Ok (min_speed_spec 65) /\
  max_speed 90 = Ok S_MAX /\
  max_speed 65 = Ok (max_speed_spec 65).
Proof.
  split; [ | split; [ | split ] ].
  - destruct (curve_clamped_quadratic 40) as (H & _). apply H. reflexivity.
  - destruct (curve_clamped_quadratic 65) as (_ & H & _).
    apply H; [ discriminate | reflexivity ].
  - destruct (curve_clamped_quadratic 90) as (_ & _ & H & _). apply H. reflexivity.
  - destruct (curve_clamped_quadratic 65) as (_ & _ & _ & H).
    apply H; [ discriminate | reflexivity ].
Defined.

(** C3 does not extend to every temperature: at [t = 2 ^ 600 >= T_MIN] the
    formula is worth 99 but [min_speed] raises. *)
Lemma min_speed_formula_overflow :
  T_MIN <= 2 ^ 600 /\
  min_speed_spec (2 ^ 600) = 99 /\
  min_speed (2 ^ 600) = Raise OverflowError.
Proof. repeat split; vm_compute; try reflexivity; discriminate. Qed.

(** C4, for the band.  The band returned by [target_speed] does not depend
    on the current speed, and two current speeds on the same side of the band
    get the same target; inside the band the target is the current speed
    itself, so it differs whenever the current speeds differ. *)
Theorem target_speed_band_stateless (t s1 s2 : Z) :
  no_overflow t ->
  exists r1 r2 l u,
    target_speed s1 t = Ok (r1, l, u) /\
    target_speed s2 t = Ok (r2, l, u) /\
    (s1 <= l -> s2 <= l -> r1 = r2) /\
    (u <= s1 -> u <= s2 -> r1 = r2) /\
    (l <= s1 <= u -> l <= s2 <= u -> (r1 = r2 <-> s1 = s2)).
Proof.
  intros H.
  destruct (target_speed_curve s1 t H) as (_ & _ & E1).
  destruct (target_speed_curve s2 t H) as (_ & _ & E2).
  pose proof (curve_band t).
  exists (Z.min (Z.max s1 (min_curve t)) (max_curve t)),
         (Z.min (Z.max s2 (min_curve t)) (max_curve t)),
         (min_curve t), (max_curve t).
  repeat split; try assumption; lia.
Qed.

Lemma target_speed_band_stateless_witness :
  no_overflow 65 /\
  exists r1 r2 l u,
    target_speed 0 65 = Ok (r1, l, u) /\
    target_speed 10 65 = Ok (r2, l, u) /\
    (0 <= l -> 10 <= l -> r1 = r2) /\
    (u <= 0 -> u <= 10 -> r1 = r2) /\
    (l <= 0 <= u -> l <= 10 <= u -> (r1 = r2 <-> 0 = 10)).
Proof.
  assert (H : no_overflow 65) by (split; intros _; vm_compute; reflexivity).
  split; [ exact H | exact (target_speed_band_stateless 65 0 10 H) ].
Defined.

(** C4 does not hold for the speed itself: at 65 degrees the current speeds
    50 and 60 get different targets. *)
Lemma target_speed_depends_on_speed :
  target_speed 50 65 = Ok (50, 47, 81) /\
  target_speed 60 65 = Ok (60, 47, 81) /\
  50 <> 60.
Proof. repeat split; try (vm_compute; reflexivity). discriminate. Qed.

(** C9, on the temperatures whose squares convert to a double.  For every
    such temperature the band is not empty, so the clamp lands inside it; at
    [T_MIN = 50] both bounds are 30 and at [T_MAX = 80] both are 99. *)
Theorem band_nonempty (t : Z) :
  no_overflow t ->
  exists l u,
    min_speed t = Ok l /\ max_speed t = Ok u /\ l <= u /\
    (forall s, l <= Z.min (Z.max s l) u <= u) /\
    (t = T_MIN -> l = S_MIN /\ u = S_MIN) /\
    (t = T_MAX -> l = S_MAX /\ u = S_MAX).
Proof.
  intros H.
  destruct (target_speed_curve 0 t H) as (El & Eu & _).
  pose proof (curve_band t).
  destruct curves_agree_at_ends as (A & B & C & D).
  exists (min_curve t), (max_curve t).
  split; [ exact El | split; [ exact Eu | split; [ assumption | ] ] ].
  split; [ intros s; lia | ].
  split; intros ->; split; assumption.
Qed.

Lemma band_nonempty_witness :
  (no_overflow 50 /\
   exists l u,
     min_speed 50 = Ok l /\ max_speed 50 = Ok u /\ l <= u /\
     (forall s, l <= Z.min (Z.max s l) u <= u) /\
     (50 = T_MIN -> l = S_MIN /\ u = S_MIN) /\
     (50 = T_MAX -> l = S_MAX /\ u = S_MAX)) /\
  (no_overflow 80 /\
   exists l u,
     min_speed 80 = Ok l /\ max_speed 80 = Ok u /\ l <= u /\
     (forall s, l <= Z.min (Z.max s l) u <= u) /\
     (80 = T_MIN -> l = S_MIN /\ u = S_MIN) /\
     (80 = T_MAX -> l = S_MAX /\ u = S_MAX)).
Proof.
  assert (H50 : no_overflow 50) by (split; intros _; vm_compute; reflexivity).
  assert (H80 : no_overflow 80) by (split; intros _; vm_compute; reflexivity).
  split; (split; [ assumption | ]).
  - exact (band_nonempty 50 H50).
  - exact (band_nonempty 80 H80).
Defined.

(** C9 does not extend to every integer temperature: at [t = - 2 ^ 512] the
    upper bound is not computed, [max_speed] raises. *)
Lemma band_undefined_overflow :
  min_speed (- 2 ^ 512) = Ok 30 /\ max_speed (- 2 ^ 512) = Raise OverflowError.
Proof. split; vm_compute; reflexivity. Qed.

(** C10, on the temperatures whose squares convert to a double.  Between two
    such temperatures [t1 <= t2], neither bound decreases, and for a fixed current
    speed the target speed does not decrease. *)
Theorem curve_monotone (t1 t2 : Z) :
  t1 <= t2 -> no_overflow t1 -> no_overflow t2 ->
  exists l1 u1 l2 u2,
    min_speed t1 = Ok l1 /\ max_speed t1 = Ok u1 /\
    min_speed t2 = Ok l2 /\ max_speed t2 = Ok u2 /\
    l1 <= l2 /\ u1 <= u2 /\
    forall s, exists r1 r2,
      target_speed s t1 = Ok (r1, l1, u1) /\
      target_speed s t2 = Ok (r2, l2, u2) /\
      r1 <= r2.
Proof.
  intros Ht H1 H2.
  destruct (target_speed_curve 0 t1 H1) as (El1 & Eu1 & _).
  destruct (target_speed_curve 0 t2 H2) as (El2 & Eu2 & _).
  pose proof (min_curve_mono t1 t2 Ht) as Ml.
  pose proof (max_curve_mono t1 t2 Ht) as Mu.
  exists (min_curve t1), (max_curve t1), (min_curve t2), (max_curve t2).
  repeat split; try assumption.
  intros s.
  destruct (target_speed_curve s t1 H1) as (_ & _ & E1).
  destruct (target_speed_curve s t2 H2) as (_ & _ & E2).
  exists (Z.min (Z.max s (min_curve t1)) (max_curve t1)),
         (Z.min (Z.max s (min_curve t2)) (max_curve t2)).
  repeat split; try assumption. lia.
Qed.

Lemma curve_monotone_witness :
  55 <= 70 /\ no_overflow 55 /\ no_overflow 70 /\
  exists l1 u1 l2 u2,
    min_speed 55 = Ok l1 /\ max_speed 55 = Ok u1 /\
    min_speed 70 = Ok l2 /\ max_speed 70 = Ok u2 /\
    l1 <= l2 /\ u1 <= u2 /\
    forall s, exists r1 r2,
      target_speed s 55 = Ok (r1, l1, u1) /\
      target_speed s 70 = Ok (r2, l2, u2) /\
      r1 <= r2.
Proof.
  assert (Ht : 55 <= 70) by lia.
  assert (H1 : no_overflow 55) by (split; intros _; vm_compute; reflexivity).
  assert (H2 : no_overflow 70) by (split; intros _; vm_compute; reflexivity).
  split; [ exact Ht | split; [ exact H1 | split; [ exact H2 | ] ] ].
  exact (curve_monotone 55 70 Ht H1 H2).
Defined.

(** C10 does not extend to every pair of temperatures: 65 is below
    [10 ^ 155], where no bound and no target speed is computed. *)
Lemma curve_monotone_overflow :
  65 <= 10 ^ 155 /\
  min_speed 65 = Ok 47 /\
  min_speed (10 ^ 155) = Raise OverflowError /\
  target_speed 47 (10 ^ 155) = Raise OverflowError.
Proof. repeat split; vm_compute; try reflexivity; discriminate. Qed.

(** * Dictionaries *)

Lemma dict_get_set_same {V : Type} (d : dict V) (k : string) (v : V) :
  dict_get (dict_set d k v) k = Some v.
Proof.
  induction d as [ | [k' v'] d IH ]; cbn [dict_set dict_get].
  - rewrite String.eqb_refl. reflexivity.
  - destruct (String.eqb k k') eqn:Ek; cbn [dict_get]; rewrite Ek; [ reflexivity | exact IH ].
Qed.

Lemma dict_get_set_other {V : Type} (d : dict V) (k k' : string) (v : V) :
  k' <> k -> dict_get (dict_set d k v) k' = dict_get d k'.
Proof.
  intros Hk. induction d as [ | [k0 v0] d IH ]; cbn [dict_set dict_get].
  - apply String.eqb_neq in Hk. rewrite Hk. reflexivity.
  - destruct (String.eqb k k0) eqn:Ek; cbn [dict_get].
    + apply String.eqb_eq in Ek. subst k0.
      apply String.eqb_neq in Hk. rewrite Hk. reflexivity.
    + rewrite IH. reflexivity.
Qed.

Lemma dict_set_fresh {V : Type} (d : dict V) (k : string) (v : V) :
  dict_get d k = None -> dict_set d k v = d ++ [(k, v)].
Proof.
  induction d as [ | [k' v'] d IH ]; cbn [dict_set dict_get app]; [ reflexivity | ].
  destruct (String.eqb k k'); [ discriminate | ].
  intros H. rewrite (IH H). reflexivity.
Qed.

Lemma dict_get_app_fresh {V : Type} (d : dict V) (k k' : string) (v : V) :
  k' <> k -> dict_get (d ++ [(k, v)]) k' = dict_get d k'.
Proof.
  intros Hk. induction d as [ | [k0 v0] d IH ]; cbn [app dict_get].
  - apply String.eqb_neq in Hk. rewrite Hk. reflexivity.
  - rewrite IH. reflexivity.
Qed.

(** In a mapping built from distinct keys, the [i]-th key has the [i]-th value. *)
Lemma dict_get_combine {V : Type} (keys : list string) (vals : list V) (i : nat)
  (k : string) (v : V) :
  NoDup keys -> nth_error keys i = Some k -> nth_error vals i = Some v ->
  dict_get (combine keys vals) k = Some v.
Proof.
  intros Hnd. revert vals i.
  induction Hnd as [ | k0 keys Hnotin Hnd IH ]; intros vals i Hk Hv.
  - destruct i; discriminate.
  - destruct vals as [ | v0 vals ]; [ destruct i; discriminate | ].
    cbn [combine dict_get].
    destruct i as [ | i ]; cbn [nth_error] in Hk, Hv.
    + injection Hk as ->. injection Hv as ->. rewrite String.eqb_refl. reflexivity.
    + assert (k <> k0).
      { intros ->. apply Hnotin. eapply nth_error_In. eassumption. }
      apply String.eqb_neq in H. rewrite H. eapply IH; eassumption.
Qed.

Lemma dict_set_keeps {V : Type} (d : dict V) (k k' : string) (v : V) :
  dict_get d k' <> None -> dict_get (dict_set d k v) k' <> None.
Proof.
  intros H. destruct (String.eqb_spec k' k) as [-> | Hk].
  - rewrite dict_get_set_same. discriminate.
  - rewrite dict_get_set_other by assumption. exact H.
Qed.

Lemma dict_get_in {V : Type} (d : dict V) (k : string) (v : V) :
  In (k, v) d -> dict_get d k <> None.
Proof.
  induction d as [ | [k' v'] d IH ]; cbn [In dict_get]; [ contradiction | ].
  intros [H | H].
  - injection H as -> ->. rewrite String.eqb_refl. discriminate.
  - destruct (String.eqb k k'); [ discriminate | exact (IH H) ].
Qed.

(** [{b: 0 for b in displays}] has every key of [displays]. *)
Lemma fold_set_get {V : Type} (keys : list string) (d : dict V) (k : string) (v : V) :
  In k keys \/ dict_get d k = Some v ->
  dict_get (fold_left (fun d k => dict_set d k v) keys d) k = Some v.
Proof.
  revert d. induction keys as [ | k0 keys IH ]; intros d H; cbn [fold_left].
  - destruct H as [[] | H]. exact H.
  - apply IH. destruct (String.eqb_spec k k0) as [-> | Hne].
    + right. apply dict_get_set_same.
    + destruct H as [[H | H] | H].
      * congruence.
      * left. exact H.
      * right. rewrite dict_get_set_other by assumption. exact H.
Qed.

Lemma dict_from_keys_get {V : Type} (keys : list string) (k : string) (v : V) :
  In k keys -> dict_get (dict_from_keys keys v) k = Some v.
Proof. intros H. apply fold_set_get. left. exact H. Qed.

(** * The control loop *)

Lemma clean_app (a b : list event) : clean a -> clean b -> clean (a ++ b).
Proof. unfold clean. intros. apply Forall_app. auto. Qed.

Lemma clean_cons (ev : event) (evs : list event) :
  failure ev = None -> clean evs -> clean (ev :: evs).
Proof. unfold clean. intros. constructor; assumption. Qed.

Lemma clean_not_in (ev : event) (e : exn) (evs : list event) :
  clean evs -> failure ev = Some e -> ~ In ev evs.
Proof.
  intros Hc Hf Hin. unfold clean in Hc. rewrite Forall_forall in Hc.
  specialize (Hc ev Hin). congruence.
Qed.

Lemma raised_app (e : exn) (a b : list event) :
  clean a -> raised e b -> raised e (a ++ b).
Proof.
  intros Ha [Hb | (evs' & ev & -> & Hc & Hf)].
  - left. apply clean_app; assumption.
  - right. exists (a ++ evs'), ev. rewrite app_assoc.
    repeat split; try assumption. apply clean_app; assumption.
Qed.

Lemma raised_last (e : exn) (ev : event) :
  failure ev = Some e -> raised e [ev].
Proof. intros H. right. exists [], ev. repeat split; [ constructor | assumption ]. Qed.

Lemma raised_snoc (e : exn) (evs : list event) (ev : event) :
  clean evs -> failure ev = Some e -> raised e (evs ++ [ev]).
Proof. intros Hc Hf. right. exists evs, ev. auto. Qed.

Lemma accounted_app_l (e : exn) (a b : list event) : accounted e a -> accounted e (a ++ b).
Proof.
  intros [(ev & Hin & Hf) | (He & bus & t & Hin & Hn)]; [ left | right ].
  - exists ev. split; [ apply in_or_app; left; exact Hin | exact Hf ].
  - split; [ exact He | ]. exists bus, t. split; [ apply in_or_app; left; exact Hin | exact Hn ].
Qed.

Lemma accounted_app_r (e : exn) (a b : list event) : accounted e b -> accounted e (a ++ b).
Proof.
  intros [(ev & Hin & Hf) | (He & bus & t & Hin & Hn)]; [ left | right ].
  - exists ev. split; [ apply in_or_app; right; exact Hin | exact Hf ].
  - split; [ exact He | ]. exists bus, t. split; [ apply in_or_app; right; exact Hin | exact Hn ].
Qed.

Lemma failed_accounted (e : exn) (evs : list event) (ev : event) :
  In ev evs -> failure ev = Some e -> accounted e evs.
Proof. intros Hin Hf. left. exists ev. auto. Qed.

Lemma accounted_snoc (e : exn) (evs : list event) (ev : event) :
  failure ev = Some e -> accounted e (evs ++ [ev]).
Proof.
  intros Hf. apply accounted_app_r.
  eapply failed_accounted; [ left; reflexivity | exact Hf ].
Qed.

(** An exception that is accounted for left a trace. *)
Lemma accounted_nil (e : exn) : ~ accounted e [].
Proof. intros [(ev & [] & _) | (_ & bus & t & [] & _)]. Qed.

Lemma polled_app (a b : list event) : polled (a ++ b) = polled a ++ polled b.
Proof. apply flat_map_app. Qed.

Lemma sleep_requests_app (a b : list event) :
  sleep_requests (a ++ b) = sleep_requests a ++ sleep_requests b.
Proof. apply flat_map_app. Qed.

Lemma no_request_no_sleep (evs : list event) : sleep_requests evs = [] -> slept evs = [].
Proof.
  induction evs as [ | ev evs IH ]; [ reflexivity | ].
  cbn [sleep_requests flat_map]. intros H. apply app_eq_nil in H as [A B].
  cbn [slept flat_map]. fold (slept evs). rewrite (IH B).
  destruct ev as [ | | | | | | s r | ]; try reflexivity. discriminate.
Qed.

Ltac run_io :=
  cbv beta iota zeta delta
    [bind ret lift_result gets modify print external subscript lift call id
     temperature assign sleep config Popen terminate xserver set_speed].

(** Closes a goal [exists out l' evs, (.., .., tr ++ ..) = (.., l', tr ++ evs) /\ _]. *)
Ltac found :=
  do 3 eexists; split;
  [ rewrite <- ?app_assoc; cbn [app]; reflexivity | ].

(** The outcome of a call that failed last, after calls that did not fail
    and did not sleep. *)
Lemma failed_call (bus : string) (e : exn) (evs : list event) (ev : event) :
  clean evs -> sleep_requests (evs ++ [ev]) = [] -> failure ev = Some e ->
  gpu_step bus (Raise e) (evs ++ [ev]) /\
  (forall e', @Raise unit e = Raise e' -> accounted e' (evs ++ [ev])).
Proof.
  intros Hc Hs Hf. split.
  - split; [ exact Hs | apply raised_snoc; assumption ].
  - intros e' [= <-]. apply accounted_snoc, Hf.
Qed.

(** One GPU: [speeds[bus]] is defined and stays defined; its temperature is
    read and no call fails, or an exception cuts the iteration short, which
    is that of the last call or the overflow of the temperature just read. *)
Lemma manage_gpu_step (E : environment) (bus display : string) (l : dict Z) (tr : trace) :
  dict_get l bus <> None ->
  exists out l' evs,
    manage_gpu E bus display l tr = (Some out, l', tr ++ evs) /\
    gpu_step bus out evs /\
    (forall k, dict_get l k <> None -> dict_get l' k <> None) /\
    (forall e, out = Raise e -> accounted e evs).
Proof.
  intros Hk. unfold manage_gpu. run_io.
  destruct (env_temperature E tr bus) as [temp | e] eqn:Et; cbv beta iota.
  2:{ found.
      destruct (failed_call bus e [] (EvTemperature bus (Raise e))) as [G A];
        [ constructor | reflexivity | reflexivity | ].
      split; [ exact G | split; [ auto | exact A ] ]. }
  destruct (dict_get l bus) as [cur | ] eqn:Ec; cbv beta iota;
    [ | exfalso; apply Hk; reflexivity ].
  destruct (target_speed cur temp) as [[[s lo] hi] | e] eqn:Es; cbv beta iota.
  2:{ found. split; [ split; [ reflexivity | left; repeat constructor ] | ].
      split; [ auto | ]. intros e' [= <-].
      destruct (target_speed_raise cur temp e Es) as [-> Hn].
      right. split; [ reflexivity | ].
      exists bus, temp. split; [ left; reflexivity | exact Hn ]. }
  rewrite Ec. cbv beta iota.
  destruct (s =? cur) eqn:Eq; cbv beta iota delta [negb].
  { match goal with
    | |- context [env_print E ?t ?line] => destruct (env_print E t line) as [[] | e] eqn:Ep
    end; cbv beta iota.
    - found. split; [ split; [ reflexivity | split; [ reflexivity | repeat constructor ] ] | ].
      split; [ auto | discriminate ].
    - found.
      match goal with
      | |- gpu_step _ _ [?a; ?b] /\ _ =>
          destruct (failed_call bus e [a] b) as [G A];
            [ repeat constructor | reflexivity | reflexivity | ]
      end.
      split; [ exact G | split; [ auto | exact A ] ]. }
  match goal with
  | |- context [env_assign E ?t display "[gpu:0]/GPUFanControlState=1"] =>
      destruct (env_assign E t display "[gpu:0]/GPUFanControlState=1")
        as [[] | e] eqn:E1
  end; cbv beta iota.
  2:{ found.
      match goal with
      | |- gpu_step _ _ [?a; ?b] /\ _ =>
          destruct (failed_call bus e [a] b) as [G A];
            [ repeat constructor | reflexivity | reflexivity | ]
      end.
      split; [ exact G | split; [ auto | exact A ] ]. }
  match goal with
  | |- context [env_assign E ?t display ?c] =>
      destruct (env_assign E t display c) as [[] | e] eqn:E2
  end; cbv beta iota.
  2:{ found.
      match goal with
      | |- gpu_step _ _ [?a; ?b; ?c] /\ _ =>
          destruct (failed_call bus e [a; b] c) as [G A];
            [ repeat constructor | reflexivity | reflexivity | ]
      end.
      split; [ exact G | split; [ auto | exact A ] ]. }
  match goal with
  | |- context [env_print E ?t ?line] => destruct (env_print E t line) as [[] | e] eqn:Ep
  end; cbv beta iota.
  - found. split; [ split; [ reflexivity | split; [ reflexivity | repeat constructor ] ] | ].
    split; [ intros k; apply dict_set_keeps | discriminate ].
  - found.
    match goal with
    | |- gpu_step _ _ [?a; ?b; ?c; ?d] /\ _ =>
        destruct (failed_call bus e [a; b; c] d) as [G A];
          [ repeat constructor | reflexivity | reflexivity | ]
    end.
    split; [ exact G | split; [ intros k; apply dict_set_keeps | exact A ] ].
Qed.

Lemma bind_ok {L A B : Type} (c : io L A) (k : A -> io L B)
  (l l1 : L) (tr tr1 : trace) (a : A) :
  c l tr = (Some (Ok a), l1, tr1) -> bind c k l tr = k a l1 tr1.
Proof. intros H. unfold bind. rewrite H. reflexivity. Qed.

Lemma bind_raise {L A B : Type} (c : io L A) (k : A -> io L B)
  (l l1 : L) (tr tr1 : trace) (e : exn) :
  c l tr = (Some (Raise e), l1, tr1) -> bind c k l tr = (Some (Raise e), l1, tr1).
Proof. intros H. unfold bind. rewrite H. reflexivity. Qed.

(** The [for] loop of one iteration. *)
Lemma poll_gpus (E : environment) (items : list (string * string)) (l : dict Z) (tr : trace) :
  (forall bus display, In (bus, display) items -> dict_get l bus <> None) ->
  exists out l' evs,
    for_each items (fun '(bus, display) => manage_gpu E bus display) l tr
      = (Some out, l', tr ++ evs) /\
    sleep_requests evs = [] /\
    match out with
    | Ok _ => polled evs = map fst items /\ clean evs
    | Raise e => raised e evs /\ accounted e evs
    end /\
    (forall k, dict_get l k <> None -> dict_get l' k <> None).
Proof.
  revert l tr. induction items as [ | [bus display] items IH ]; intros l tr Hkeys.
  - exists (Ok tt), l, []. rewrite app_nil_r.
    split; [ reflexivity | split; [ reflexivity | split; [ | auto ] ] ].
    split; [ reflexivity | constructor ].
  - cbn [for_each].
    destruct (manage_gpu_step E bus display l tr)
      as (out & l1 & evs1 & E1 & [S1 H1] & K1 & A1).
    { apply (Hkeys bus display). left. reflexivity. }
    destruct out as [[] | e].
    + rewrite (bind_ok _ _ _ _ _ _ _ E1).
      destruct (IH l1 (tr ++ evs1)) as (out & l2 & evs2 & E2 & S2 & H2 & K2).
      { intros b d Hin. apply K1, (Hkeys b d). right. exact Hin. }
      destruct H1 as [P1 C1].
      exists out, l2, (evs1 ++ evs2).
      rewrite app_assoc, sleep_requests_app, S1, S2.
      split; [ exact E2 | split; [ reflexivity | split; [ | auto ] ] ].
      destruct out as [[] | e].
      * destruct H2 as [P2 C2]. rewrite polled_app, P1, P2.
        split; [ reflexivity | apply clean_app; assumption ].
      * destruct H2 as [R2 A2].
        split; [ apply raised_app; assumption | apply accounted_app_r, A2 ].
    + rewrite (bind_raise _ _ _ _ _ _ _ E1).
      exists (Raise e), l1, evs1.
      split; [ reflexivity | split; [ exact S1 | split; [ | exact K1 ] ] ].
      split; [ exact H1 | apply A1; reflexivity ].
Qed.

(** One iteration: either it completes, and then it has read every GPU and
    slept 5 seconds, or it is cut short by an exception. *)
Lemma poll_round_step (E : environment) (displays : dict string) (l : dict Z) (tr : trace) :
  (forall bus display, In (bus, display) (dict_items displays) -> dict_get l bus <> None) ->
  exists out l' evs,
    poll_round E displays l tr = (Some out, l', tr ++ evs) /\
    match out with
    | Ok _ => exists body, evs = round_events body /\ full_round displays body
    | Raise e =>
        raised e evs /\ accounted e evs /\
        slept evs = [] /\ Forall (eq 5) (sleep_requests evs)
    end /\
    (forall k, dict_get l k <> None -> dict_get l' k <> None).
Proof.
  intros Hkeys. unfold poll_round.
  destruct (poll_gpus E (dict_items displays) l tr Hkeys)
    as (out & l1 & evs1 & E1 & S1 & H1 & K1).
  destruct out as [[] | e].
  - rewrite (bind_ok _ _ _ _ _ _ _ E1). destruct H1 as [P1 C1].
    unfold sleep, external.
    destruct (env_sleep E (tr ++ evs1) 5) as [[] | e].
    + exists (Ok tt), l1, (evs1 ++ [EvSleep 5 (Ok tt)]). rewrite app_assoc.
      split; [ reflexivity | split; [ | exact K1 ] ].
      exists evs1. repeat split; assumption.
    + exists (Raise e), l1, (evs1 ++ [EvSleep 5 (Raise e)]). rewrite app_assoc.
      split; [ reflexivity | split; [ | exact K1 ] ].
      split; [ apply raised_snoc; [ exact C1 | reflexivity ] | ].
      split; [ apply accounted_snoc; reflexivity | ].
      split.
      * unfold slept. rewrite flat_map_app. cbn [flat_map app].
        rewrite app_nil_r. apply no_request_no_sleep. assumption.
      * rewrite sleep_requests_app, S1. repeat constructor.
  - rewrite (bind_raise _ _ _ _ _ _ _ E1). destruct H1 as [R1 A1].
    exists (Raise e), l1, evs1.
    split; [ reflexivity | split; [ | exact K1 ] ].
    split; [ exact R1 | split; [ exact A1 | ] ].
    split; [ apply no_request_no_sleep; assumption | rewrite S1; constructor ].
Qed.

Lemma round_events_clean (body : list event) : clean body -> clean (round_events body).
Proof. intros H. apply clean_app; [ assumption | repeat constructor ]. Qed.

Lemma rounds_events_clean (displays : dict string) (rounds : list (list event)) :
  Forall (full_round displays) rounds -> clean (rounds_events rounds).
Proof.
  induction 1 as [ | body rounds (_ & _ & C) _ IH ]; [ constructor | ].
  cbn [rounds_events flat_map]. apply clean_app; [ apply round_events_clean, C | exact IH ].
Qed.

(** The [while True] loop, observed for [fuel] iterations: a sequence of
    completed iterations, then nothing (the loop is still running) or an
    iteration cut short by the exception that ends the loop. *)
Lemma control_loop_rounds (E : environment) (displays : dict string) (fuel : nat)
  (l : dict Z) (tr : trace) :
  (forall bus display, In (bus, display) (dict_items displays) -> dict_get l bus <> None) ->
  exists out l' rounds rest,
    while_true fuel (poll_round E displays) l tr
      = (out, l', tr ++ rounds_events rounds ++ rest) /\
    Forall (full_round displays) rounds /\
    match out with
    | None => rest = [] /\ List.length rounds = fuel
    | Some (Raise e) =>
        raised e rest /\ accounted e rest /\
        slept rest = [] /\ Forall (eq 5) (sleep_requests rest) /\
        (List.length rounds < fuel)%nat
    | Some (Ok _) => False
    end.
Proof.
  revert l tr. induction fuel as [ | fuel IH ]; intros l tr Hkeys.
  - exists None, l, [], []. cbn. rewrite app_nil_r. auto.
  - cbn [while_true].
    destruct (poll_round_step E displays l tr Hkeys) as (out & l1 & evs1 & E1 & H1 & K1).
    destruct out as [[] | e].
    + rewrite (bind_ok _ _ _ _ _ _ _ E1).
      destruct H1 as (body & -> & Hb).
      destruct (IH l1 (tr ++ round_events body))
        as (out & l2 & rounds & rest & E2 & Hr & H2).
      { intros b d Hin. apply K1, (Hkeys b d Hin). }
      exists out, l2, (body :: rounds), rest.
      cbn [rounds_events flat_map]. fold (rounds_events rounds).
      rewrite <- !app_assoc in *.
      split; [ exact E2 | split; [ constructor; assumption | ] ].
      destruct out as [[[] | e] | ]; cbn [List.length]; intuition lia.
    + rewrite (bind_raise _ _ _ _ _ _ _ E1).
      exists (Some (Raise e)), l1, [], evs1.
      cbn [rounds_events flat_map app List.length].
      split; [ reflexivity | split; [ constructor | ] ].
      intuition lia.
Qed.

(** The mapping [{b: 0 for b in displays}] has every key of [displays]. *)
Lemma initial_speeds (displays : dict string) (bus display : string) :
  In (bus, display) (dict_items displays) ->
  dict_get (dict_from_keys (dict_keys displays) 0) bus <> None.
Proof.
  intros Hin. rewrite (dict_from_keys_get (dict_keys displays) bus 0); [ discriminate | ].
  apply (in_map fst) in Hin. exact Hin.
Qed.

(** Handing one fan back. *)
Lemma release_one (E : environment) (display : string) (l : dict Z) (tr : trace) :
  (assign E display release_command ;;
   print E ("Released fan speed control for GPU at " ++ display)%string)%io l tr =
  match env_assign E tr display release_command with
  | Ok _ =>
      match env_print E (tr ++ [EvAssign display release_command (Ok tt)])
              (released_line display) with
      | Ok _ =>
          (Some (Ok tt), l,
           tr ++ [EvAssign display release_command (Ok tt);
                  EvPrint (released_line display) (Ok tt)])
      | Raise e =>
          (Some (Raise e), l,
           tr ++ [EvAssign display release_command (Ok tt);
                  EvPrint (released_line display) (Raise e)])
      end
  | Raise e => (Some (Raise e), l, tr ++ [EvAssign display release_command (Raise e)])
  end.
Proof.
  run_io. unfold released_line.
  destruct (env_assign E tr display release_command) as [[] | e];
    cbv beta iota; [ | reflexivity ].
  destruct (env_print E _ _) as [[] | e];
    cbv beta iota; rewrite <- ?app_assoc; reflexivity.
Qed.

(** Handing the fans back: the displays are served in the order of the
    mapping, up to the first one whose command or whose line fails. *)
Lemma release_fans_shape (E : environment) (displays : dict string) (l : dict Z) (tr : trace) :
  exists out k tail,
    release_fans E displays l tr
      = (Some out, l, tr ++ release_events (firstn k displays) ++ tail) /\
    match out with
    | Ok _ => k = List.length displays /\ tail = []
    | Raise e =>
        exists bus display,
          nth_error displays k = Some (bus, display) /\ release_failure display e tail
    end.
Proof.
  unfold release_fans, release_events, dict_items.
  revert tr. induction displays as [ | [bus display] displays IH ]; intros tr.
  - exists (Ok tt), 0%nat, []. cbn. rewrite app_nil_r. auto.
  - cbn [for_each].
    pose proof (release_one E display l tr) as S1.
    destruct (env_assign E tr display release_command) as [[] | e].
    2:{ rewrite (bind_raise _ _ _ _ _ _ _ S1).
        exists (Raise e), 0%nat, [EvAssign display release_command (Raise e)].
        split; [ reflexivity | ].
        exists bus, display. split; [ reflexivity | left; reflexivity ]. }
    destruct (env_print E _ _) as [[] | e].
    2:{ rewrite (bind_raise _ _ _ _ _ _ _ S1).
        exists (Raise e), 0%nat. eexists.
        split; [ reflexivity | ].
        exists bus, display. split; [ reflexivity | right; reflexivity ]. }
    rewrite (bind_ok _ _ _ _ _ _ _ S1).
    match goal with
    | |- context [for_each displays ?f l ?t] =>
        destruct (IH t) as (out & k & tail & E2 & H2)
    end.
    rewrite E2, <- app_assoc.
    exists out, (S k), tail. split; [ reflexivity | ].
    destruct out as [[] | e]; cbn [List.length nth_error]; [ | exact H2 ].
    destruct H2 as [-> ->]. auto.
Qed.

Lemma release_events_clean (displays : dict string) : clean (release_events displays).
Proof.
  unfold release_events, dict_items.
  induction displays as [ | [bus display] displays IH ]; [ constructor | ].
  cbn [flat_map app]. repeat (apply clean_cons; [ reflexivity | ]). exact IH.
Qed.

Lemma release_events_quiet (displays : dict string) :
  polled (release_events displays) = [] /\ sleep_requests (release_events displays) = [].
Proof.
  induction displays as [ | [bus display] displays [IH1 IH2] ]; [ split; reflexivity | ].
  change (release_events ((bus, display) :: displays))
    with ([EvAssign display release_command (Ok tt);
           EvPrint (released_line display) (Ok tt)] ++ release_events displays).
  rewrite polled_app, sleep_requests_app, IH1, IH2. split; reflexivity.
Qed.

Lemma release_failure_last (display : string) (e : exn) (tail : list event) :
  release_failure display e tail ->
  polled tail = [] /\ sleep_requests tail = [] /\
  exists evs' ev, tail = evs' ++ [ev] /\ clean evs' /\ failure ev = Some e.
Proof.
  intros [-> | ->]; (split; [ reflexivity | split; [ reflexivity | ] ]).
  - exists [], (EvAssign display release_command (Raise e)).
    split; [ reflexivity | split; [ constructor | reflexivity ] ].
  - exists [EvAssign display release_command (Ok tt)],
      (EvPrint (released_line display) (Raise e)).
    split; [ reflexivity | split; [ repeat constructor | reflexivity ] ].
Qed.

(** The hand-back neither polls nor sleeps, and an exception of it is that
    of its last call. *)
Lemma release_fans_step (E : environment) (displays : dict string) (l : dict Z) (tr : trace) :
  exists out evs,
    release_fans E displays l tr = (Some out, l, tr ++ evs) /\
    polled evs = [] /\ sleep_requests evs = [] /\
    (forall e, out = Raise e -> accounted e evs).
Proof.
  destruct (release_fans_shape E displays l tr) as (out & k & tail & R & H).
  exists out, (release_events (firstn k displays) ++ tail).
  split; [ exact R | ].
  destruct (release_events_quiet (firstn k displays)) as [P S].
  rewrite polled_app, sleep_requests_app, P, S. cbn [app].
  destruct out as [[] | e].
  - destruct H as [_ ->]. repeat split. discriminate.
  - destruct H as (bus & display & _ & Hf).
    destruct (release_failure_last display e tail Hf) as (Pt & St & evs' & ev & -> & _ & He).
    split; [ exact Pt | split; [ exact St | ] ].
    intros e' [= <-]. apply accounted_app_r, accounted_snoc, He.
Qed.

Lemma release_fans_all (E : environment) (displays : dict string) (l : dict Z) (tr : trace) :
  release_succeeds E ->
  release_fans E displays l tr = (Some (Ok tt), l, tr ++ release_events displays).
Proof.
  intros [HA HP]. unfold release_fans, release_events, dict_items.
  revert tr. induction displays as [ | [bus display] displays IH ]; intros tr.
  - cbn. rewrite app_nil_r. reflexivity.
  - cbn [for_each flat_map].
    pose proof (release_one E display l tr) as S1. rewrite HA, HP in S1.
    rewrite (bind_ok _ _ _ _ _ _ _ S1), IH, <- app_assoc. reflexivity.
Qed.

(** [manage_fans] is its loop followed, once the loop has ended, by the
    [finally] block. *)
Lemma manage_fans_unfold (E : environment) (fuel : nat) (displays : dict string) (tr : trace) :
  manage_fans E fuel displays tr =
    match while_true fuel (poll_round E displays)
            (dict_from_keys (dict_keys displays) 0) tr with
    | (None, _, tr1) => (None, tr1)
    | (Some r, l1, tr1) =>
        match release_fans E displays l1 tr1 with
        | (Some (Ok _), _, tr2) => (Some r, tr2)
        | (Some (Raise e), _, tr2) => (Some (Raise e), tr2)
        | (None, _, tr2) => (None, tr2)
        end
    end.
Proof.
  unfold manage_fans, call, try_finally, bind, modify.
  destruct (while_true fuel (poll_round E displays) _ tr) as [[[r | ] l1] tr1];
    [ | reflexivity ].
  destruct (release_fans E displays l1 tr1) as [[[[[] | e] | ] l2] tr2]; reflexivity.
Qed.

(** The run of [manage_fans]: completed iterations, then either nothing (the
    loop is still running) or the iteration cut short by the exception [e]
    that ends the loop and the hand-back, which serves the displays in order
    up to the first failure; the exception of the loop is the outcome unless
    the hand-back raises. *)
Lemma manage_fans_run (E : environment) (fuel : nat) (displays : dict string) (tr : trace) :
  exists rounds rest,
    Forall (full_round displays) rounds /\
    ((manage_fans E fuel displays tr = (None, tr ++ rounds_events rounds) /\
      rest = [] /\ List.length rounds = fuel) \/
     (exists e out k tail,
        manage_fans E fuel displays tr
          = (Some (Raise out),
             tr ++ rounds_events rounds ++ rest
                ++ release_events (firstn k displays) ++ tail) /\
        raised e rest /\ accounted e rest /\
        slept rest = [] /\ Forall (eq 5) (sleep_requests rest) /\
        (List.length rounds < fuel)%nat /\
        ((k = List.length displays /\ tail = [] /\ out = e) \/
         (exists bus display,
            nth_error displays k = Some (bus, display) /\
            release_failure display out tail /\ ~ release_succeeds E)))).
Proof.
  rewrite manage_fans_unfold.
  destruct (control_loop_rounds E displays fuel (dict_from_keys (dict_keys displays) 0) tr)
    as (out0 & l1 & rounds & rest & E1 & Hr & H1).
  { apply initial_speeds. }
  rewrite E1. exists rounds, rest. split; [ exact Hr | ].
  destruct out0 as [[[] | e] | ].
  - contradiction.
  - right. destruct H1 as (R1 & A1 & S1 & Q1 & L1).
    destruct (release_fans_shape E displays l1 (tr ++ rounds_events rounds ++ rest))
      as (outr & k & tail & E2 & H2).
    rewrite E2, <- !app_assoc.
    destruct outr as [[] | e'].
    + exists e, e, k, tail. destruct H2 as [-> ->].
      split; [ reflexivity | ].
      repeat (split; [ assumption | ]). left. auto.
    + exists e, e', k, tail.
      split; [ reflexivity | ].
      repeat (split; [ assumption | ]). right.
      destruct H2 as (bus & display & Hn & Hf). exists bus, display.
      split; [ exact Hn | split; [ exact Hf | ] ].
      intros HE. rewrite (release_fans_all E displays l1 _ HE) in E2. discriminate E2.
  - left. destruct H1 as [-> L1]. rewrite app_nil_r. auto.
Qed.
(** A failing call is followed by nothing but what comes after the
    computation that made it. *)
Lemma failure_position (a b before after : list event) (ev : event) (e e' : exn) :
  before ++ ev :: after = a ++ b ->
  failure ev = Some e' -> raised e a -> ~ In ev b ->
  e' = e /\ after = b.
Proof.
  intros Heq Hev Ha Hb.
  destruct Ha as [Ha | (a' & x & -> & Ha & Hx)].
  - exfalso. assert (Hin : In ev (a ++ b)) by (rewrite <- Heq; apply in_elt).
    apply in_app_or in Hin as [Hin | Hin]; [ | exact (Hb Hin) ].
    exact (clean_not_in ev e' a Ha Hev Hin).
  - rewrite <- app_assoc in Heq. cbn [app] in Heq.
    revert before Heq. induction a' as [ | y a' IH ]; intros before Heq.
    + destruct before as [ | z before ]; cbn [app] in Heq.
      * injection Heq as -> ->. split; congruence.
      * injection Heq as -> Heq. exfalso. apply Hb.
        rewrite <- Heq. apply in_elt.
    + destruct before as [ | z before ]; cbn [app] in Heq.
      * injection Heq as -> _. exfalso.
        apply (clean_not_in y e' (y :: a') Ha Hev). left. reflexivity.
      * injection Heq as -> Heq. apply (IH (Forall_inv_tail Ha) before Heq).
Qed.

(** The hand-back makes none of the calls of the loop. *)
Lemma release_events_no_control (displays : dict string) (ev : event) :
  In ev (release_events displays) -> ~ control_call ev.
Proof.
  unfold release_events, dict_items.
  induction displays as [ | [bus display] displays IH ]; [ intros [] | ].
  cbn [flat_map app In]. intros [<- | [<- | Hin]]; [ | | exact (IH Hin) ].
  - intros [H | [s H]]; cbn in H; discriminate H.
  - intros [].
Qed.

Lemma release_failure_no_control (display : string) (e : exn) (tail : list event)
  (ev : event) :
  release_failure display e tail -> In ev tail -> ~ control_call ev.
Proof.
  intros [-> | ->]; cbn [In].
  - intros [<- | []]. intros [H | [s H]]; cbn in H; discriminate H.
  - intros [<- | [<- | []]]; [ | intros [] ].
    intros [H | [s H]]; cbn in H; discriminate H.
Qed.

Lemma release_run_quiet (displays : dict string) (k : nat) (tail : list event) :
  tail = [] \/ (exists display e, release_failure display e tail) ->
  polled (release_events (firstn k displays) ++ tail) = [] /\
  sleep_requests (release_events (firstn k displays) ++ tail) = [] /\
  forall ev, In ev (release_events (firstn k displays) ++ tail) -> ~ control_call ev.
Proof.
  intros H. destruct (release_events_quiet (firstn k displays)) as [P S].
  rewrite polled_app, sleep_requests_app, P, S. cbn [app].
  destruct H as [-> | (display & e & Hf)].
  - split; [ reflexivity | split; [ reflexivity | ] ].
    intros ev Hin. rewrite app_nil_r in Hin.
    exact (release_events_no_control _ ev Hin).
  - destruct (release_failure_last display e tail Hf) as (Pt & St & _).
    split; [ exact Pt | split; [ exact St | ] ].
    intros ev Hin. apply in_app_or in Hin as [Hin | Hin].
    + exact (release_events_no_control _ ev Hin).
    + exact (release_failure_no_control display e tail ev Hf Hin).
Qed.

(** C7.  Every iteration of the control loop of [manage_fans] that is
    followed by another one reads the temperature of every GPU of the
    mapping, in order, and then sleeps 5 seconds: the trace of [manage_fans]
    is a sequence of such iterations, followed, once the loop has been left,
    by an iteration that an exception cut short (in which no sleep ran to its
    end, and any sleep asked for was of 5 seconds) and by the hand-back of
    the fans, which neither polls nor sleeps.  While the loop is running the
    trace consists of completed iterations only, one for each iteration
    observed.  The loop is never left by a return, and it is left only by an
    exception that is accounted for within the iteration cut short: a call
    of that iteration failed, or a temperature read in it overflows. *)
Theorem polling_interval (E : environment) (fuel : nat) (displays : dict string) (tr : trace) :
  exists out rounds rest final,
    manage_fans E fuel displays tr = (out, tr ++ rounds_events rounds ++ rest ++ final) /\
    Forall (full_round displays) rounds /\
    slept rest = [] /\ Forall (eq 5) (sleep_requests rest) /\
    polled final = [] /\ sleep_requests final = [] /\
    (out = None -> rest = [] /\ final = [] /\ List.length rounds = fuel) /\
    (out <> None -> (List.length rounds < fuel)%nat) /\
    out <> Some (Ok tt) /\
    (out <> None -> exists e, raised e rest /\ accounted e rest).
Proof.
  destruct (manage_fans_run E fuel displays tr) as (rounds & rest & Hr & H).
  destruct H as [(R & -> & Hlen) | (e & out & k & tail & R & R1 & A1 & S1 & Q1 & L1 & H2)].
  - exists None, rounds, [], []. rewrite !app_nil_r.
    split; [ exact R | split; [ exact Hr | ] ].
    split; [ reflexivity | split; [ constructor | ] ].
    split; [ reflexivity | split; [ reflexivity | ] ].
    split; [ auto | ].
    split; [ intros H; congruence | ].
    split; [ discriminate | intros H; congruence ].
  - exists (Some (Raise out)), rounds, rest, (release_events (firstn k displays) ++ tail).
    destruct (release_run_quiet displays k tail) as (P & S & _).
    { destruct H2 as [(_ & -> & _) | (bus & display & _ & Hf & _)];
        [ left; reflexivity | right; exists display, out; exact Hf ]. }
    split; [ exact R | split; [ exact Hr | ] ].
    split; [ exact S1 | split; [ exact Q1 | ] ].
    split; [ exact P | split; [ exact S | ] ].
    split; [ discriminate | ].
    split; [ intros _; exact L1 | ].
    split; [ discriminate | intros _; exists e; auto ].
Qed.

Lemma polling_interval_witness :
  exists out rounds rest final,
    manage_fans steady 3 two_gpus [] = (out, [] ++ rounds_events rounds ++ rest ++ final) /\
    Forall (full_round two_gpus) rounds /\
    slept rest = [] /\ Forall (eq 5) (sleep_requests rest) /\
    polled final = [] /\ sleep_requests final = [] /\
    (out = None -> rest = [] /\ final = [] /\ List.length rounds = 3%nat) /\
    (out <> None -> (List.length rounds < 3)%nat) /\
    out <> Some (Ok tt) /\
    (out <> None -> exists e, raised e rest /\ accounted e rest).
Proof. exact (polling_interval steady 3 two_gpus []). Defined.

(** C8, with the outcome of the hand-back spelled out.  When a call of the
    loop of [manage_fans] (reading a temperature, or one of the two commands
    that set a speed) fails, the loop stops for every GPU: what follows makes
    no call of the loop, reads no temperature and does not sleep.  It is the
    hand-back, which serves the displays in the order of the mapping up to
    the first display whose command, or whose line reporting it, fails.  If
    none fails, the fan of every display is handed back and the exception of
    the failed call is the outcome; otherwise the later displays are not
    served and the exception of the hand-back is the outcome instead.  Where
    handing back works, the first case applies. *)
Theorem failure_stops_and_releases (E : environment) (fuel : nat) (displays : dict string)
  (tr before after : trace) (ev : event) (e : exn) (out : option (result unit)) :
  manage_fans E fuel displays tr = (out, tr ++ before ++ ev :: after) ->
  control_call ev -> failure ev = Some e ->
  polled after = [] /\ sleep_requests after = [] /\
  (forall ev', In ev' after -> ~ control_call ev') /\
  ((after = release_events displays /\ out = Some (Raise e)) \/
   (exists k bus display e' tail,
      nth_error displays k = Some (bus, display) /\
      after = release_events (firstn k displays) ++ tail /\
      release_failure display e' tail /\
      out = Some (Raise e'))) /\
  (release_succeeds E -> after = release_events displays /\ out = Some (Raise e)).
Proof.
  intros Hrun Hctl Hev.
  destruct (manage_fans_run E fuel displays tr) as (rounds & rest & Hr & H).
  pose proof (rounds_events_clean displays rounds Hr) as Hc.
  destruct H as [(R & -> & Hlen) | (e0 & out0 & k & tail & R & R1 & A1 & S1 & Q1 & L1 & H2)].
  - exfalso. rewrite R in Hrun. injection Hrun as _ Htr.
    apply app_inv_head in Htr.
    apply (clean_not_in ev e (rounds_events rounds) Hc Hev).
    rewrite Htr. apply in_elt.
  - rewrite R in Hrun. injection Hrun as <- Htr.
    apply app_inv_head in Htr. rewrite app_assoc in Htr. symmetry in Htr.
    destruct (release_run_quiet displays k tail) as (P & S & N).
    { destruct H2 as [(_ & -> & _) | (bus & display & _ & Hf & _)];
        [ left; reflexivity | right; exists display, out0; exact Hf ]. }
    destruct (failure_position (rounds_events rounds ++ rest)
                (release_events (firstn k displays) ++ tail)
                before after ev e0 e Htr Hev) as [-> ->].
    { apply raised_app; assumption. }
    { intros Hin. exact (N ev Hin Hctl). }
    split; [ exact P | split; [ exact S | split; [ exact N | ] ] ].
    assert (Hcases :
      (release_events (firstn k displays) ++ tail = release_events displays /\
       Some (@Raise unit out0) = Some (Raise e0)) \/
      (exists k' bus display e' tail',
         nth_error displays k' = Some (bus, display) /\
         release_events (firstn k displays) ++ tail
           = release_events (firstn k' displays) ++ tail' /\
         release_failure display e' tail' /\
         Some (@Raise unit out0) = Some (Raise e'))).
    { destruct H2 as [(-> & -> & ->) | (bus & display & Hn & Hf & _)].
      - left. rewrite firstn_all, app_nil_r. auto.
      - right. exists k, bus, display, out0, tail. auto. }
    split; [ exact Hcases | ].
    intros HE. destruct H2 as [(-> & -> & ->) | (bus & display & _ & _ & Hn)].
    + rewrite firstn_all, app_nil_r. auto.
    + contradiction.
Qed.

Lemma failure_stops_and_releases_witness :
  manage_fans second_gpu_lost 4 two_gpus [] =
    (Some (Raise CalledProcessError),
     [] ++ [EvTemperature "00000000:01:00.0" (Ok 65);
            EvAssign ":0" "[gpu:0]/GPUFanControlState=1" (Ok tt);
            EvAssign ":0" "[fan:0]/GPUTargetFanSpeed=47" (Ok tt);
            EvPrint "GPU :0, 65C -> [47%-81%]. Setting speed to 47%" (Ok tt)]
        ++ EvTemperature "00000000:02:00.0" (Raise CalledProcessError)
        :: release_events two_gpus) /\
  control_call (EvTemperature "00000000:02:00.0" (Raise CalledProcessError)) /\
  failure (EvTemperature "00000000:02:00.0" (Raise CalledProcessError))
    = Some CalledProcessError /\
  polled (release_events two_gpus) = [] /\
  sleep_requests (release_events two_gpus) = [] /\
  (forall ev', In ev' (release_events two_gpus) -> ~ control_call ev') /\
  ((release_events two_gpus = release_events two_gpus /\
    Some (@Raise unit CalledProcessError) = Some (Raise CalledProcessError)) \/
   (exists k bus display e' tail,
      nth_error two_gpus k = Some (bus, display) /\
      release_events two_gpus = release_events (firstn k two_gpus) ++ tail /\
      release_failure display e' tail /\
      Some (@Raise unit CalledProcessError) = Some (Raise e'))) /\
  (release_succeeds second_gpu_lost ->
   release_events two_gpus = release_events two_gpus /\
   Some (@Raise unit CalledProcessError) = Some (Raise CalledProcessError)).
Proof.
  assert (Hrun : manage_fans second_gpu_lost 4 two_gpus [] =
    (Some (Raise CalledProcessError),
     [] ++ [EvTemperature "00000000:01:00.0" (Ok 65);
            EvAssign ":0" "[gpu:0]/GPUFanControlState=1" (Ok tt);
            EvAssign ":0" "[fan:0]/GPUTargetFanSpeed=47" (Ok tt);
            EvPrint "GPU :0, 65C -> [47%-81%]. Setting speed to 47%" (Ok tt)]
        ++ EvTemperature "00000000:02:00.0" (Raise CalledProcessError)
        :: release_events two_gpus)) by (vm_compute; reflexivity).
  split; [ exact Hrun | ].
  split; [ exact I | ].
  split; [ reflexivity | ].
  exact (failure_stops_and_releases second_gpu_lost 4 two_gpus []
           [EvTemperature "00000000:01:00.0" (Ok 65);
            EvAssign ":0" "[gpu:0]/GPUFanControlState=1" (Ok tt);
            EvAssign ":0" "[fan:0]/GPUTargetFanSpeed=47" (Ok tt);
            EvPrint "GPU :0, 65C -> [47%-81%]. Setting speed to 47%" (Ok tt)]
           (release_events two_gpus)
           (EvTemperature "00000000:02:00.0" (Raise CalledProcessError))
           CalledProcessError (Some (Raise CalledProcessError)) Hrun I eq_refl).
Defined.

(** C8 does not hold when the command that hands a fan back fails as
    well: the [finally] block stops at the first display and the fan of the
    second display is never handed back.  The exception of the hand-back
    then replaces that of the loop: a temperature that cannot be parsed
    (ValueError) ends [manage_fans] with CalledProcessError. *)
Lemma release_aborts_when_driver_down :
  manage_fans driver_down 1 two_gpus [] =
    (Some (Raise CalledProcessError),
     [EvTemperature "00000000:01:00.0" (Raise CalledProcessError);
      EvAssign ":0" release_command (Raise CalledProcessError)]) /\
  manage_fans garbled_reading 1 two_gpus [] =
    (Some (Raise CalledProcessError),
     [EvTemperature "00000000:01:00.0" (Raise ValueError);
      EvAssign ":0" release_command (Raise CalledProcessError)]).
Proof. split; vm_compute; reflexivity. Qed.

(** * The X servers *)

(** ** Display names *)

Lemma to_uint_nonnil (n : nat) : Nat.to_uint n <> Decimal.Nil.
Proof.
  intros H. pose proof (DecimalNat.Unsigned.to_of (Nat.to_uint n)) as T.
  rewrite DecimalNat.Unsigned.of_to, H in T. discriminate T.
Qed.

Lemma str_nat_inj (a b : nat) : str_nat a = str_nat b -> a = b.
Proof.
  unfold str_nat. intros H. apply (f_equal NilZero.uint_of_string) in H.
  rewrite !NilZero.usu in H by apply to_uint_nonnil.
  injection H as H. apply DecimalNat.Unsigned.to_uint_inj. exact H.
Qed.

Lemma display_id_inj (a b : nat) : display_id a = display_id b -> a = b.
Proof. unfold display_id. cbn [append]. intros H. injection H as H. apply str_nat_inj, H. Qed.

Lemma display_ids_distinct (k n : nat) : NoDup (map display_id (seq k n)).
Proof.
  apply NoDup_map_NoDup_ForallPairs; [ | apply seq_NoDup ].
  intros a b _ _. apply display_id_inj.
Qed.

(** ** Starting and stopping one server *)

(** The run of the loop body for the [d]-th GPU. *)
Lemma start_server_run (E : environment) (d : nat) (bus : string)
  (l : xservers_locals) (tr : trace) :
  let l1 := set_display bus (display_id d) l in
  let line := starting_line (display_id d) in
  start_server E d bus l tr =
    match env_print E tr line with
    | Raise e => (Some (Raise e), l1, tr ++ [EvPrint line (Raise e)])
    | Ok _ =>
        let tr1 := tr ++ [EvPrint line (Ok tt)] in
        match env_config E tr1 bus with
        | Raise e => (Some (Raise e), l1, tr1 ++ [EvConfig bus (Raise e)])
        | Ok conf =>
            let tr2 := tr1 ++ [EvConfig bus (Ok conf)] in
            let argv := ["Xorg"; display_id d; "-once"; "-config"; conf]%string in
            match env_popen E tr2 argv with
            | Raise e => (Some (Raise e), l1, tr2 ++ [EvPopen argv (Raise e)])
            | Ok _ =>
                (Some (Ok tt), set_server bus (List.length tr2) l1,
                 tr2 ++ [EvPopen argv (Ok (List.length tr2))])
            end
        end
    end.
Proof.
  intros l1 line. unfold start_server. run_io.
  change (":" ++ str_nat d)%string with (display_id d).
  cbn [displays set_display]. rewrite dict_get_set_same. cbv beta iota.
  change ("Starting xserver for display " ++ display_id d)%string with line.
  fold l1.
  destruct (env_print E tr line) as [[] | e]; cbv beta iota; [ | reflexivity ].
  cbn [displays set_display l1]. rewrite dict_get_set_same. cbv beta iota.
  fold l1.
  destruct (env_config E _ bus) as [conf | e]; cbv beta iota zeta; [ | reflexivity ].
  destruct (env_popen E _ _) as [[] | e]; cbn [rbind]; reflexivity.
Qed.

Lemma stop_server_run (E : environment) (bus display : string) (server : nat)
  (l : xservers_locals) (tr : trace) :
  dict_get (displays l) bus = Some display ->
  let line := terminating_line display in
  stop_server E bus server l tr =
    match env_print E tr line with
    | Raise e => (Some (Raise e), l, tr ++ [EvPrint line (Raise e)])
    | Ok _ =>
        let tr1 := tr ++ [EvPrint line (Ok tt)] in
        match env_terminate E tr1 server with
        | Raise e => (Some (Raise e), l, tr1 ++ [EvTerminate server (Raise e)])
        | Ok _ => (Some (Ok tt), l, tr1 ++ [EvTerminate server (Ok tt)])
        end
    end.
Proof.
  intros H line. unfold stop_server. run_io. rewrite H. cbv beta iota.
  change ("Terminating xserver for display " ++ display)%string with line.
  destruct (env_print E tr line) as [[] | e]; cbv beta iota; [ | reflexivity ].
  destruct (env_terminate E _ server) as [[] | e]; reflexivity.
Qed.

(** ** The two loops *)

(** Whatever the environment does, the start-up loop sends no termination
    signal and leaves in [servers], in order, exactly the children it
    started. *)
Lemma start_loop_inv (E : environment) (items : list (nat * string))
  (l : xservers_locals) (tr : trace) :
  NoDup (map snd items) ->
  (forall bus, In bus (map snd items) -> dict_get (servers l) bus = None) ->
  covered l ->
  exists out l' evs,
    for_each items (fun '(d, bus) => start_server E d bus) l tr
      = (Some out, l', tr ++ evs) /\
    terminated evs = [] /\
    map snd (servers l') = map snd (servers l) ++ spawned evs /\
    covered l'.
Proof.
  revert l tr. induction items as [ | [d bus] items IH ]; intros l tr Hnd Hfresh Hcov.
  - exists (Ok tt), l, []. rewrite !app_nil_r. auto.
  - cbn [map snd] in Hnd, Hfresh. inversion Hnd as [ | ? ? Hnotin Hnd' ]; subst.
    cbn [for_each].
    pose proof (start_server_run E d bus l tr) as R. cbv zeta in R.
    set (l1 := set_display bus (display_id d) l) in *.
    assert (Hcov1 : covered l1).
    { intros b Hb. cbn [l1 set_display displays servers] in *.
      apply dict_set_keeps, Hcov, Hb. }
    destruct (env_print E tr _) as [[] | e].
    2:{ rewrite (bind_raise _ _ _ _ _ _ _ R).
        do 3 eexists. split; [ reflexivity | ].
        cbn. rewrite app_nil_r. auto. }
    destruct (env_config E _ bus) as [conf | e].
    2:{ rewrite (bind_raise _ _ _ _ _ _ _ R), <- app_assoc.
        do 3 eexists. split; [ reflexivity | ].
        cbn. rewrite app_nil_r. auto. }
    destruct (env_popen E _ _) as [[] | e].
    2:{ rewrite (bind_raise _ _ _ _ _ _ _ R), <- !app_assoc.
        do 3 eexists. split; [ reflexivity | ].
        cbn. rewrite app_nil_r. auto. }
    rewrite (bind_ok _ _ _ _ _ _ _ R).
    match type of R with
    | _ = (_, set_server bus ?p l1, _) => set (server := p) in *
    end.
    set (l2 := set_server bus server l1) in *.
    assert (Hs2 : servers l2 = servers l ++ [(bus, server)]).
    { cbn [l2 l1 set_server set_display servers].
      apply dict_set_fresh, Hfresh. left. reflexivity. }
    assert (Hcov2 : covered l2).
    { intros b Hb. cbn [l2 set_server displays servers] in *.
      destruct (String.eqb_spec b bus) as [-> | Hne].
      - cbn [l1 set_display displays]. rewrite dict_get_set_same. discriminate.
      - rewrite dict_get_set_other in Hb by assumption. apply Hcov1, Hb. }
    match goal with
    | |- context [for_each items ?f l2 ?t] =>
        destruct (IH l2 t Hnd') as (out & l' & evs & E2 & T2 & S2 & C2);
          [ | exact Hcov2 | ]
    end.
    { intros b Hb. rewrite Hs2.
      rewrite dict_get_app_fresh by (intros ->; contradiction).
      apply Hfresh. right. exact Hb. }
    rewrite E2, <- !app_assoc. cbn [app].
    do 3 eexists. split; [ reflexivity | ].
    rewrite S2, Hs2, map_app. cbn [terminated spawned flat_map map snd app].
    fold (terminated evs). fold (spawned evs).
    rewrite T2, <- app_assoc. auto.
Qed.

(** Where announcing, configuring and starting never fail, the loop maps the
    [i]-th GPU to display [i] and starts one server per GPU, on that display
    and with the configuration written for that GPU. *)
Lemma start_loop_ok (E : environment) (buses : list string) (k : nat)
  (l : xservers_locals) (tr : trace) :
  spawns_succeed E -> NoDup buses ->
  (forall bus, In bus buses -> dict_get (displays l) bus = None) ->
  exists l' evs,
    for_each (combine (seq k (List.length buses)) buses)
      (fun '(d, bus) => start_server E d bus) l tr
      = (Some (Ok tt), l', tr ++ evs) /\
    displays l' = displays l ++ combine buses (map display_id (seq k (List.length buses))) /\
    startup_shape (combine (seq k (List.length buses)) buses) evs /\
    configured evs = buses /\
    spawn_displays evs = map display_id (seq k (List.length buses)) /\
    List.length (spawned evs) = List.length buses.
Proof.
  intros (Hprint & Hconf & Hpopen) Hnd. revert k l tr.
  induction Hnd as [ | bus buses Hnotin Hnd IH ]; intros k l tr Hfresh.
  - exists l, []. cbn. rewrite !app_nil_r. auto 10.
  - cbn [List.length seq combine for_each].
    pose proof (start_server_run E k bus l tr) as R. cbv zeta in R.
    rewrite Hprint in R.
    match type of R with
    | context [env_config E ?t bus] => destruct (Hconf t bus) as [conf Hc]
    end.
    rewrite Hc, Hpopen in R.
    rewrite (bind_ok _ _ _ _ _ _ _ R).
    match type of R with
    | _ = (_, ?st, _) => set (l2 := st) in *
    end.
    assert (Hd2 : displays l2 = displays l ++ [(bus, display_id k)]).
    { cbn [l2 set_server set_display displays].
      apply dict_set_fresh, Hfresh. left. reflexivity. }
    match goal with
    | |- context [for_each _ ?f l2 ?t] =>
        destruct (IH (S k) l2 t) as (l' & evs & E2 & D2 & H2 & C2 & P2 & N2)
    end.
    { intros b Hb. rewrite Hd2.
      rewrite dict_get_app_fresh by (intros ->; contradiction).
      apply Hfresh. right. exact Hb. }
    rewrite E2, <- !app_assoc. cbn [app].
    do 2 eexists. split; [ reflexivity | ].
    rewrite D2, Hd2, <- app_assoc.
    cbn [configured spawn_displays spawned flat_map map nth app List.length combine
         startup_shape].
    fold (configured evs). fold (spawn_displays evs). fold (spawned evs).
    rewrite C2, P2, N2.
    split; [ reflexivity | split; [ | auto ] ].
    do 3 eexists. split; [ reflexivity | exact H2 ].
Qed.

(** Where announcing the end of a server and terminating it never fail, the
    [finally] block terminates, in order, every server in [servers]; its
    calls do not depend on the history. *)
Lemma stop_loop (E : environment) (l : xservers_locals) (items : list (string * nat)) :
  stops_succeed E ->
  (forall bus p, In (bus, p) items -> dict_get (displays l) bus <> None) ->
  exists evs,
    terminated evs = map snd items /\ spawned evs = [] /\ clean evs /\
    Forall shutdown_event evs /\
    forall tr,
      for_each items (fun '(bus, server) => stop_server E bus server) l tr
        = (Some (Ok tt), l, tr ++ evs).
Proof.
  intros [Hprint Hterm].
  induction items as [ | [bus p] items IH ]; intros H.
  - exists []. repeat split; try constructor. intros tr. rewrite app_nil_r. reflexivity.
  - destruct IH as (evs & T & S & C & F & R).
    { intros b q Hin. apply (H b q). right. exact Hin. }
    destruct (dict_get (displays l) bus) as [display | ] eqn:Ed.
    2:{ exfalso. apply (H bus p); [ left; reflexivity | exact Ed ]. }
    exists ([EvPrint (terminating_line display) (Ok tt); EvTerminate p (Ok tt)] ++ evs).
    cbn [terminated spawned flat_map app map snd].
    fold (terminated evs). fold (spawned evs). rewrite T, S.
    split; [ reflexivity | split; [ reflexivity | split; [ | split ] ] ].
    { repeat (apply clean_cons; [ reflexivity | ]). exact C. }
    { repeat (constructor; [ exact I | ]). exact F. }
    intros tr. cbn [for_each].
    pose proof (stop_server_run E bus display p l tr Ed) as R1. cbv zeta in R1.
    rewrite Hprint, Hterm in R1.
    rewrite (bind_ok _ _ _ _ _ _ _ R1).
    rewrite R, <- !app_assoc. reflexivity.
Qed.

Lemma xservers_stop_run (E : environment) (l : xservers_locals) :
  stops_succeed E -> covered l ->
  exists evs,
    terminated evs = map snd (servers l) /\ spawned evs = [] /\ clean evs /\
    Forall shutdown_event evs /\
    forall tr, xservers_stop E l tr = (Some (Ok tt), l, tr ++ evs).
Proof.
  intros HE Hcov.
  destruct (stop_loop E l (dict_items (servers l)) HE) as (evs & T & S & C & F & R).
  { intros bus p Hin. apply Hcov. eapply dict_get_in. exact Hin. }
  exists evs.
  split; [ exact T | split; [ exact S | split; [ exact C | split; [ exact F | ] ] ] ].
  intros tr. unfold xservers_stop, bind, gets. apply R.
Qed.

(** Whatever the environment does, the [finally] block only prints and
    terminates, and stops at its first call that fails. *)
Lemma stop_loop_general (E : environment) (l : xservers_locals) (items : list (string * nat))
  (tr : trace) :
  (forall bus p, In (bus, p) items -> dict_get (displays l) bus <> None) ->
  exists out evs,
    for_each items (fun '(bus, server) => stop_server E bus server) l tr
      = (Some out, l, tr ++ evs) /\
    Forall shutdown_event evs /\
    match out with
    | Ok _ => clean evs
    | Raise e => exists evs' ev, evs = evs' ++ [ev] /\ clean evs' /\ failure ev = Some e
    end.
Proof.
  revert tr. induction items as [ | [bus p] items IH ]; intros tr H.
  - exists (Ok tt), []. rewrite app_nil_r. repeat split; constructor.
  - destruct (dict_get (displays l) bus) as [display | ] eqn:Ed.
    2:{ exfalso. apply (H bus p); [ left; reflexivity | exact Ed ]. }
    cbn [for_each].
    pose proof (stop_server_run E bus display p l tr Ed) as R1. cbv zeta in R1.
    destruct (env_print E tr _) as [[] | e].
    2:{ rewrite (bind_raise _ _ _ _ _ _ _ R1).
        do 2 eexists. split; [ reflexivity | ].
        split; [ repeat constructor | ].
        eexists [], _. split; [ reflexivity | split; [ constructor | reflexivity ] ]. }
    destruct (env_terminate E _ p) as [[] | e].
    2:{ rewrite (bind_raise _ _ _ _ _ _ _ R1), <- app_assoc.
        do 2 eexists. split; [ reflexivity | ].
        split; [ repeat constructor | ].
        eexists [_], _. split; [ reflexivity | split; [ repeat constructor | reflexivity ] ]. }
    rewrite (bind_ok _ _ _ _ _ _ _ R1).
    match goal with
    | |- context [for_each items ?f l ?t] =>
        destruct (IH t) as (out & evs & E2 & F2 & H2)
    end.
    { intros b q Hin. apply (H b q). right. exact Hin. }
    rewrite E2, <- !app_assoc. cbn [app].
    do 2 eexists. split; [ reflexivity | ].
    split; [ repeat (constructor; [ exact I | ]); exact F2 | ].
    destruct out as [[] | e].
    + repeat (apply clean_cons; [ reflexivity | ]). exact H2.
    + destruct H2 as (evs' & ev & -> & C & Hf).
      eexists (_ :: _ :: evs'), ev. split; [ reflexivity | ].
      split; [ repeat (apply clean_cons; [ reflexivity | ]); exact C | exact Hf ].
Qed.

(** Leaving the [try] block: the [finally] block runs, and its exception,
    if any, replaces the pending outcome. *)
Lemma leave_run (E : environment) (A : Type) (l : xservers_locals) (r : result A)
  (tr : trace) :
  covered l ->
  exists out evs,
    leave E l r tr = (Some out, tr ++ evs) /\
    Forall shutdown_event evs /\
    ((out = r /\ clean evs) \/
     (exists e evs' ev,
        out = Raise e /\ evs = evs' ++ [ev] /\ clean evs' /\ failure ev = Some e)).
Proof.
  intros Hcov.
  destruct (stop_loop_general E l (dict_items (servers l)) tr) as (out & evs & R & F & H).
  { intros bus p Hin. apply Hcov. eapply dict_get_in. exact Hin. }
  unfold leave, call, try_finally, lift_result, xservers_stop, bind, gets.
  rewrite R. destruct out as [[] | e].
  - exists r, evs. split; [ reflexivity | split; [ exact F | left; auto ] ].
  - exists (Raise e), evs. split; [ reflexivity | split; [ exact F | right ] ].
    destruct H as (evs' & ev & H). exists e, evs', ev. split; [ reflexivity | exact H ].
Qed.

Lemma leave_ok (E : environment) (A : Type) (l : xservers_locals) (r : result A)
  (tr evs : trace) :
  (forall tr', xservers_stop E l tr' = (Some (Ok tt), l, tr' ++ evs)) ->
  leave E l r tr = (Some r, tr ++ evs).
Proof.
  intros H. unfold leave, call, try_finally, lift_result. rewrite H. reflexivity.
Qed.

(** [with xservers(buses) as ds: body(ds)], given the run of its start-up:
    the body receives the mapping, and the [finally] block runs when the
    start-up fails and when the body ends. *)
Lemma xservers_unfold (E : environment) (A : Type) (buses : list string)
  (body : dict string -> proc A) (tr evs1 : trace)
  (out0 : result unit) (l1 : xservers_locals) :
  xservers_start E buses no_servers tr = (Some out0, l1, tr ++ evs1) ->
  xservers E buses body tr =
    match out0 with
    | Raise e => leave E l1 (Raise e) (tr ++ evs1)
    | Ok _ =>
        match body (displays l1) (tr ++ evs1) with
        | (Some r, tr2) => leave E l1 r tr2
        | (None, tr2) => (None, tr2)
        end
    end.
Proof.
  intros Hstart.
  unfold xservers, leave, call, try_finally, bind, gets, lift, lift_result.
  fold no_servers. rewrite Hstart.
  destruct out0 as [[] | e].
  - destruct (body (displays l1) (tr ++ evs1)) as [[r | ] tr2]; [ | reflexivity ].
    destruct (xservers_stop E l1 tr2) as [[[[[] | e] | ] l2] tr3]; reflexivity.
  - destruct (xservers_stop E l1 (tr ++ evs1)) as [[[[[] | e'] | ] l2] tr3]; reflexivity.
Qed.

(** The same, given the run of a [finally] block that does not fail. *)
Lemma xservers_run (E : environment) (A : Type) (buses : list string)
  (body : dict string -> proc A) (tr evs1 evs3 : trace)
  (out0 : result unit) (l1 : xservers_locals) :
  xservers_start E buses no_servers tr = (Some out0, l1, tr ++ evs1) ->
  (forall tr', xservers_stop E l1 tr' = (Some (Ok tt), l1, tr' ++ evs3)) ->
  xservers E buses body tr =
    match out0 with
    | Raise e => (Some (Raise e), tr ++ evs1 ++ evs3)
    | Ok _ =>
        match body (displays l1) (tr ++ evs1) with
        | (Some r, tr2) => (Some r, tr2 ++ evs3)
        | (None, tr2) => (None, tr2)
        end
    end.
Proof.
  intros Hstart Hstop.
  rewrite (xservers_unfold E A buses body tr evs1 out0 l1 Hstart).
  destruct out0 as [[] | e].
  - destruct (body (displays l1) (tr ++ evs1)) as [[r | ] tr2]; [ | reflexivity ].
    apply leave_ok, Hstop.
  - rewrite (leave_ok E A l1 (Raise e) _ evs3 Hstop), <- app_assoc. reflexivity.
Qed.

Lemma enumerate_snd {A : Type} (l : list A) : map snd (enumerate l) = l.
Proof.
  unfold enumerate. generalize 0%nat.
  induction l as [ | a l IH ]; intros k; [ reflexivity | ].
  cbn [List.length seq combine map snd]. rewrite IH. reflexivity.
Qed.

Lemma combine_snd {A B : Type} (l : list A) (l' : list B) :
  List.length l = List.length l' -> map snd (combine l l') = l'.
Proof.
  revert l'. induction l as [ | a l IH ]; intros [ | b l' ] H; try discriminate.
  - reflexivity.
  - cbn [combine map snd]. rewrite IH by (injection H; auto). reflexivity.
Qed.

(** The start-up loop of [xservers], from the empty mappings. *)
Lemma xservers_start_inv (E : environment) (buses : list string) (tr : trace) :
  NoDup buses ->
  exists out l' evs,
    xservers_start E buses no_servers tr = (Some out, l', tr ++ evs) /\
    terminated evs = [] /\ map snd (servers l') = spawned evs /\ covered l'.
Proof.
  intros Hnd. unfold xservers_start.
  destruct (start_loop_inv E (enumerate buses) no_servers tr)
    as (out & l' & evs & R & T & S & C).
  - rewrite enumerate_snd. exact Hnd.
  - reflexivity.
  - intros bus H. exfalso. apply H. reflexivity.
  - exists out, l', evs. auto.
Qed.

(** C5, for distinct bus IDs.  For a list of pairwise distinct bus IDs, and
    where announcing, configuring and starting an X server never fail,
    [xservers] serves the GPUs in the order of the list: for the [i]-th bus
    it prints the line announcing display [:i], writes the configuration of
    that bus and starts [Xorg] on display [:i] with that configuration, one
    server per bus.  The body of the [with] block receives the mapping of
    the [i]-th bus to [:i], whose display IDs are pairwise distinct; when
    the body ends, the [finally] block runs on the servers that were
    started. *)
Theorem xservers_one_display_per_bus (E : environment) (buses : list string) (tr : trace) :
  NoDup buses -> spawns_succeed E ->
  exists ds l1 evs1,
    ds = combine buses (map display_id (seq 0 (List.length buses))) /\
    (forall i bus, nth_error buses i = Some bus -> dict_get ds bus = Some (display_id i)) /\
    NoDup (map snd (dict_items ds)) /\
    startup_shape (enumerate buses) evs1 /\
    configured evs1 = buses /\
    spawn_displays evs1 = map snd (dict_items ds) /\
    List.length (spawned evs1) = List.length buses /\
    map snd (servers l1) = spawned evs1 /\
    forall (A : Type) (body : dict string -> proc A),
      xservers E buses body tr =
        match body ds (tr ++ evs1) with
        | (Some r, tr2) => leave E l1 r tr2
        | (None, tr2) => (None, tr2)
        end.
Proof.
  intros Hnd HE.
  destruct (start_loop_ok E buses 0 no_servers tr HE Hnd)
    as (l1 & evs1 & R & D & H & C & P & N); [ reflexivity | ].
  destruct (xservers_start_inv E buses tr Hnd) as (out & l' & evs & R' & _ & S & _).
  unfold xservers_start, enumerate in R'. rewrite R in R'.
  injection R' as <- <- Hevs. apply app_inv_head in Hevs. subst evs.
  cbn [displays no_servers app] in D.
  set (ids := map display_id (seq 0 (List.length buses))) in *.
  assert (Hlen : List.length buses = List.length ids)
    by (unfold ids; rewrite length_map, length_seq; reflexivity).
  exists (combine buses ids), l1, evs1.
  split; [ reflexivity | ].
  split.
  { intros i bus Hi. apply (dict_get_combine buses ids i); try assumption.
    unfold ids. rewrite nth_error_map, nth_error_seq.
    assert (i < List.length buses)%nat by (apply nth_error_Some; congruence).
    destruct (Nat.ltb_spec i (List.length buses)); [ reflexivity | lia ]. }
  unfold dict_items. rewrite (combine_snd buses ids Hlen).
  split; [ apply display_ids_distinct | ].
  split; [ exact H | ].
  repeat (split; [ assumption | ]).
  intros A body.
  rewrite (xservers_unfold E A buses body tr evs1 (Ok tt) l1 R), D.
  reflexivity.
Qed.

Lemma xservers_one_display_per_bus_witness :
  NoDup (dict_keys two_gpus) /\ spawns_succeed steady /\
  exists ds l1 evs1,
    ds = combine (dict_keys two_gpus)
           (map display_id (seq 0 (List.length (dict_keys two_gpus)))) /\
    (forall i bus, nth_error (dict_keys two_gpus) i = Some bus ->
                   dict_get ds bus = Some (display_id i)) /\
    NoDup (map snd (dict_items ds)) /\
    startup_shape (enumerate (dict_keys two_gpus)) evs1 /\
    configured evs1 = dict_keys two_gpus /\
    spawn_displays evs1 = map snd (dict_items ds) /\
    List.length (spawned evs1) = List.length (dict_keys two_gpus) /\
    map snd (servers l1) = spawned evs1 /\
    forall (A : Type) (body : dict string -> proc A),
      xservers steady (dict_keys two_gpus) body [] =
        match body ds ([] ++ evs1) with
        | (Some r, tr2) => leave steady l1 r tr2
        | (None, tr2) => (None, tr2)
        end.
Proof.
  assert (Hnd : NoDup (dict_keys two_gpus)).
  { repeat constructor; cbn; intuition discriminate. }
  assert (HE : spawns_succeed steady).
  { split; [ | split ]; [ intros tr d | intros tr bus; eexists | intros tr argv ];
      reflexivity. }
  split; [ exact Hnd | split; [ exact HE | ] ].
  exact (xservers_one_display_per_bus steady (dict_keys two_gpus) [] Hnd HE).
Defined.

(** C5 does not hold for every list: when a bus ID occurs twice, two servers
    are started for it, on displays [:0] and [:1], and the mapping sends the
    bus, although it is the 0-th of the list, to [:1].  Nor does it hold when
    a server does not start: the exception leaves [xservers] and the body
    receives no mapping. *)
Lemma xservers_mapping_fails :
  (let run := xservers steady ["00000000:01:00.0"; "00000000:01:00.0"]%string idle_body [] in
   fst run = Some (Ok [("00000000:01:00.0", ":1")]%string) /\
   spawn_displays (snd run) = [":0"; ":1"]%string) /\
  (let run := xservers second_server_fails (dict_keys two_gpus) idle_body [] in
   fst run = Some (Raise OSError) /\
   spawn_displays (snd run) = [":0"]%string).
Proof. repeat split; vm_compute; reflexivity. Qed.

(** C6, for distinct bus IDs and a clean-up that works.  For a list of
    pairwise distinct bus IDs, and where announcing the end of a server and
    terminating it never fail: whenever control leaves the body of the
    [with] block (by an exception of the start-up, or when the body returns
    or raises), the [finally] block sends a termination signal, in order and
    once each, to exactly the servers that were started, none of its calls
    fails, and the outcome of the start-up or of the body is propagated.
    During the start-up nothing is terminated. *)
Theorem xservers_terminates_spawned (E : environment) (buses : list string) (tr : trace) :
  NoDup buses -> stops_succeed E ->
  exists (out0 : result unit) ds evs1 evs3,
    terminated evs1 = [] /\
    terminated evs3 = spawned evs1 /\
    spawned evs3 = [] /\
    clean evs3 /\
    forall (A : Type) (body : dict string -> proc A),
      xservers E buses body tr =
        match out0 with
        | Raise e => (Some (Raise e), tr ++ evs1 ++ evs3)
        | Ok _ =>
            match body ds (tr ++ evs1) with
            | (Some r, tr2) => (Some r, tr2 ++ evs3)
            | (None, tr2) => (None, tr2)
            end
        end.
Proof.
  intros Hnd HE.
  destruct (xservers_start_inv E buses tr Hnd) as (out0 & l1 & evs1 & R & T & S & Hcov).
  destruct (xservers_stop_run E l1 HE Hcov) as (evs3 & T3 & S3 & C3 & _ & Hstop).
  exists out0, (displays l1), evs1, evs3.
  split; [ exact T | split; [ congruence | split; [ exact S3 | split; [ exact C3 | ] ] ] ].
  intros A body. apply xservers_run; assumption.
Qed.

Lemma xservers_terminates_spawned_witness :
  NoDup (dict_keys two_gpus) /\ stops_succeed second_server_fails /\
  exists (out0 : result unit) ds evs1 evs3,
    terminated evs1 = [] /\
    terminated evs3 = spawned evs1 /\
    spawned evs3 = [] /\
    clean evs3 /\
    forall (A : Type) (body : dict string -> proc A),
      xservers second_server_fails (dict_keys two_gpus) body [] =
        match out0 with
        | Raise e => (Some (Raise e), [] ++ evs1 ++ evs3)
        | Ok _ =>
            match body ds ([] ++ evs1) with
            | (Some r, tr2) => (Some r, tr2 ++ evs3)
            | (None, tr2) => (None, tr2)
            end
        end.
Proof.
  assert (Hnd : NoDup (dict_keys two_gpus)).
  { repeat constructor; cbn; intuition discriminate. }
  assert (HE : stops_succeed second_server_fails).
  { split; [ intros tr d | intros tr p ]; reflexivity. }
  split; [ exact Hnd | split; [ exact HE | ] ].
  exact (xservers_terminates_spawned second_server_fails (dict_keys two_gpus) [] Hnd HE).
Defined.

(** C6 does not hold for every list: when a bus ID occurs twice, the second
    server replaces the first one in [servers]; two servers are started and
    only the second is terminated.  Nor does it hold when the clean-up
    itself fails: once the standard output is closed, the line that
    announces the end of the first server cannot be printed, the [finally]
    block is left with that exception, and neither server is terminated. *)
Lemma duplicate_bus_leaks_server :
  (let run := xservers steady ["00000000:01:00.0"; "00000000:01:00.0"]%string idle_body [] in
   fst run = Some (Ok [("00000000:01:00.0", ":1")]%string) /\
   spawned (snd run) = [2; 5]%nat /\
   terminated (snd run) = [5]%nat) /\
  (let run := xservers stdout_closed (dict_keys two_gpus) idle_body [] in
   fst run = Some (Raise OSError) /\
   spawned (snd run) = [2; 5]%nat /\
   terminated (snd run) = []).
Proof. repeat split; vm_compute; reflexivity. Qed.

(** The whole program on a machine with two GPUs whose second X server does
    not start: the first server is terminated and no fan is touched. *)
Example run_second_server_fails :
  run second_server_fails 10 [] =
    (Some (Raise OSError),
     [EvGpuBuses (Ok ["00000000:01:00.0"; "00000000:02:00.0"]%string);
      EvPrint "Starting xserver for display :0" (Ok tt);
      EvConfig "00000000:01:00.0" (Ok "/tmp/cool-gpu-00000000:01:00.0/xorg.conf"%string);
      EvPopen ["Xorg"; ":0"; "-once"; "-config";
               "/tmp/cool-gpu-00000000:01:00.0/xorg.conf"]%string (Ok 3%nat);
      EvPrint "Starting xserver for display :1" (Ok tt);
      EvConfig "00000000:02:00.0" (Ok "/tmp/cool-gpu-00000000:02:00.0/xorg.conf"%string);
      EvPopen ["Xorg"; ":1"; "-once"; "-config";
               "/tmp/cool-gpu-00000000:02:00.0/xorg.conf"]%string (Raise OSError);
      EvPrint "Terminating xserver for display :0" (Ok tt);
      EvTerminate 3 (Ok tt)]).
Proof. vm_compute. reflexivity. Qed.

(** * Further properties of the control law *)

(** X1.  The only way the fan curve fails is the overflow of the conversion
    to a double: [min_speed] raises OverflowError exactly above
    [T_MIN + R], [max_speed] exactly below [T_MAX - R], where [R] is the
    integer square root of [huge - 1]; no bound and no target speed ever
    raises another exception. *)
Theorem curve_errors (s t : Z) :
  let R := Z.sqrt (PyFloat.huge - 1) in
  (min_speed t = Raise OverflowError <-> T_MIN + R < t) /\
  (max_speed t = Raise OverflowError <-> t < T_MAX - R) /\
  (forall e, min_speed t = Raise e \/ max_speed t = Raise e \/ target_speed s t = Raise e ->
             e = OverflowError).
Proof.
  intros R.
  assert (Hh : 0 <= PyFloat.huge - 1) by (vm_compute; discriminate).
  pose proof (Z.sqrt_spec (PyFloat.huge - 1) Hh) as [Lo Hi].
  pose proof (Z.sqrt_nonneg (PyFloat.huge - 1)) as Hr.
  fold R in Lo, Hi, Hr. unfold Z.succ in Hi.
  assert (Hmin : T_MIN + R < t <-> (T_MIN <= t /\ PyFloat.huge <= (t - T_MIN) ^ 2)).
  { unfold T_MIN. set (h := PyFloat.huge) in *. split; [ intros H | intros [A B] ].
    - split; [ lia | nia ].
    - destruct (Z_lt_le_dec (50 + R) t); [ assumption | nia ]. }
  assert (Hmax : t < T_MAX - R <-> (t <= T_MAX /\ PyFloat.huge <= (t - T_MAX) ^ 2)).
  { unfold T_MAX. set (h := PyFloat.huge) in *. split; [ intros H | intros [A B] ].
    - split; [ lia | nia ].
    - destruct (Z_lt_le_dec t (80 - R)); [ assumption | nia ]. }
  pose proof (min_speed_cases t) as Emin.
  pose proof (max_speed_cases t) as Emax.
  split; [ | split ].
  - rewrite Hmin. split.
    + intros H. destruct (Z_lt_le_dec t T_MIN) as [C | C].
      * rewrite min_speed_cold in H by exact C. discriminate.
      * split; [ exact C | ].
        destruct (Z_lt_le_dec ((t - T_MIN) ^ 2) PyFloat.huge) as [D | D]; [ | exact D ].
        rewrite min_speed_curve in H by (intros _; exact D). discriminate.
    + intros [A B]. apply min_speed_overflow; assumption.
  - rewrite Hmax. split.
    + intros H. destruct (Z_lt_le_dec T_MAX t) as [C | C].
      * rewrite max_speed_hot in H by exact C. discriminate.
      * split; [ exact C | ].
        destruct (Z_lt_le_dec ((t - T_MAX) ^ 2) PyFloat.huge) as [D | D]; [ | exact D ].
        rewrite max_speed_curve in H by (intros _; exact D). discriminate.
    + intros [A B]. apply max_speed_overflow; assumption.
  - intros e [H | [H | H]].
    + destruct Emin as [E | E]; rewrite E in H; congruence.
    + destruct Emax as [E | E]; rewrite E in H; congruence.
    + apply (target_speed_raise s t e H).
Qed.

(** X2.  Saturation.  Wherever both bounds are computed, the band is a
    single point exactly at or below [T_MIN], where the target is [S_MIN]
    whatever the current speed, and at or above [T_MAX], where it is
    [S_MAX]; strictly between [T_MIN] and [T_MAX] the lower bound is
    strictly below the upper one. *)
Theorem band_degenerate_iff_saturated (t : Z) :
  no_overflow t ->
  exists l u,
    min_speed t = Ok l /\ max_speed t = Ok u /\
    (l = u <-> t <= T_MIN \/ T_MAX <= t) /\
    (t <= T_MIN -> forall s, target_speed s t = Ok (S_MIN, S_MIN, S_MIN)) /\
    (T_MAX <= t -> forall s, target_speed s t = Ok (S_MAX, S_MAX, S_MAX)).
Proof.
  intros H.
  destruct (target_speed_curve 0 t H) as (El & Eu & _).
  exists (min_curve t), (max_curve t).
  assert (Cold : t <= T_MIN -> min_curve t = S_MIN /\ max_curve t = S_MIN).
  { intros C. split; [ | apply max_curve_cold; exact C ].
    pose proof (min_curve_bounds t). pose proof (min_curve_mono t T_MIN C).
    destruct curves_agree_at_ends as (A & _). lia. }
  assert (Hot : T_MAX <= t -> min_curve t = S_MAX /\ max_curve t = S_MAX).
  { intros C. split; [ apply min_curve_hot; exact C | ].
    pose proof (max_curve_bounds t). pose proof (max_curve_mono T_MAX t C).
    destruct curves_agree_at_ends as (_ & _ & _ & A). lia. }
  split; [ exact El | split; [ exact Eu | split; [ | split ] ] ].
  - split.
    + intros E.
      destruct (Z_le_gt_dec t T_MIN); [ left; assumption | ].
      destruct (Z_le_gt_dec T_MAX t); [ right; assumption | exfalso ].
      assert (W : (min_curve t <? max_curve t) = true).
      { apply (Zrange_forallb (fun t => min_curve t <? max_curve t) 51 29);
          [ vm_compute; reflexivity | unfold T_MIN, T_MAX in *; lia ]. }
      apply Z.ltb_lt in W. lia.
    + intros [C | C]; [ destruct (Cold C) | destruct (Hot C) ]; congruence.
  - intros C s. destruct (target_speed_curve s t H) as (_ & _ & ->).
    destruct (Cold C) as [-> ->]. f_equal. f_equal. f_equal. lia.
  - intros C s. destruct (target_speed_curve s t H) as (_ & _ & ->).
    destruct (Hot C) as [-> ->]. f_equal. f_equal. f_equal. lia.
Qed.

Lemma band_degenerate_iff_saturated_witness :
  no_overflow 40 /\
  exists l u,
    min_speed 40 = Ok l /\ max_speed 40 = Ok u /\
    (l = u <-> 40 <= T_MIN \/ T_MAX <= 40) /\
    (40 <= T_MIN -> forall s, target_speed s 40 = Ok (S_MIN, S_MIN, S_MIN)) /\
    (T_MAX <= 40 -> forall s, target_speed s 40 = Ok (S_MAX, S_MAX, S_MAX)).
Proof.
  assert (H : no_overflow 40) by (split; intros _; vm_compute; reflexivity).
  split; [ exact H | exact (band_degenerate_iff_saturated 40 H) ].
Defined.

(** * [decimalize] *)

Lemma drop_prefix (prefix s : string) : drop (String.length prefix) (prefix ++ s) = s.
Proof. induction prefix as [ | c prefix IH ]; [ destruct s | ]; cbn; auto. Qed.

Lemma drop_short (n : nat) (s : string) : (String.length s <= n)%nat -> drop n s = EmptyString.
Proof.
  revert s. induction n as [ | n IH ]; intros [ | c s ] H; cbn in *; try reflexivity; try lia.
  apply IH. lia.
Qed.

Lemma re_split_nonempty (s : string) : re_split s <> [].
Proof.
  induction s as [ | c s IH ]; cbn [re_split]; [ discriminate | ].
  destruct (is_sep c); [ discriminate | ].
  destruct (re_split s); discriminate.
Qed.

Lemma re_split_sep_free (p : string) : sep_free p = true -> re_split p = [p].
Proof.
  induction p as [ | c p IH ]; cbn [sep_free re_split]; [ reflexivity | ].
  intros H. apply Bool.andb_true_iff in H as [Hc Hp].
  apply Bool.negb_true_iff in Hc. rewrite Hc, (IH Hp). reflexivity.
Qed.

Lemma re_split_app_sep (p : string) (c : ascii) (s : string) :
  sep_free p = true -> is_sep c = true ->
  re_split (p ++ String c s) = p :: re_split s.
Proof.
  intros Hp Hc. induction p as [ | a p IH ]; cbn [append re_split sep_free] in *.
  - rewrite Hc. reflexivity.
  - apply Bool.andb_true_iff in Hp as [Ha Hp].
    apply Bool.negb_true_iff in Ha. rewrite Ha, (IH Hp). reflexivity.
Qed.

(** Splitting undoes weaving. *)
Lemma re_split_weave (p : string) (rest : list (ascii * string)) :
  sep_free p = true ->
  Forall (fun cq => is_sep (fst cq) = true /\ sep_free (snd cq) = true) rest ->
  re_split (weave p rest) = p :: map snd rest.
Proof.
  intros Hp Hrest. revert p Hp.
  induction Hrest as [ | [c q] rest [Hc Hq] _ IH ]; intros p Hp; cbn [weave map snd].
  - apply re_split_sep_free, Hp.
  - rewrite re_split_app_sep by assumption. rewrite IH by assumption. reflexivity.
Qed.

Lemma hex_digit_not_sep (c : ascii) (d : Z) : hex_digit c = Some d -> is_sep c = false.
Proof.
  intros H. unfold is_sep.
  destruct (Ascii.eqb_spec c ":") as [-> | _]; [ discriminate H | ].
  destruct (Ascii.eqb_spec c ".") as [-> | _]; [ discriminate H | reflexivity ].
Qed.

Lemma hex_from_sep_free (s : string) (acc v : Z) : hex_from acc s = Some v -> sep_free s = true.
Proof.
  revert acc. induction s as [ | c s IH ]; intros acc; cbn [hex_from sep_free]; [ reflexivity | ].
  destruct (hex_digit c) as [d | ] eqn:Ed; [ | discriminate ].
  intros H. rewrite (hex_digit_not_sep c d Ed), (IH _ H). reflexivity.
Qed.

Lemma hexadecimal_sep_free (s : string) (v : Z) : hexadecimal s = Some v -> sep_free s = true.
Proof. destruct s; [ discriminate | ]. apply hex_from_sep_free. Qed.

Lemma py_str_printable (d v : Z) : printable d v -> py_str d v = Ok (str_int v).
Proof.
  unfold printable, py_str. intros H.
  destruct (Z.ltb_spec 0 d); [ | reflexivity ].
  destruct (Z.leb_spec (10 ^ d) (Z.abs v)); [ lia | reflexivity ].
Qed.

Lemma printable_below (d k v : Z) : 0 <= k <= d -> Z.abs v < 10 ^ k -> printable d v.
Proof.
  intros Hk Hv. right.
  assert (10 ^ k <= 10 ^ d) by (apply Z.pow_le_mono_r; lia). lia.
Qed.

Lemma py_str_cases (d v : Z) : py_str d v = Ok (str_int v) \/ py_str d v = Raise ValueError.
Proof. unfold py_str. destruct (_ && _)%bool; auto. Qed.

(** The comprehension of [decimalize] on pieces that are hexadecimal. *)
Lemma comprehension_hex (int16 : string -> result Z) (d : Z) (pieces : list string)
  (vs : list Z) :
  reads_hex int16 ->
  Forall2 (fun q v => hexadecimal q = Some v) pieces vs ->
  (Forall (printable d) vs ->
   comprehension (component int16 d) pieces = Ok (map str_int vs)) /\
  (forall parts, comprehension (component int16 d) pieces = Ok parts ->
                 parts = map str_int vs).
Proof.
  intros Hint. induction 1 as [ | q v pieces vs Hq _ [IH1 IH2] ]; cbn [comprehension map].
  - split; [ reflexivity | intros parts [= <-]; reflexivity ].
  - unfold component at 1 3. rewrite (Hint q v Hq). cbn [rbind]. split.
    + intros Hp. inversion Hp as [ | ? ? Hv Hvs ]; subst.
      rewrite (py_str_printable d v Hv), (IH1 Hvs). reflexivity.
    + intros parts. destruct (py_str_cases d v) as [-> | ->]; [ | discriminate ].
      destruct (comprehension (component int16 d) pieces) as [ps | e]; [ | discriminate ].
      intros [= <-]. rewrite (IH2 ps eq_refl). reflexivity.
Qed.

Lemma weave_pieces_sep_free (p : string) (rest : list (ascii * string)) (vs : list Z) :
  Forall (fun cq => is_sep (fst cq) = true) rest ->
  Forall2 (fun q v => hexadecimal q = Some v) (p :: map snd rest) vs ->
  sep_free p = true /\
  Forall (fun cq => is_sep (fst cq) = true /\ sep_free (snd cq) = true) rest.
Proof.
  intros Hseps Hvals. inversion Hvals as [ | ? ? ? vs' Hp Hrest ]; subst.
  split; [ eapply hexadecimal_sep_free; eassumption | ].
  clear - Hseps Hrest.
  revert vs' Hrest. induction Hseps as [ | [c q] rest Hc _ IH ]; intros vs' Hrest.
  - constructor.
  - cbn [map snd] in Hrest. inversion Hrest; subst.
    constructor; [ split; [ exact Hc | eapply hexadecimal_sep_free; eassumption ] | ].
    eapply IH; eassumption.
Qed.

Lemma decimalize_bus_values (int16 : string -> result Z) (d : Z) (bus : string)
  (vs : list Z) :
  reads_hex int16 -> bus_values bus vs ->
  vs <> [] /\
  (Forall (printable d) vs ->
   decimalize int16 d bus = Ok (String.concat ":" (map str_int vs))) /\
  (forall s, decimalize int16 d bus = Ok s -> s = String.concat ":" (map str_int vs)).
Proof.
  intros Hint (prefix & p & rest & -> & Hlen & Hseps & Hvals).
  split; [ inversion Hvals; discriminate | ].
  destruct (weave_pieces_sep_free p rest vs Hseps Hvals) as [Hp Hrest].
  destruct (comprehension_hex int16 d _ vs Hint Hvals) as [C1 C2].
  unfold decimalize. rewrite <- Hlen, drop_prefix, re_split_weave by assumption.
  split.
  - intros Hv. rewrite (C1 Hv). reflexivity.
  - intros s. destruct (comprehension (component int16 d) _) as [parts | e];
      [ | discriminate ].
    intros [= <-]. rewrite (C2 parts eq_refl). reflexivity.
Qed.

Lemma int16_literal_reads_hex : reads_hex int16_literal.
Proof. intros p v H. cbn. rewrite H. reflexivity. Qed.

(** X3.  On a bus ID made of nine leading characters followed by pieces of
    hexadecimal digits separated by [:] or [.], [decimalize] drops the nine
    characters (the PCI domain and its colon) and returns the decimal values
    of the pieces joined by colons, provided [str] converts them. *)
Theorem decimalize_hex_pieces (int16 : string -> result Z) (d : Z) (prefix p : string)
  (rest : list (ascii * string)) (vs : list Z) :
  reads_hex int16 ->
  String.length prefix = 9%nat ->
  Forall (fun cq => is_sep (fst cq) = true) rest ->
  Forall2 (fun q v => hexadecimal q = Some v) (p :: map snd rest) vs ->
  Forall (printable d) vs ->
  decimalize int16 d (prefix ++ weave p rest) = Ok (String.concat ":" (map str_int vs)).
Proof.
  intros Hint Hlen Hseps Hvals Hp.
  apply (decimalize_bus_values int16 d _ vs Hint); [ | exact Hp ].
  exists prefix, p, rest. auto.
Qed.

Lemma decimalize_hex_pieces_witness :
  reads_hex int16_literal /\
  String.length "00000000:" = 9%nat /\
  Forall (fun cq => is_sep (fst cq) = true) [(":"%char, "1F"); ("."%char, "0")]%string /\
  Forall2 (fun q v => hexadecimal q = Some v) ["0A"; "1F"; "0"]%string [10; 31; 0] /\
  Forall (printable 4300) [10; 31; 0] /\
  decimalize int16_literal 4300 "00000000:0A:1F.0" = Ok "10:31:0"%string.
Proof.
  assert (H1 : reads_hex int16_literal) by exact int16_literal_reads_hex.
  assert (H2 : String.length "00000000:" = 9%nat) by reflexivity.
  assert (H3 : Forall (fun cq => is_sep (fst cq) = true)
                 [(":"%char, "1F"); ("."%char, "0")]%string)
    by (repeat constructor).
  assert (H4 : Forall2 (fun q v => hexadecimal q = Some v)
                 ["0A"; "1F"; "0"]%string [10; 31; 0])
    by (repeat constructor).
  assert (H5 : Forall (printable 4300) [10; 31; 0]).
  { repeat constructor; apply (printable_below 4300 2); cbn; lia. }
  split; [ exact H1 | split; [ exact H2 | split; [ exact H3 | split; [ exact H4 | ] ] ] ].
  split; [ exact H5 | ].
  exact (decimalize_hex_pieces int16_literal 4300 "00000000:" "0A"
           [(":"%char, "1F"); ("."%char, "0")]%string [10; 31; 0] H1 H2 H3 H4 H5).
Defined.

(** X4.  A bus ID of at most nine characters leaves nothing after the
    domain: the only piece is empty and [decimalize] raises ValueError. *)
Theorem decimalize_short (int16 : string -> result Z) (d : Z) (bus : string) :
  rejects_bare_prefix int16 ->
  (String.length bus <= 9)%nat ->
  decimalize int16 d bus = Raise ValueError.
Proof.
  intros Hint Hlen. unfold decimalize.
  rewrite (drop_short 9 bus Hlen). cbn [re_split comprehension]. unfold component.
  cbn [append]. rewrite Hint. reflexivity.
Qed.

Lemma decimalize_short_witness :
  rejects_bare_prefix int16_literal /\
  (String.length "00000000:" <= 9)%nat /\
  decimalize int16_literal 4300 "00000000:" = Raise ValueError.
Proof.
  assert (H1 : rejects_bare_prefix int16_literal) by reflexivity.
  assert (H2 : (String.length "00000000:" <= 9)%nat) by (cbn; lia).
  split; [ exact H1 | split; [ exact H2 | ] ].
  exact (decimalize_short int16_literal 4300 "00000000:" H1 H2).
Defined.

Lemma str_int_inj (a b : Z) : str_int a = str_int b -> a = b.
Proof.
  unfold str_int. intros H.
  assert (N : forall z, Z.to_int z <> Decimal.Pos Decimal.Nil /\
                        Z.to_int z <> Decimal.Neg Decimal.Nil).
  { intros [ | p | p ]; cbn; split; try discriminate;
      intros C; injection C as C; exact (DecimalPos.Unsigned.to_uint_nonnil p C). }
  apply (f_equal NilZero.int_of_string) in H.
  rewrite !NilZero.isi in H by apply N.
  injection H as H. apply DecimalZ.to_int_inj, H.
Qed.

Lemma uint_sep_free (d : Decimal.uint) : sep_free (NilEmpty.string_of_uint d) = true.
Proof. induction d; cbn; auto. Qed.

Lemma str_int_sep_free (z : Z) : sep_free (str_int z) = true.
Proof.
  unfold str_int, NilZero.string_of_int, NilZero.string_of_uint.
  destruct (Z.to_int z) as [d | d]; destruct d; try reflexivity;
    cbn [sep_free]; try apply (uint_sep_free (_ d)).
  all: cbn; apply uint_sep_free.
Qed.

(** Splitting undoes joining. *)
Lemma re_split_concat (parts : list string) :
  parts <> [] -> Forall (fun s => sep_free s = true) parts ->
  re_split (String.concat ":" parts) = parts.
Proof.
  intros Hne H. induction H as [ | x xs Hx Hxs IH ]; [ contradiction | ].
  destruct xs as [ | y ys ].
  - apply re_split_sep_free, Hx.
  - change (String.concat ":" (x :: y :: ys))
      with (x ++ String ":" (String.concat ":" (y :: ys)))%string.
    rewrite re_split_app_sep by (assumption || reflexivity).
    rewrite IH by discriminate. reflexivity.
Qed.

Lemma map_str_int_inj (vs1 vs2 : list Z) : map str_int vs1 = map str_int vs2 -> vs1 = vs2.
Proof.
  revert vs2. induction vs1 as [ | a vs1 IH ]; intros [ | b vs2 ] H; try discriminate.
  - reflexivity.
  - cbn [map] in H. injection H as Ha Hvs. rewrite (str_int_inj a b Ha), (IH vs2 Hvs).
    reflexivity.
Qed.

(** X5.  [decimalize] keeps the components apart: two bus IDs with the same
    result have the same component values; the result loses only the domain,
    the case of the digits, leading zeros and the kind of separator. *)
Theorem decimalize_injective (int16 : string -> result Z) (d : Z) (bus1 bus2 : string)
  (vs1 vs2 : list Z) (s : string) :
  reads_hex int16 ->
  bus_values bus1 vs1 -> bus_values bus2 vs2 ->
  decimalize int16 d bus1 = Ok s -> decimalize int16 d bus2 = Ok s ->
  vs1 = vs2.
Proof.
  intros Hint H1 H2 E1 E2.
  destruct (decimalize_bus_values int16 d bus1 vs1 Hint H1) as (N1 & _ & S1).
  destruct (decimalize_bus_values int16 d bus2 vs2 Hint H2) as (N2 & _ & S2).
  pose proof (S1 s E1) as Heq. rewrite (S2 s E2) in Heq.
  apply (f_equal re_split) in Heq.
  assert (S : forall vs, Forall (fun s => sep_free s = true) (map str_int vs)).
  { intros vs. apply Forall_map, Forall_forall. intros v _. apply str_int_sep_free. }
  rewrite !re_split_concat in Heq
    by (try apply S; destruct vs1, vs2; try discriminate; contradiction).
  symmetry. apply map_str_int_inj, Heq.
Qed.

Lemma decimalize_injective_witness :
  reads_hex int16_literal /\
  bus_values "00000000:0A:1F.0" [10; 31; 0] /\
  bus_values "00000001:0a:01f.0" [10; 31; 0] /\
  decimalize int16_literal 4300 "00000000:0A:1F.0" = Ok "10:31:0"%string /\
  decimalize int16_literal 4300 "00000001:0a:01f.0" = Ok "10:31:0"%string /\
  [10; 31; 0] = [10; 31; 0].
Proof.
  assert (H0 : reads_hex int16_literal) by exact int16_literal_reads_hex.
  assert (H1 : bus_values "00000000:0A:1F.0" [10; 31; 0]).
  { exists "00000000:"%string, "0A"%string, [(":"%char, "1F"); ("."%char, "0")]%string.
    split; [ reflexivity | split; [ reflexivity | split; repeat constructor ] ]. }
  assert (H2 : bus_values "00000001:0a:01f.0" [10; 31; 0]).
  { exists "00000001:"%string, "0a"%string, [(":"%char, "01f"); ("."%char, "0")]%string.
    split; [ reflexivity | split; [ reflexivity | split; repeat constructor ] ]. }
  assert (P : Forall (printable 4300) [10; 31; 0]).
  { repeat constructor; apply (printable_below 4300 2); cbn; lia. }
  assert (H3 : decimalize int16_literal 4300 "00000000:0A:1F.0" = Ok "10:31:0"%string)
    by (apply (decimalize_bus_values int16_literal 4300 _ _ H0 H1), P).
  assert (H4 : decimalize int16_literal 4300 "00000001:0a:01f.0" = Ok "10:31:0"%string)
    by (apply (decimalize_bus_values int16_literal 4300 _ _ H0 H2), P).
  split; [ exact H0 | split; [ exact H1 | split; [ exact H2 | ] ] ].
  split; [ exact H3 | split; [ exact H4 | ] ].
  exact (decimalize_injective int16_literal 4300 _ _ _ _ _ H0 H1 H2 H3 H4).
Defined.

(** A comprehension whose elements return or raise [e] ends with [e] when
    one of them raises. *)
Lemma comprehension_raise {A B : Type} (f : A -> result B) (front back : list A)
  (x : A) (e : exn) :
  Forall (fun a => (exists b, f a = Ok b) \/ f a = Raise e) front -> f x = Raise e ->
  comprehension f (front ++ x :: back) = Raise e.
Proof.
  intros Hfront Hx.
  induction Hfront as [ | a front [[b Hb] | Hb] _ IH ]; cbn [app comprehension].
  - rewrite Hx. reflexivity.
  - rewrite Hb. cbn [rbind]. rewrite IH. reflexivity.
  - rewrite Hb. reflexivity.
Qed.

(** X6.  An empty component (a separator at the end of the bus ID, or two
    separators in a row) after components of hexadecimal digits makes
    [decimalize] raise ValueError, whatever follows. *)
Theorem decimalize_empty_piece (int16 : string -> result Z) (d : Z) (prefix p : string)
  (rest : list (ascii * string)) (front back : list string) :
  reads_hex int16 -> rejects_bare_prefix int16 ->
  String.length prefix = 9%nat ->
  Forall (fun cq => is_sep (fst cq) = true /\ sep_free (snd cq) = true) rest ->
  sep_free p = true ->
  p :: map snd rest = front ++ EmptyString :: back ->
  Forall (fun q => exists v, hexadecimal q = Some v) front ->
  decimalize int16 d (prefix ++ weave p rest) = Raise ValueError.
Proof.
  intros Hint Hrej Hlen Hrest Hp Hsplit Hfront. unfold decimalize.
  rewrite <- Hlen, drop_prefix, re_split_weave, Hsplit by assumption.
  rewrite (comprehension_raise _ front back EmptyString ValueError).
  - reflexivity.
  - eapply Forall_impl; [ | exact Hfront ].
    intros q [v Hv]. unfold component. rewrite (Hint q v Hv). cbn [rbind].
    destruct (py_str_cases d v) as [-> | ->]; [ left; eexists; reflexivity | right; reflexivity ].
  - unfold component. cbn [append]. rewrite Hrej. reflexivity.
Qed.

Lemma decimalize_empty_piece_witness :
  reads_hex int16_literal /\ rejects_bare_prefix int16_literal /\
  String.length "00000000:" = 9%nat /\
  Forall (fun cq => is_sep (fst cq) = true /\ sep_free (snd cq) = true)
    [(":"%char, "00"); ("."%char, "")]%string /\
  sep_free "0A" = true /\
  "0A"%string :: map snd [(":"%char, "00"); ("."%char, "")]%string
    = ["0A"; "00"]%string ++ EmptyString :: [] /\
  Forall (fun q => exists v, hexadecimal q = Some v) ["0A"; "00"]%string /\
  decimalize int16_literal 4300 "00000000:0A:00." = Raise ValueError.
Proof.
  assert (H1 : reads_hex int16_literal) by exact int16_literal_reads_hex.
  assert (H2 : rejects_bare_prefix int16_literal) by reflexivity.
  assert (H3 : String.length "00000000:" = 9%nat) by reflexivity.
  assert (H4 : Forall (fun cq => is_sep (fst cq) = true /\ sep_free (snd cq) = true)
                 [(":"%char, "00"); ("."%char, "")]%string)
    by (repeat constructor).
  assert (H5 : sep_free "0A" = true) by reflexivity.
  assert (H6 : "0A"%string :: map snd [(":"%char, "00"); ("."%char, "")]%string
               = ["0A"; "00"]%string ++ EmptyString :: []) by reflexivity.
  assert (H7 : Forall (fun q => exists v, hexadecimal q = Some v) ["0A"; "00"]%string).
  { constructor; [ exists 10; reflexivity | ].
    constructor; [ exists 0; reflexivity | constructor ]. }
  split; [ exact H1 | split; [ exact H2 | split; [ exact H3 | split; [ exact H4 | ] ] ] ].
  split; [ exact H5 | split; [ exact H6 | split; [ exact H7 | ] ] ].
  exact (decimalize_empty_piece int16_literal 4300 "00000000:" "0A"
           [(":"%char, "00"); ("."%char, "")]%string ["0A"; "00"]%string [] H1 H2 H3 H4 H5 H6 H7).
Defined.

(** * What the program may do *)

Section Emits.

Context {L : Type} (P : event -> Prop).

Lemma emits_silent {A : Type} (c : io L A) :
  (forall l tr, snd (c l tr) = tr) -> emits P c.
Proof. intros H l tr. exists []. rewrite H, app_nil_r. auto. Qed.

Lemma emits_ret {A : Type} (a : A) : emits P (ret (L := L) a).
Proof. apply emits_silent. reflexivity. Qed.

Lemma emits_gets {A : Type} (f : L -> A) : emits P (gets f).
Proof. apply emits_silent. reflexivity. Qed.

Lemma emits_modify (f : L -> L) : emits P (modify f).
Proof. apply emits_silent. reflexivity. Qed.

Lemma emits_subscript {V : Type} (d : dict V) (k : string) : emits P (subscript (L := L) d k).
Proof. apply emits_silent. intros. unfold subscript. destruct (dict_get d k); reflexivity. Qed.

Lemma emits_external {A : Type} (ask : trace -> result A) (ev : result A -> event) :
  (forall r, P (ev r)) -> emits P (external (L := L) ask ev).
Proof. intros H l tr. exists [ev (ask tr)]. auto. Qed.

Lemma emits_print (E : environment) (line : string) :
  (forall r, P (EvPrint line r)) -> emits P (print (L := L) E line).
Proof. apply emits_external. Qed.

Lemma emits_bind {A B : Type} (c : io L A) (k : A -> io L B) :
  emits P c -> (forall a, emits P (k a)) -> emits P (bind c k).
Proof.
  intros Hc Hk l tr. unfold bind. destruct (Hc l tr) as (evs1 & E1 & F1).
  destruct (c l tr) as [[[[a | e] | ] l1] tr1]; cbn [snd] in E1; subst tr1.
  - destruct (Hk a l1 (tr ++ evs1)) as (evs2 & E2 & F2).
    exists (evs1 ++ evs2). rewrite E2, app_assoc.
    split; [ reflexivity | apply Forall_app; auto ].
  - exists evs1. auto.
  - exists evs1. auto.
Qed.

(** Only the value a fallible expression returns is passed on. *)
Lemma emits_bind_result {A B : Type} (r : result A) (k : A -> io L B) :
  (forall a, r = Ok a -> emits P (k a)) -> emits P (bind (lift_result r) k).
Proof.
  intros Hk l tr. unfold bind, lift_result. destruct r as [a | e].
  - apply Hk. reflexivity.
  - exists []. rewrite app_nil_r. auto.
Qed.

Lemma emits_for_each {X : Type} (xs : list X) (body : X -> io L unit) :
  (forall x, In x xs -> emits P (body x)) -> emits P (for_each xs body).
Proof.
  induction xs as [ | x xs IH ]; intros H; cbn [for_each].
  - apply emits_ret.
  - apply emits_bind; [ apply H; left; reflexivity | intros _ ].
    apply IH. intros y Hy. apply H. right. exact Hy.
Qed.

Lemma emits_while_true (fuel : nat) (body : io L unit) :
  emits P body -> emits P (while_true fuel body).
Proof.
  intros H. induction fuel as [ | fuel IH ]; cbn [while_true].
  - apply emits_silent. reflexivity.
  - apply emits_bind; [ exact H | intros _; exact IH ].
Qed.

Lemma emits_try_finally {A : Type} (c : io L A) (f : io L unit) :
  emits P c -> emits P f -> emits P (try_finally c f).
Proof.
  intros Hc Hf l tr. unfold try_finally. destruct (Hc l tr) as (evs1 & E1 & F1).
  destruct (c l tr) as [[[r | ] l1] tr1]; cbn [snd] in E1; subst tr1.
  - destruct (Hf l1 (tr ++ evs1)) as (evs2 & E2 & F2).
    exists (evs1 ++ evs2).
    split; [ | apply Forall_app; auto ].
    destruct (f l1 (tr ++ evs1)) as [[[[[] | e] | ] l2] tr2]; cbn [snd] in *;
      subst tr2; symmetry; apply app_assoc.
  - exists evs1. auto.
Qed.

Lemma emits_lift {A : Type} (p : proc A) : proc_emits P p -> emits P (lift (L := L) p).
Proof.
  intros H l tr. unfold lift. destruct (H tr) as (evs & E1 & F1).
  destruct (p tr) as [r tr1]. exists evs. auto.
Qed.

Lemma proc_emits_call {A : Type} (locals : L) (c : io L A) :
  emits P c -> proc_emits P (call locals c).
Proof.
  intros H tr. unfold call. destruct (H locals tr) as (evs & E1 & F1).
  destruct (c locals tr) as [[r l1] tr1]. exists evs. auto.
Qed.

End Emits.

Lemma emits_weaken {L A : Type} (P Q : event -> Prop) (c : io L A) :
  (forall ev, P ev -> Q ev) -> emits P c -> emits Q c.
Proof.
  intros H Hc l tr. destruct (Hc l tr) as (evs & E1 & F1).
  exists evs. split; [ exact E1 | ]. eapply Forall_impl; eassumption.
Qed.

Lemma manage_gpu_emits (E : environment) (displays : dict string) (bus display : string) :
  In (bus, display) (dict_items displays) ->
  emits (fan_event displays) (manage_gpu E bus display).
Proof.
  intros Hin.
  assert (Hb : In bus (dict_keys displays)) by (apply (in_map fst) in Hin; exact Hin).
  assert (Hd : In display (map snd (dict_items displays)))
    by (apply (in_map snd) in Hin; exact Hin).
  unfold manage_gpu.
  apply emits_bind; [ apply emits_external; intros r; exact Hb | intros temp ].
  apply emits_bind; [ apply emits_gets | intros speeds ].
  apply emits_bind; [ apply emits_subscript | intros cur ].
  apply emits_bind_result. intros [[s l] u] Hts.
  apply target_speed_in_range in Hts as (_ & _ & Hs & Hl & Hu & _).
  apply emits_bind; [ apply emits_gets | intros speeds' ].
  apply emits_bind; [ apply emits_subscript | intros cur' ].
  destruct (negb (s =? cur')).
  - apply emits_bind; [ | intros _ ].
    + unfold set_speed.
      apply emits_bind; [ | intros _ ]; apply emits_external; intros r;
        (split; [ exact Hd | ]).
      * left. reflexivity.
      * right. right. exists s. split; [ lia | reflexivity ].
    + apply emits_bind; [ apply emits_modify | intros _ ].
      apply emits_print. intros ?. exact I.
  - apply emits_print. intros ?. exact I.
Qed.

Lemma control_loop_emits (E : environment) (fuel : nat) (displays : dict string) :
  emits (fan_event displays) (while_true fuel (poll_round E displays)).
Proof.
  apply emits_while_true. unfold poll_round.
  apply emits_bind; [ | intros _; apply emits_external; intros r; reflexivity ].
  apply emits_for_each. intros [bus display] Hin. apply manage_gpu_emits, Hin.
Qed.

Lemma release_fans_emits (E : environment) (displays : dict string) :
  emits (fan_event displays) (release_fans E displays).
Proof.
  unfold release_fans. apply emits_for_each. intros [bus display] Hin.
  apply emits_bind; [ | intros _; apply emits_print; intros ?; exact I ].
  apply emits_external. intros r.
  split; [ apply (in_map snd) in Hin; exact Hin | right; left; reflexivity ].
Qed.

Lemma manage_fans_emits (E : environment) (fuel : nat) (displays : dict string) :
  proc_emits (fan_event displays) (manage_fans E fuel displays).
Proof.
  unfold manage_fans. apply proc_emits_call, emits_try_finally.
  - apply emits_bind; [ apply emits_modify | intros _; apply control_loop_emits ].
  - apply release_fans_emits.
Qed.

(** X7.  Whatever the environment does and however long it runs,
    [manage_fans] only reads the temperature of GPUs of its mapping, only
    sleeps 5 seconds, only sends commands to displays of its mapping, and
    every command is the take-over of the fan, its hand-back, or a target
    speed within [[S_MIN, S_MAX]]; it starts and stops no process and writes
    no configuration. *)
Theorem manage_fans_vocabulary (E : environment) (fuel : nat) (displays : dict string)
  (tr : trace) :
  exists evs,
    snd (manage_fans E fuel displays tr) = tr ++ evs /\
    Forall (fan_event displays) evs.
Proof.
  rewrite manage_fans_unfold.
  destruct (control_loop_emits E fuel displays (dict_from_keys (dict_keys displays) 0) tr)
    as (evs1 & E1 & F1).
  destruct (while_true fuel (poll_round E displays) _ tr) as [[[r | ] l1] tr1];
    cbn [snd] in E1; subst tr1.
  - destruct (release_fans_emits E displays l1 (tr ++ evs1)) as (evs2 & E2 & F2).
    exists (evs1 ++ evs2). split; [ | apply Forall_app; auto ].
    destruct (release_fans E displays l1 (tr ++ evs1)) as [[[[[] | e] | ] l2] tr2];
      cbn [snd] in *; subst tr2; symmetry; apply app_assoc.
  - exists evs1. auto.
Qed.

(** * The whole program *)

Lemma run_unfold (E : environment) (fuel : nat) (tr : trace) :
  run E fuel tr =
    match env_gpu_buses E tr with
    | Raise e => (Some (Raise e), tr ++ [EvGpuBuses (Raise e)])
    | Ok buses => xservers E buses (manage_fans E fuel) (tr ++ [EvGpuBuses (Ok buses)])
    end.
Proof.
  unfold run, call, bind, gpu_buses, external, lift.
  destruct (env_gpu_buses E tr) as [buses | e]; [ | reflexivity ].
  destruct (xservers E buses (manage_fans E fuel) _) as [r tr1]. reflexivity.
Qed.

(** The start-up loop on any list of bus IDs: every GPU with a server keeps
    a display, and an exception is that of the last call. *)
Lemma start_loop_general (E : environment) (items : list (nat * string))
  (l : xservers_locals) (tr : trace) :
  covered l ->
  exists out l' evs,
    for_each items (fun '(d, bus) => start_server E d bus) l tr
      = (Some out, l', tr ++ evs) /\
    covered l' /\ Forall startup_event evs /\
    (forall e, out = Raise e -> exists ev, In ev evs /\ failure ev = Some e).
Proof.
  revert l tr. induction items as [ | [d bus] items IH ]; intros l tr Hcov.
  - exists (Ok tt), l, []. rewrite app_nil_r.
    split; [ reflexivity | split; [ exact Hcov | split; [ constructor | discriminate ] ] ].
  - cbn [for_each].
    pose proof (start_server_run E d bus l tr) as R. cbv zeta in R.
    set (l1 := set_display bus (display_id d) l) in *.
    assert (Hcov1 : covered l1).
    { intros b Hb. cbn [l1 set_display displays servers] in *.
      apply dict_set_keeps, Hcov, Hb. }
    destruct (env_print E tr _) as [[] | e].
    2:{ rewrite (bind_raise _ _ _ _ _ _ _ R).
        do 3 eexists. split; [ reflexivity | ].
        split; [ exact Hcov1 | split; [ repeat constructor | ] ].
        intros e' [= <-]. eexists. split; [ left; reflexivity | reflexivity ]. }
    destruct (env_config E _ bus) as [conf | e].
    2:{ rewrite (bind_raise _ _ _ _ _ _ _ R), <- app_assoc.
        do 3 eexists. split; [ reflexivity | ].
        split; [ exact Hcov1 | split; [ repeat constructor | ] ].
        intros e' [= <-]. eexists. split; [ right; left; reflexivity | reflexivity ]. }
    destruct (env_popen E _ _) as [[] | e].
    2:{ rewrite (bind_raise _ _ _ _ _ _ _ R), <- !app_assoc.
        do 3 eexists. split; [ reflexivity | ].
        split; [ exact Hcov1 | split; [ repeat constructor | ] ].
        intros e' [= <-]. eexists.
        split; [ right; right; left; reflexivity | reflexivity ]. }
    rewrite (bind_ok _ _ _ _ _ _ _ R).
    match type of R with
    | _ = (_, set_server bus ?p l1, _) => set (server := p) in *
    end.
    set (l2 := set_server bus server l1) in *.
    assert (Hcov2 : covered l2).
    { intros b Hb. cbn [l2 set_server displays servers] in *.
      destruct (String.eqb_spec b bus) as [-> | Hne].
      - cbn [l1 set_display displays]. rewrite dict_get_set_same. discriminate.
      - rewrite dict_get_set_other in Hb by assumption. apply Hcov1, Hb. }
    match goal with
    | |- context [for_each items ?f l2 ?t] =>
        destruct (IH l2 t Hcov2) as (out & l' & evs & E2 & C2 & F2 & X2)
    end.
    rewrite E2, <- !app_assoc. cbn [app].
    do 3 eexists. split; [ reflexivity | ].
    split; [ exact C2 | split ].
    + repeat (constructor; [ exact I | ]). exact F2.
    + intros e He. destruct (X2 e He) as (ev & Hin & Hf).
      exists ev. split; [ do 3 right; exact Hin | exact Hf ].
Qed.

(** [with xservers(buses) as ds: body(ds)] on any list of bus IDs. *)
Lemma xservers_general (E : environment) (A : Type) (buses : list string)
  (body : dict string -> proc A) (tr : trace) :
  exists (out0 : result unit) l1 evs1,
    Forall startup_event evs1 /\
    (forall e, out0 = Raise e -> exists ev, In ev evs1 /\ failure ev = Some e) /\
    covered l1 /\
    xservers E buses body tr =
      match out0 with
      | Raise e => leave E l1 (Raise e) (tr ++ evs1)
      | Ok _ =>
          match body (displays l1) (tr ++ evs1) with
          | (Some r, tr2) => leave E l1 r tr2
          | (None, tr2) => (None, tr2)
          end
      end.
Proof.
  destruct (start_loop_general E (enumerate buses) no_servers tr)
    as (out0 & l1 & evs1 & R & Hcov & F1 & X1).
  { intros bus H. exfalso. apply H. reflexivity. }
  exists out0, l1, evs1.
  split; [ exact F1 | split; [ exact X1 | split; [ exact Hcov | ] ] ].
  apply xservers_unfold. exact R.
Qed.

Lemma fan_event_control (displays : dict string) (ev : event) :
  fan_event displays ev -> control_event ev.
Proof. destruct ev; cbn; auto. Qed.

(** X8.  The phases of [run].  After the list of GPUs has been asked for,
    the calls of [run] are those of the start-up (lines printed,
    configurations written, X servers started), then those of the control
    loop and of the hand-back of the fans (temperatures, commands, sleeps,
    lines printed), then those of the shut-down (lines printed, X servers
    terminated): no server is started once a fan has been touched, and no
    fan is touched once the termination of a server has been attempted.
    Nothing is terminated while the loop is running, and when the list of
    GPUs cannot be read nothing else is done. *)
Theorem run_phases (E : environment) (fuel : nat) (tr : trace) :
  exists r startup control shutdown,
    snd (run E fuel tr) = tr ++ EvGpuBuses r :: startup ++ control ++ shutdown /\
    Forall startup_event startup /\
    Forall control_event control /\
    Forall shutdown_event shutdown /\
    (fst (run E fuel tr) = None -> shutdown = []) /\
    (forall e, r = Raise e ->
       fst (run E fuel tr) = Some (Raise e) /\
       startup = [] /\ control = [] /\ shutdown = []).
Proof.
  rewrite run_unfold. destruct (env_gpu_buses E tr) as [buses | e].
  2:{ exists (Raise e), [], [], []. cbn [fst snd app].
      split; [ reflexivity | ].
      do 3 (split; [ apply Forall_nil | ]).
      split; [ reflexivity | ].
      intros e' [= <-]. auto. }
  set (tr1 := tr ++ [EvGpuBuses (Ok buses)]).
  destruct (xservers_general E unit buses (manage_fans E fuel) tr1)
    as (out0 & l1 & evs1 & F1 & _ & Hcov & R).
  rewrite R. clear R.
  assert (T : forall rest, tr1 ++ rest = tr ++ EvGpuBuses (Ok buses) :: rest).
  { intros rest. unfold tr1. rewrite <- app_assoc. reflexivity. }
  destruct out0 as [[] | e].
  - destruct (manage_fans_emits E fuel (displays l1) (tr1 ++ evs1)) as (evs2 & E2 & F2).
    apply (Forall_impl _ (fan_event_control (displays l1))) in F2.
    destruct (manage_fans E fuel (displays l1) (tr1 ++ evs1)) as [[r | ] tr2];
      cbn [snd] in E2; subst tr2.
    + destruct (leave_run E unit l1 r ((tr1 ++ evs1) ++ evs2) Hcov)
        as (out & evs3 & L & F3 & _).
      rewrite L. cbn [fst snd].
      exists (Ok buses), evs1, evs2, evs3.
      rewrite <- !app_assoc, T.
      split; [ reflexivity | ].
      do 3 (split; [ assumption | ]).
      split; [ discriminate | discriminate ].
    + cbn [fst snd]. exists (Ok buses), evs1, evs2, [].
      rewrite app_nil_r, <- !app_assoc, T.
      split; [ reflexivity | ].
      do 3 (split; [ assumption || apply Forall_nil | ]).
      split; [ reflexivity | discriminate ].
  - destruct (leave_run E unit l1 (Raise e) (tr1 ++ evs1) Hcov)
      as (out & evs3 & L & F3 & _).
    rewrite L. cbn [fst snd].
    exists (Ok buses), evs1, [], evs3. cbn [app]. rewrite <- !app_assoc, T.
    split; [ reflexivity | ].
    do 3 (split; [ assumption || apply Forall_nil | ]).
    split; [ discriminate | discriminate ].
Qed.

(** [manage_fans] is left by an exception only. *)
Lemma manage_fans_never_returns (E : environment) (fuel : nat) (displays : dict string)
  (tr : trace) :
  fst (manage_fans E fuel displays tr) <> Some (Ok tt).
Proof.
  destruct (manage_fans_run E fuel displays tr) as (rounds & rest & _ & H).
  destruct H as [(R & _) | (e & out & k & tail & R & _)]; rewrite R; discriminate.
Qed.

(** The finally block of [xservers] does not turn an exception into a
    return. *)
Lemma leave_never_returns (E : environment) (l : xservers_locals) (r : result unit)
  (tr : trace) :
  covered l -> r <> Ok tt -> fst (leave E l r tr) <> Some (Ok tt).
Proof.
  intros Hcov Hr.
  destruct (leave_run E unit l r tr Hcov) as (out & evs3 & L & _ & H).
  rewrite L. cbn [fst].
  destruct H as [[-> _] | (e & _ & _ & -> & _)]; [ congruence | discriminate ].
Qed.

(** X9.  Neither [manage_fans] nor [run] ever returns: the loop has no
    exit, so they are left by an exception only. *)
Theorem run_never_returns (E : environment) (fuel : nat) (displays : dict string)
  (tr : trace) :
  fst (manage_fans E fuel displays tr) <> Some (Ok tt) /\
  fst (run E fuel tr) <> Some (Ok tt).
Proof.
  split; [ apply manage_fans_never_returns | ].
  rewrite run_unfold. destruct (env_gpu_buses E tr) as [buses | e]; [ | discriminate ].
  destruct (xservers_general E unit buses (manage_fans E fuel)
              (tr ++ [EvGpuBuses (Ok buses)]))
    as (out0 & l1 & evs1 & _ & _ & Hcov & R).
  rewrite R. destruct out0 as [[] | e].
  - match goal with
    | |- context [manage_fans E fuel ?ds ?t] =>
        pose proof (manage_fans_never_returns E fuel ds t) as M;
        destruct (manage_fans E fuel ds t) as [[r | ] tr2]; [ | discriminate ]
    end.
    apply leave_never_returns; [ exact Hcov | ].
    intros ->. apply M. reflexivity.
  - apply leave_never_returns; [ exact Hcov | discriminate ].
Qed.

(** * Where exceptions come from *)

Lemma manage_fans_accounted (E : environment) (fuel : nat) (displays : dict string)
  (tr tr' : trace) (e : exn) :
  manage_fans E fuel displays tr = (Some (Raise e), tr') ->
  exists evs, tr' = tr ++ evs /\ accounted e evs.
Proof.
  destruct (manage_fans_run E fuel displays tr) as (rounds & rest & _ & H).
  destruct H as [(R & _) | (e0 & out & k & tail & R & _ & A1 & _ & _ & _ & H2)];
    rewrite R; [ discriminate | ].
  intros [= -> <-]. eexists. split; [ reflexivity | ].
  destruct H2 as [(_ & _ & <-) | (bus & display & _ & Hf & _)].
  - apply accounted_app_r, accounted_app_l, A1.
  - destruct (release_failure_last display e tail Hf) as (_ & _ & evs' & ev & -> & _ & He).
    do 3 apply accounted_app_r. apply accounted_snoc, He.
Qed.

(** X10.  Every exception of the program is accounted for: when [run] raises
    [e], either one of its external calls failed with [e], or [e] is the
    OverflowError of a temperature that was read and whose square does not
    convert to a double.  No lookup in [displays], [servers] or [speeds]
    ever raises KeyError. *)
Theorem run_exceptions (E : environment) (fuel : nat) (tr tr' : trace) (e : exn) :
  run E fuel tr = (Some (Raise e), tr') ->
  exists evs, tr' = tr ++ evs /\ accounted e evs.
Proof.
  rewrite run_unfold. destruct (env_gpu_buses E tr) as [buses | e0].
  2:{ intros [= <- <-]. eexists. split; [ reflexivity | ].
      eapply failed_accounted; [ left; reflexivity | reflexivity ]. }
  set (tr1 := tr ++ [EvGpuBuses (Ok buses)]).
  destruct (xservers_general E unit buses (manage_fans E fuel) tr1)
    as (out0 & l1 & evs1 & _ & X1 & Hcov & R).
  rewrite R. clear R. destruct out0 as [[] | e0].
  - destruct (manage_fans E fuel (displays l1) (tr1 ++ evs1)) as [[r | ] tr2] eqn:M;
      [ | discriminate ].
    destruct (leave_run E unit l1 r tr2 Hcov) as (out & evs3 & L & _ & H).
    rewrite L. intros [= -> <-].
    destruct H as [[<- _] | (e' & evs' & ev & [= <-] & -> & _ & He)].
    + destruct (manage_fans_accounted E fuel (displays l1) _ _ _ M) as (evs2 & -> & X2).
      exists ([EvGpuBuses (Ok buses)] ++ evs1 ++ evs2 ++ evs3).
      split; [ unfold tr1; rewrite <- !app_assoc; reflexivity | ].
      apply accounted_app_r, accounted_app_r, accounted_app_l, X2.
    + pose proof (manage_fans_emits E fuel (displays l1) (tr1 ++ evs1)) as (evs2 & E2 & _).
      rewrite M in E2. cbn [snd] in E2. subst tr2.
      exists ([EvGpuBuses (Ok buses)] ++ evs1 ++ evs2 ++ evs' ++ [ev]).
      split; [ unfold tr1; rewrite <- !app_assoc; reflexivity | ].
      do 4 apply accounted_app_r. eapply failed_accounted; [ left; reflexivity | exact He ].
  - destruct (leave_run E unit l1 (Raise e0) (tr1 ++ evs1) Hcov) as (out & evs3 & L & _ & H).
    rewrite L. intros [= -> <-].
    exists ([EvGpuBuses (Ok buses)] ++ evs1 ++ evs3).
    split; [ unfold tr1; rewrite <- !app_assoc; reflexivity | ].
    destruct H as [[[= <-] _] | (e' & evs' & ev & [= <-] & -> & _ & He)].
    + destruct (X1 e eq_refl) as (ev & Hin & Hf).
      apply accounted_app_r, accounted_app_l. eapply failed_accounted; eassumption.
    + do 2 apply accounted_app_r. apply accounted_snoc, He.
Qed.

Lemma run_exceptions_witness :
  run second_gpu_lost 3 [] =
    (Some (Raise CalledProcessError), snd (run second_gpu_lost 3 [])) /\
  exists evs, snd (run second_gpu_lost 3 []) = [] ++ evs /\ accounted CalledProcessError evs.
Proof.
  assert (H : run second_gpu_lost 3 [] =
              (Some (Raise CalledProcessError), snd (run second_gpu_lost 3 [])))
    by (vm_compute; reflexivity).
  split; [ exact H | ].
  exact (run_exceptions second_gpu_lost 3 [] _ CalledProcessError H).
Defined.

(** * The loop at constant temperatures *)

(** X11.  The clamp is idempotent: the target computed for a temperature is
    its own target at that temperature, with the same band. *)
Theorem target_speed_idempotent (s t s' l u : Z) :
  target_speed s t = Ok (s', l, u) ->
  target_speed s' t = Ok (s', l, u).
Proof.
  intros H.
  destruct (target_speed_in_range s t s' l u H) as (El & Eu & Es & Hl & Hu & N).
  destruct (target_speed_curve s' t N) as (_ & _ & E).
  rewrite E, <- El, <- Eu. f_equal. f_equal. f_equal. lia.
Qed.

Lemma target_speed_idempotent_witness :
  target_speed 0 65 = Ok (47, 47, 81) /\ target_speed 47 65 = Ok (47, 47, 81).
Proof.
  assert (H : target_speed 0 65 = Ok (47, 47, 81)) by (vm_compute; reflexivity).
  split; [ exact H | exact (target_speed_idempotent 0 65 47 47 81 H) ].
Defined.

(** The run of the loop body for one GPU, where the commands succeed. *)
Lemma manage_gpu_run (E : environment) (bus display : string) (l : dict Z) (tr : trace)
  (t cur s lo hi : Z) :
  env_temperature E tr bus = Ok t ->
  (forall tr' command, env_assign E tr' display command = Ok tt) ->
  (forall tr' line, env_print E tr' line = Ok tt) ->
  dict_get l bus = Some cur ->
  target_speed cur t = Ok (s, lo, hi) ->
  manage_gpu E bus display l tr =
    if s =? cur then
      (Some (Ok tt), l,
       tr ++ [EvTemperature bus (Ok t);
              EvPrint (report display t lo hi "Leaving speed at " s) (Ok tt)])
    else
      (Some (Ok tt), dict_set l bus s,
       tr ++ [EvTemperature bus (Ok t);
              EvAssign display enable_command (Ok tt);
              EvAssign display (speed_command s) (Ok tt);
              EvPrint (report display t lo hi "Setting speed to " s) (Ok tt)]).
Proof.
  intros Ht Ha Hp Hc Hs. unfold manage_gpu. run_io.
  rewrite Ht. cbv beta iota. rewrite Hc. cbv beta iota. rewrite Hs. cbv beta iota.
  rewrite Hc. cbv beta iota.
  destruct (s =? cur); cbv beta iota delta [negb].
  - rewrite Hp. cbv beta iota. rewrite <- app_assoc. reflexivity.
  - rewrite !Ha. cbv beta iota. rewrite Hp. cbv beta iota.
    rewrite <- !app_assoc. reflexivity.
Qed.

(** From a stored speed of 0 the target is the lower bound; from the lower
    bound it is the lower bound again. *)
Lemma target_from_rest (t lo hi : Z) :
  min_speed t = Ok lo -> max_speed t = Ok hi ->
  target_speed 0 t = Ok (lo, lo, hi) /\ target_speed lo t = Ok (lo, lo, hi) /\ lo <> 0.
Proof.
  intros Hl Hu.
  assert (H : target_speed 0 t = Ok (Z.min (Z.max 0 lo) hi, lo, hi)).
  { unfold target_speed. rewrite Hl, Hu. reflexivity. }
  destruct (target_speed_in_range _ _ _ _ _ H) as (_ & _ & _ & B1 & B2 & _).
  unfold S_MIN in B1.
  unfold target_speed. rewrite Hl, Hu. cbn [rbind].
  split; [ | split ]; [ f_equal; f_equal; f_equal; lia | f_equal; f_equal; f_equal; lia | lia ].
Qed.

Section Steady.

Variable E : environment.
Variables t lo hi : string -> Z.
Hypothesis HE : constant_temperatures E t.

Lemma first_round (items : list (string * string)) (l : dict Z) (tr : trace) :
  NoDup (map fst items) ->
  (forall bus, In bus (map fst items) ->
     dict_get l bus = Some 0 /\
     min_speed (t bus) = Ok (lo bus) /\ max_speed (t bus) = Ok (hi bus)) ->
  exists l',
    for_each items (fun '(bus, display) => manage_gpu E bus display) l tr
      = (Some (Ok tt), l', tr ++ flat_map (setting t lo hi) items) /\
    (forall bus, In bus (map fst items) -> dict_get l' bus = Some (lo bus)) /\
    (forall k, ~ In k (map fst items) -> dict_get l' k = dict_get l k).
Proof.
  destruct HE as (Ht & Ha & _ & Hp).
  revert l tr. induction items as [ | [bus display] items IH ]; intros l tr Hnd Hl.
  - exists l. cbn. rewrite app_nil_r. repeat split. intros bus [].
  - cbn [map fst] in Hnd, Hl. inversion Hnd as [ | ? ? Hnotin Hnd' ]; subst.
    destruct (Hl bus (or_introl eq_refl)) as (H0 & Hlo & Hhi).
    destruct (target_from_rest _ _ _ Hlo Hhi) as (Hts & _ & Hne).
    pose proof (manage_gpu_run E bus display l tr (t bus) 0 (lo bus) (lo bus) (hi bus)
                  (Ht tr bus) (fun tr' c => Ha tr' display c) Hp H0 Hts) as R.
    apply Z.eqb_neq in Hne. rewrite Hne in R.
    cbn [for_each]. rewrite (bind_ok _ _ _ _ _ _ _ R).
    match goal with
    | |- context [for_each items ?f ?l1 ?t1] =>
        destruct (IH l1 t1 Hnd') as (l' & E2 & G2 & K2)
    end.
    { intros b Hb. destruct (Hl b (or_intror Hb)) as (Hb0 & Hblo & Hbhi).
      rewrite dict_get_set_other by (intros ->; contradiction). auto. }
    exists l'. rewrite E2, <- app_assoc. split; [ reflexivity | split ].
    + intros b [Hb | Hb]; [ | apply G2, Hb ].
      subst b. cbn [fst]. rewrite (K2 bus Hnotin). apply dict_get_set_same.
    + intros k Hk. cbn [map fst] in Hk.
      rewrite K2 by (intros Hin; apply Hk; right; exact Hin).
      apply dict_get_set_other. intros ->. apply Hk. left. reflexivity.
Qed.

Lemma later_round (items : list (string * string)) (l : dict Z) (tr : trace) :
  (forall bus, In bus (map fst items) ->
     dict_get l bus = Some (lo bus) /\
     min_speed (t bus) = Ok (lo bus) /\ max_speed (t bus) = Ok (hi bus)) ->
  for_each items (fun '(bus, display) => manage_gpu E bus display) l tr
    = (Some (Ok tt), l, tr ++ flat_map (leaving t lo hi) items).
Proof.
  destruct HE as (Ht & Ha & _ & Hp).
  revert tr. induction items as [ | [bus display] items IH ]; intros tr Hl.
  - cbn. rewrite app_nil_r. reflexivity.
  - cbn [map fst] in Hl.
    destruct (Hl bus (or_introl eq_refl)) as (H0 & Hlo & Hhi).
    destruct (target_from_rest _ _ _ Hlo Hhi) as (_ & Hts & _).
    pose proof (manage_gpu_run E bus display l tr (t bus) (lo bus) (lo bus) (lo bus) (hi bus)
                  (Ht tr bus) (fun tr' c => Ha tr' display c) Hp H0 Hts) as R.
    rewrite Z.eqb_refl in R.
    cbn [for_each]. rewrite (bind_ok _ _ _ _ _ _ _ R).
    rewrite IH by (intros b Hb; apply Hl; right; exact Hb).
    rewrite <- app_assoc. reflexivity.
Qed.

Lemma sleep_run (l : dict Z) (tr : trace) :
  sleep E 5 l tr = (Some (Ok tt), l, tr ++ [EvSleep 5 (Ok tt)]).
Proof.
  destruct HE as (_ & _ & Hs & _). unfold sleep, external. rewrite Hs. reflexivity.
Qed.

Lemma later_rounds (displays : dict string) (n : nat) (l : dict Z) (tr : trace) :
  (forall bus, In bus (dict_keys displays) ->
     dict_get l bus = Some (lo bus) /\
     min_speed (t bus) = Ok (lo bus) /\ max_speed (t bus) = Ok (hi bus)) ->
  while_true n (poll_round E displays) l tr =
    (None, l,
     tr ++ List.concat
             (repeat (round_events (flat_map (leaving t lo hi) (dict_items displays))) n)).
Proof.
  intros Hl. revert tr. induction n as [ | n IH ]; intros tr.
  - cbn. rewrite app_nil_r. reflexivity.
  - cbn [while_true repeat List.concat]. unfold poll_round at 1.
    erewrite bind_ok.
    2:{ erewrite bind_ok; [ apply sleep_run | apply later_round, Hl ]. }
    rewrite IH. unfold round_events. rewrite <- !app_assoc. reflexivity.
Qed.

End Steady.

(** X12.  At constant temperatures, with every command, every sleep and
    every [print] succeeding and a mapping with distinct bus IDs, the loop
    reaches its
    steady state in one iteration: the first iteration takes over every fan
    and sets it to the lower bound of the band of its GPU, and every later
    iteration only reads the temperatures and leaves the fans alone. *)
Theorem steady_state (E : environment) (t lo hi : string -> Z) (displays : dict string)
  (n : nat) (tr : trace) :
  constant_temperatures E t ->
  NoDup (dict_keys displays) ->
  (forall bus, In bus (dict_keys displays) ->
     min_speed (t bus) = Ok (lo bus) /\ max_speed (t bus) = Ok (hi bus)) ->
  manage_fans E (S n) displays tr =
    (None,
     tr ++ round_events (flat_map (setting t lo hi) (dict_items displays))
        ++ List.concat
             (repeat (round_events (flat_map (leaving t lo hi) (dict_items displays))) n)).
Proof.
  intros HE Hnd Hband. rewrite manage_fans_unfold.
  cbn [while_true]. unfold poll_round at 1.
  destruct (first_round E t lo hi HE (dict_items displays)
              (dict_from_keys (dict_keys displays) 0) tr Hnd) as (l1 & R1 & G1 & _).
  { intros bus Hin. split; [ apply dict_from_keys_get, Hin | apply Hband, Hin ]. }
  erewrite bind_ok.
  2:{ erewrite bind_ok; [ apply (sleep_run E t HE) | exact R1 ]. }
  rewrite (later_rounds E t lo hi HE displays n l1).
  - unfold round_events. rewrite <- !app_assoc. reflexivity.
  - intros bus Hin. split; [ apply G1, Hin | apply Hband, Hin ].
Qed.

Lemma steady_state_witness :
  constant_temperatures steady (fun _ => 65) /\
  NoDup (dict_keys two_gpus) /\
  (forall bus, In bus (dict_keys two_gpus) -> min_speed 65 = Ok 47 /\ max_speed 65 = Ok 81) /\
  manage_fans steady 3 two_gpus [] =
    (None,
     [] ++ round_events (flat_map (setting (fun _ => 65) (fun _ => 47) (fun _ => 81))
                           (dict_items two_gpus))
        ++ List.concat (repeat (round_events
                             (flat_map (leaving (fun _ => 65) (fun _ => 47) (fun _ => 81))
                                (dict_items two_gpus))) 2)).
Proof.
  assert (H1 : constant_temperatures steady (fun _ => 65)).
  { split; [ | split; [ | split ] ]; intros; reflexivity. }
  assert (H2 : NoDup (dict_keys two_gpus)).
  { repeat constructor; cbn; intuition discriminate. }
  assert (H3 : forall bus, In bus (dict_keys two_gpus) ->
                 min_speed 65 = Ok 47 /\ max_speed 65 = Ok 81).
  { intros bus _. split; vm_compute; reflexivity. }
  split; [ exact H1 | split; [ exact H2 | split; [ exact H3 | ] ] ].
  exact (steady_state steady (fun _ => 65) (fun _ => 47) (fun _ => 81) two_gpus 2 [] H1 H2 H3).
Defined.

(** * A machine without GPUs *)

(** The loop over an empty mapping only sleeps. *)
Lemma idle_loop (E : environment) (fuel : nat) (l : dict Z) (tr : trace) :
  exists out n last,
    while_true fuel (poll_round E []) l tr
      = (out, l, tr ++ repeat (EvSleep 5 (Ok tt)) n ++ last) /\
    match out with
    | None => n = fuel /\ last = []
    | Some (Raise e) => (n < fuel)%nat /\ last = [EvSleep 5 (Raise e)]
    | Some (Ok _) => False
    end.
Proof.
  revert tr. induction fuel as [ | fuel IH ]; intros tr.
  - exists None, 0%nat, []. cbn. rewrite app_nil_r. auto.
  - cbn [while_true]. unfold poll_round at 1, dict_items. cbn [for_each].
    unfold bind at 1 2, ret, sleep, external.
    destruct (env_sleep E tr 5) as [[] | e].
    + destruct (IH (tr ++ [EvSleep 5 (Ok tt)])) as (out & n & last & E1 & H1).
      exists out, (S n), last. rewrite E1, <- app_assoc.
      split; [ reflexivity | ].
      destruct out as [[[] | e] | ]; [ contradiction | | ];
        (split; [ lia | apply H1 ]).
    + exists (Some (Raise e)), 0%nat, [EvSleep 5 (Raise e)].
      split; [ reflexivity | split; [ lia | reflexivity ] ].
Qed.

(** X13.  When [nvidia-smi] lists no GPU, [run] starts no X server and
    touches no fan: it sleeps 5 seconds over and over, and when a sleep is
    interrupted it ends with that exception without making another call. *)
Theorem run_no_gpus (E : environment) (fuel : nat) (tr : trace) :
  env_gpu_buses E tr = Ok [] ->
  exists out n last,
    run E fuel tr
      = (out, tr ++ EvGpuBuses (Ok []) :: repeat (EvSleep 5 (Ok tt)) n ++ last) /\
    match out with
    | None => n = fuel /\ last = []
    | Some (Raise e) => (n < fuel)%nat /\ last = [EvSleep 5 (Raise e)]
    | Some (Ok _) => False
    end.
Proof.
  intros H. rewrite run_unfold, H.
  set (tr1 := tr ++ [EvGpuBuses (Ok [])]).
  assert (R : xservers E [] (manage_fans E fuel) tr1 = manage_fans E fuel [] tr1).
  { rewrite (xservers_run E unit [] (manage_fans E fuel) tr1 [] [] (Ok tt) no_servers).
    - cbn [displays no_servers]. rewrite app_nil_r.
      destruct (manage_fans E fuel [] tr1) as [[r | ] tr2]; rewrite ?app_nil_r; reflexivity.
    - rewrite app_nil_r. reflexivity.
    - intros tr'. rewrite app_nil_r. reflexivity. }
  rewrite R, manage_fans_unfold.
  destruct (idle_loop E fuel (dict_from_keys (dict_keys ([] : dict string)) 0) tr1)
    as (out & n & last & E1 & H1).
  rewrite E1. exists out, n, last.
  assert (T : tr1 ++ repeat (EvSleep 5 (Ok tt)) n ++ last
              = tr ++ EvGpuBuses (Ok []) :: repeat (EvSleep 5 (Ok tt)) n ++ last).
  { unfold tr1. rewrite <- app_assoc. reflexivity. }
  rewrite T. split; [ | exact H1 ].
  destruct out as [[[] | e] | ]; [ contradiction | reflexivity | reflexivity ].
Qed.

Lemma run_no_gpus_witness :
  env_gpu_buses no_gpus [] = Ok [] /\
  exists out n last,
    run no_gpus 10 []
      = (out, [] ++ EvGpuBuses (Ok []) :: repeat (EvSleep 5 (Ok tt)) n ++ last) /\
    match out with
    | None => n = 10%nat /\ last = []
    | Some (Raise e) => (n < 10)%nat /\ last = [EvSleep 5 (Raise e)]
    | Some (Ok _) => False
    end.
Proof.
  assert (H : env_gpu_buses no_gpus [] = Ok []) by reflexivity.
  split; [ exact H | exact (run_no_gpus no_gpus 10 [] H) ].
Defined.

(** * The start-up on any list of GPUs *)

Lemma start_loop_order (E : environment) (buses : list string) (k : nat)
  (l : xservers_locals) (tr : trace) :
  exists out l' evs n m,
    for_each (combine (seq k (List.length buses)) buses)
      (fun '(d, bus) => start_server E d bus) l tr
      = (Some out, l', tr ++ evs) /\
    spawn_displays evs = map display_id (seq k n) /\
    configured evs = firstn m buses /\ (n <= m <= S n)%nat /\
    match out with
    | Ok _ => n = List.length buses /\ m = n
    | Raise e =>
        (n < List.length buses)%nat /\
        exists evs' ev, evs = evs' ++ [ev] /\ clean evs' /\ failure ev = Some e
    end.
Proof.
  revert k l tr. induction buses as [ | bus buses IH ]; intros k l tr.
  - exists (Ok tt), l, [], 0%nat, 0%nat. cbn. rewrite app_nil_r.
    repeat split; lia.
  - cbn [List.length seq combine for_each].
    pose proof (start_server_run E k bus l tr) as R. cbv zeta in R.
    destruct (env_print E tr _) as [[] | e].
    2:{ rewrite (bind_raise _ _ _ _ _ _ _ R).
        do 3 eexists. exists 0%nat, 0%nat. split; [ reflexivity | ].
        cbn [app spawn_displays configured flat_map seq map firstn List.length].
        split; [ reflexivity | split; [ reflexivity | split; [ lia | ] ] ].
        split; [ lia | ].
        eexists [], _. split; [ reflexivity | ].
        split; [ constructor | reflexivity ]. }
    destruct (env_config E _ bus) as [conf | e].
    2:{ rewrite (bind_raise _ _ _ _ _ _ _ R), <- app_assoc.
        do 3 eexists. exists 0%nat, 0%nat. split; [ reflexivity | ].
        cbn [app spawn_displays configured flat_map seq map firstn List.length].
        split; [ reflexivity | split; [ reflexivity | split; [ lia | ] ] ].
        split; [ lia | ].
        eexists [_], _. split; [ reflexivity | ].
        split; [ repeat constructor | reflexivity ]. }
    destruct (env_popen E _ _) as [[] | e].
    2:{ rewrite (bind_raise _ _ _ _ _ _ _ R), <- !app_assoc.
        do 3 eexists. exists 0%nat, 1%nat. split; [ reflexivity | ].
        cbn [app spawn_displays configured flat_map seq map firstn List.length].
        split; [ reflexivity | split; [ reflexivity | split; [ lia | ] ] ].
        split; [ lia | ].
        eexists [_; _], _. split; [ reflexivity | ].
        split; [ repeat constructor | reflexivity ]. }
    rewrite (bind_ok _ _ _ _ _ _ _ R).
    match goal with
    | |- context [for_each _ ?f ?l2 ?t] =>
        destruct (IH (S k) l2 t) as (out & l' & evs & n & m & E2 & P2 & C2 & B2 & H2)
    end.
    rewrite E2, <- !app_assoc. cbn [app].
    exists out, l'. eexists. exists (S n), (S m). split; [ reflexivity | ].
    cbn [spawn_displays configured flat_map app nth seq map firstn List.length].
    fold (spawn_displays evs). fold (configured evs). rewrite P2, C2.
    split; [ reflexivity | split; [ reflexivity | split; [ lia | ] ] ].
    destruct out as [[] | e].
    + split; lia.
    + destruct H2 as (Hn & evs' & ev & -> & Hc & Hf).
      split; [ lia | ].
      eexists (_ :: _ :: _ :: evs'), ev. split; [ reflexivity | ].
      split; [ repeat (apply clean_cons; [ reflexivity | ]); exact Hc | exact Hf ].
Qed.

(** X14.  On any list of bus IDs, repeated ones included, and whatever the
    environment does, the start-up loop of [xservers] starts its servers on
    the displays [:0], [:1], ... in this order and without a gap, after
    writing the configuration of the GPU at that position of the list; it
    either serves the whole list or stops at the first call that fails (a
    line that cannot be printed included), which is then its last call. *)
Theorem xservers_start_order (E : environment) (buses : list string) (tr : trace) :
  exists out l' evs n m,
    xservers_start E buses no_servers tr = (Some out, l', tr ++ evs) /\
    spawn_displays evs = map display_id (seq 0 n) /\
    configured evs = firstn m buses /\ (n <= m <= S n)%nat /\
    match out with
    | Ok _ => n = List.length buses /\ m = n
    | Raise e =>
        (n < List.length buses)%nat /\
        exists evs' ev, evs = evs' ++ [ev] /\ clean evs' /\ failure ev = Some e
    end.
Proof.
  unfold xservers_start, enumerate.
  destruct (start_loop_order E buses 0 no_servers tr)
    as (out & l' & evs & n & m & R & P & C & B & H).
  exists out, l', evs, n, m.
  split; [ exact R | split; [ exact P | split; [ exact C | split; [ exact B | exact H ] ] ] ].
Qed.

(** * Leaving the program *)

(** X15.  The clean-up of [run].  On a machine whose GPUs have distinct bus
    IDs and on which starting the X servers, handing back a fan and
    terminating a server work, each with the line printed for it: whenever
    [run] ends, it ends with the exception that ended the control loop,
    after one X server per GPU was started, and its last calls hand back the
    fan of every display of the mapping, in order, and then terminate
    exactly the servers that were started; before that nothing was
    terminated. *)
Theorem run_cleanup (E : environment) (fuel : nat) (buses : list string)
  (tr tr' : trace) (r : result unit) :
  env_gpu_buses E tr = Ok buses ->
  NoDup buses -> spawns_succeed E -> release_succeeds E -> stops_succeed E ->
  run E fuel tr = (Some r, tr') ->
  exists e startup control shutdown,
    let ds := combine buses (map display_id (seq 0 (List.length buses))) in
    r = Raise e /\
    tr' = tr ++ EvGpuBuses (Ok buses)
             :: startup ++ control ++ release_events ds ++ shutdown /\
    raised e control /\
    List.length (spawned startup) = List.length buses /\
    terminated startup = [] /\
    Forall (fan_event ds) control /\
    terminated shutdown = spawned startup /\
    Forall shutdown_event shutdown.
Proof.
  intros Hb Hnd HE HR HS. rewrite run_unfold, Hb.
  set (tr1 := tr ++ [EvGpuBuses (Ok buses)]).
  destruct (start_loop_ok E buses 0 no_servers tr1 HE Hnd)
    as (l1 & evs1 & R & D & _ & _ & _ & N); [ reflexivity | ].
  destruct (xservers_start_inv E buses tr1 Hnd) as (out & l' & evs & R' & T & S & Hcov).
  unfold xservers_start, enumerate in R'. rewrite R in R'.
  injection R' as <- <- Hevs. apply app_inv_head in Hevs. subst evs.
  destruct (xservers_stop_run E l1 HS Hcov) as (evs3 & T3 & _ & _ & F3 & Hstop).
  rewrite (xservers_run E unit buses (manage_fans E fuel) tr1 evs1 evs3 (Ok tt) l1 R Hstop).
  cbn [displays no_servers app] in D. rewrite D.
  set (ds := combine buses (map display_id (seq 0 (List.length buses)))).
  destruct (manage_fans_emits E fuel ds (tr1 ++ evs1)) as (evs2 & E2 & F2).
  destruct (manage_fans_run E fuel ds (tr1 ++ evs1)) as (rounds & rest & Hr & H).
  destruct H as [(M & _) | (e & out & k & tail & M & R1 & _ & _ & _ & _ & H2)];
    rewrite M; [ discriminate | ].
  destruct H2 as [(-> & -> & ->) | (bus & display & _ & _ & Hn)]; [ | contradiction ].
  rewrite firstn_all, app_nil_r in *.
  rewrite M in E2. cbn [snd] in E2. apply app_inv_head in E2. subst evs2.
  rewrite app_assoc in F2. apply Forall_app in F2 as [F2 _].
  intros [= <- <-].
  exists e, evs1, (rounds_events rounds ++ rest), evs3. cbv zeta. fold ds.
  split; [ reflexivity | ].
  split; [ unfold tr1; rewrite <- !app_assoc; reflexivity | ].
  split; [ apply raised_app; [ eapply rounds_events_clean; exact Hr | exact R1 ] | ].
  split; [ exact N | ].
  split; [ exact T | ].
  split; [ exact F2 | ].
  split; [ congruence | exact F3 ].
Qed.

Lemma run_cleanup_witness :
  env_gpu_buses second_gpu_lost [] = Ok (dict_keys two_gpus) /\
  NoDup (dict_keys two_gpus) /\ spawns_succeed second_gpu_lost /\
  release_succeeds second_gpu_lost /\ stops_succeed second_gpu_lost /\
  run second_gpu_lost 3 [] =
    (Some (Raise CalledProcessError), snd (run second_gpu_lost 3 [])) /\
  exists e startup control shutdown,
    let ds := combine (dict_keys two_gpus)
                (map display_id (seq 0 (List.length (dict_keys two_gpus)))) in
    @Raise unit CalledProcessError = Raise e /\
    snd (run second_gpu_lost 3 []) =
      [] ++ EvGpuBuses (Ok (dict_keys two_gpus))
         :: startup ++ control ++ release_events ds ++ shutdown /\
    raised e control /\
    List.length (spawned startup) = List.length (dict_keys two_gpus) /\
    terminated startup = [] /\
    Forall (fan_event ds) control /\
    terminated shutdown = spawned startup /\
    Forall shutdown_event shutdown.
Proof.
  assert (H1 : env_gpu_buses second_gpu_lost [] = Ok (dict_keys two_gpus)) by reflexivity.
  assert (H2 : NoDup (dict_keys two_gpus)).
  { repeat constructor; cbn; intuition discriminate. }
  assert (H3 : spawns_succeed second_gpu_lost).
  { split; [ | split ]; [ intros tr d | intros tr bus; eexists | intros tr argv ];
      reflexivity. }
  assert (H4 : release_succeeds second_gpu_lost) by (split; intros tr display; reflexivity).
  assert (H5 : stops_succeed second_gpu_lost) by (split; intros tr x; reflexivity).
  assert (H6 : run second_gpu_lost 3 [] =
               (Some (Raise CalledProcessError), snd (run second_gpu_lost 3 [])))
    by (vm_compute; reflexivity).
  split; [ exact H1 | split; [ exact H2 | split; [ exact H3 | split; [ exact H4 | ] ] ] ].
  split; [ exact H5 | split; [ exact H6 | ] ].
  exact (run_cleanup second_gpu_lost 3 (dict_keys two_gpus) [] _ _ H1 H2 H3 H4 H5 H6).
Defined.
